(** * Execution orchestration subsystem of the agent platform

    A shallow embedding of the TypeScript sources

    - [types/execution.ts], [types/agent.ts]        (data model)
    - [lib/api/errors.ts]                           (error taxonomy, retry policy)
    - [lib/api/webhook-client.ts]                   (transport client)
    - [lib/agents/agent-registry.ts], agent-config  (agent registry)
    - [lib/api/execution-service.ts]                (execution orchestrator)
    - [lib/utils/storage.ts]                        (persistence layer)
    - [lib/store/execution-store.ts]                (execution state container)

    followed by the properties of the specification that were checked
    against it (Part II) and by further properties of the code (Part III).

    Conventions of the embedding.

    - JavaScript numbers that the sources use as millisecond counts and HTTP
      status codes are integers ([Z]); [maxAttempts], which the retry loop
      compares its integer counter with, is any finite number ([Q]); a
      setting of an agent, which is tested for truth, may be [NaN]
      ([JsNum]).
    - Values of type [any] are [JsValue]s; thrown values are [JsError]s.
    - A function that may throw returns a [Result]; a function that reads or
      changes the outside world takes the world and returns the new one.
    - The platform (URL parser, JSON codec, network, UUID source) is not
      part of the repository; it is a parameter of the model ([Platform]).
      The browser storage is modelled with the quota it enforces
      ([LocalStorage]), the clock as advancing with the timers and the
      requests awaited. *)

From Stdlib Require Import ZArith String Ascii List Bool Lia QArith Qround.
From stdpp Require Import base option list strings gmap fin_maps pretty.

Close Scope Q_scope.

Set Default Proof Using "Type".
Set Warnings "-register-all".

(* ================================================================== *)
(** * Part I: the model                                                 *)
(* ================================================================== *)

(** ** JavaScript values and string helpers *)

Module Js.

(** [any]: the JSON values, [undefined], [Blob] host objects (of which
    only size and MIME type are ever read) and the built-in functions that
    every object literal inherits (of which only the name is known). *)
Inductive JsValue : Type :=
| JsUndefined
| JsNull
| JsBool (b : bool)
| JsNumber (n : Z)
| JsString (s : string)
| JsArray (elems : list JsValue)
| JsObject (props : list (string * JsValue))
| JsBlob (size : Z) (mime : string)
| JsFunction (name : string).

(** A number of a configuration: a whole number, or [NaN]. *)
Inductive JsNum : Type :=
| Whole (z : Z)
| NaN.

Definition whole (n : JsNum) : option Z :=
  match n with
  | Whole z => Some z
  | NaN => None
  end.

(** An object literal: properties in insertion order, keys unique. *)
Definition JsProps : Type := list (string * JsValue).

(** [ToBoolean]. *)
Definition truthy (v : JsValue) : bool :=
  match v with
  | JsUndefined | JsNull => false
  | JsBool b => b
  | JsNumber n => negb (n =? 0)%Z
  | JsString s => negb (String.eqb s "")
  | JsArray _ | JsObject _ | JsBlob _ _ | JsFunction _ => true
  end.

(** [v === undefined || v === null], the test of [??] and [?.]. *)
Definition nullish (v : JsValue) : bool :=
  match v with
  | JsUndefined | JsNull => true
  | _ => false
  end.

Definition isString (v : JsValue) : bool :=
  match v with JsString _ => true | _ => false end.

(** [typeof v === 'object'] (which holds of [null] too). *)
Definition isObjectType (v : JsValue) : bool :=
  match v with
  | JsNull | JsArray _ | JsObject _ | JsBlob _ _ => true
  | _ => false
  end.

Definition isBlob (v : JsValue) : bool :=
  match v with JsBlob _ _ => true | _ => false end.

Section Props.
Context {A : Type}.

(** [o[k]] on a property list. *)
Fixpoint props_get (o : list (string * A)) (k : string) : option A :=
  match o with
  | [] => None
  | (k', v) :: o' => if String.eqb k' k then Some v else props_get o' k
  end.

(** An object with the property [k] set to [v], as [{ ...o, [k]: v }] and
    [o.k = v] for a name written out give it: an existing property keeps
    its place, a new one goes last. *)
Fixpoint props_set (o : list (string * A)) (k : string) (v : A)
  : list (string * A) :=
  match o with
  | [] => [(k, v)]
  | (k', v') :: o' =>
      if String.eqb k' k then (k, v) :: o' else (k', v') :: props_set o' k v
  end.

(** [delete o[k]]. *)
Fixpoint props_delete (o : list (string * A)) (k : string)
  : list (string * A) :=
  match o with
  | [] => []
  | (k', v') :: o' =>
      if String.eqb k' k then props_delete o' k
      else (k', v') :: props_delete o' k
  end.

End Props.

(** [v.k] and [v?.k] for the property names that the sources write out
    ([data], [url], [name], [message], ...), none of which an object
    inherits from [Object.prototype]: the property of an object that has
    [k], the [size] of a [Blob], the [name] of a function, and [undefined]
    otherwise. *)
Definition prop (v : JsValue) (k : string) : JsValue :=
  match v with
  | JsObject props => default JsUndefined (props_get props k)
  | JsBlob size _ => if String.eqb k "size" then JsNumber size else JsUndefined
  | JsFunction name =>
      if String.eqb k "name" then JsString name else JsUndefined
  | _ => JsUndefined
  end.

(** The names every object literal inherits from [Object.prototype]. *)
Definition objectPrototypeNames : list string :=
  ["constructor"; "__defineGetter__"; "__defineSetter__"; "hasOwnProperty";
   "__lookupGetter__"; "__lookupSetter__"; "isPrototypeOf";
   "propertyIsEnumerable"; "toString"; "valueOf"; "__proto__";
   "toLocaleString"].

(** Whether an object literal inherits a member of that name. *)
Definition isInherited (k : string) : bool :=
  existsb (String.eqb k) objectPrototypeNames.

(** The member of [Object.prototype] of that name: a built-in function, but
    for [__proto__], which is [Object.prototype] itself, an object without
    enumerable properties. *)
Definition inheritedMember (k : string) : JsValue :=
  if String.eqb k "__proto__" then JsObject []
  else if isInherited k then JsFunction k
  else JsUndefined.

(** [o[k]] for a computed name [k] on an object literal: its own property,
    or else the member it inherits, or else [undefined]. *)
Definition member (o : JsProps) (k : string) : JsValue :=
  default (inheritedMember k) (props_get o k).

(** An object that assignments build, from [{}]: its properties, and
    whether an assignment to [__proto__] still reaches the setter that the
    object inherits from [Object.prototype]. *)
Record Built : Type := mkBuilt {
  built_props : JsProps;
  built_setter : bool
}.

(** [{}]. *)
Definition emptyObject : Built := mkBuilt [] true.

(** [typeof v === 'object' || typeof v === 'function'], [null] apart. *)
Definition isObject (v : JsValue) : bool :=
  match v with
  | JsArray _ | JsObject _ | JsBlob _ _ | JsFunction _ => true
  | _ => false
  end.

(** Whether an object of the prototype [v] inherits the setter: not below
    [null], and not below an object that has a property [__proto__] of
    its own. *)
Definition passesSetter (v : JsValue) : bool :=
  match v with
  | JsNull => false
  | JsObject props =>
      match props_get props "__proto__" with
      | Some _ => false
      | None => true
      end
  | _ => true
  end.

(** [o[k] = v] by assignment. An assignment to [__proto__] that reaches
    the setter gives the object no property: [v] becomes its prototype
    when it is an object or [null], and nothing happens otherwise. Every
    other assignment sets a property of the object: the members it
    inherits from [Object.prototype] are writable, and so are those of a
    prototype that is data. *)
Definition put (o : Built) (k : string) (v : JsValue) : Built :=
  if String.eqb k "__proto__" && built_setter o then
    match v with
    | JsNull => mkBuilt (built_props o) false
    | _ =>
        if isObject v then mkBuilt (built_props o) (passesSetter v) else o
    end
  else mkBuilt (props_set (built_props o) k v) (built_setter o).

(** [Object.assign(target, source)]: the properties of the source are
    assigned one by one. *)
Definition assign (target : Built) (source : JsProps) : Built :=
  fold_left (fun acc kv => put acc (fst kv) (snd kv)) source target.

(** The value that a JSON text denotes. *)
Inductive Json : Type :=
| JsonNull
| JsonBool (b : bool)
| JsonNumber (n : Z)
| JsonString (s : string)
| JsonArray (elems : list Json)
| JsonObject (props : list (string * Json)).

(** [JSON.parse] of the text. *)
Fixpoint fromJson (j : Json) : JsValue :=
  match j with
  | JsonNull => JsNull
  | JsonBool b => JsBool b
  | JsonNumber n => JsNumber n
  | JsonString s => JsString s
  | JsonArray elems => JsArray (List.map fromJson elems)
  | JsonObject props =>
      JsObject (List.map (fun kv => (fst kv, fromJson (snd kv))) props)
  end.

(** [JSON.stringify(v)], as the value of the text it writes; [None] where
    it writes nothing ([undefined], a function). In an array such an
    element is written as [null]; in an object the property is left out. A
    [Blob] has no enumerable property. *)
Fixpoint toJson (v : JsValue) : option Json :=
  match v with
  | JsUndefined | JsFunction _ => None
  | JsNull => Some JsonNull
  | JsBool b => Some (JsonBool b)
  | JsNumber n => Some (JsonNumber n)
  | JsString s => Some (JsonString s)
  | JsArray elems =>
      Some (JsonArray (List.map (fun x => default JsonNull (toJson x)) elems))
  | JsObject props =>
      Some (JsonObject
              ((fix members (ps : list (string * JsValue))
                  : list (string * Json) :=
                  match ps with
                  | [] => []
                  | (k, x) :: ps' =>
                      match toJson x with
                      | Some j => (k, j) :: members ps'
                      | None => members ps'
                      end
                  end) props))
  | JsBlob _ _ => Some (JsonObject [])
  end.

(** The properties of an object that [JSON.stringify] writes. *)
Definition toJsonProps (ps : JsProps) : list (string * Json) :=
  match toJson (JsObject ps) with
  | Some (JsonObject props) => props
  | _ => []
  end.

(** [JSON.parse(JSON.stringify(v))], where [undefined] stands for a
    property that is not there. *)
Definition jsonRoundTrip (v : JsValue) : JsValue :=
  match toJson v with
  | Some j => fromJson j
  | None => JsUndefined
  end.

(** [a || b] on values. *)
Definition or_else (a b : JsValue) : JsValue := if truthy a then a else b.

(** [s.startsWith(p)]. *)
Fixpoint startsWith (s p : string) {struct p} : bool :=
  match p, s with
  | EmptyString, _ => true
  | String a p', String b s' => if Ascii.eqb a b then startsWith s' p' else false
  | String _ _, EmptyString => false
  end.

(** The suffix of [s] after its first [n] characters. *)
Fixpoint dropChars (n : nat) (s : string) : string :=
  match n, s with
  | O, _ => s
  | S n', String _ s' => dropChars n' s'
  | S _, EmptyString => EmptyString
  end.

(** [s.replace(/^p/, '')] for a literal [p]. *)
Definition stripPrefix (p s : string) : string :=
  if startsWith s p then dropChars (String.length p) s else s.

(** [s.replace(/^\/+/, '')]. *)
Fixpoint stripLeadingSlashes (s : string) : string :=
  match s with
  | String c s' => if Ascii.eqb c "/" then stripLeadingSlashes s' else s
  | EmptyString => EmptyString
  end.

End Js.
Export Js.

(** ** Thrown values ([lib/api/errors.ts], [lib/utils/storage.ts],
       [lib/agents/agent-registry.ts]) *)

Module Thrown.

(** The built-in error classes that the sources tell apart with
    [instanceof]. *)
Inductive NativeClass : Type :=
| ClsError
| ClsTypeError
| ClsSyntaxError
| ClsDOMException.

(** Everything a [throw] of this code base can carry. The first seven
    constructors are the instances of [ExecutionBaseError] and of its
    subclasses; [ExecutionError] is the plain record of
    [types/execution.ts], which [retryWithBackoff] can throw as an object. *)
Inductive JsError : Type :=
| ExecutionBaseError (msg code : string) (details : JsValue)
| ExecutionTimeoutError (executionId : string) (timeoutMs : Z)
| ValidationError (field constraint : string) (value : JsValue)
| WebhookError (statusCode : Z) (responseBody : string)
| NetworkError (msg : string) (originalError : option JsError)
| AgentNotFoundError (agentId : string)
| AgentUnavailableError (agentId reason : string)
| AgentValidationError (msg : string) (agentId : option string)
| StorageError (msg code : string)
| QuotaExceededError
| StorageUnavailableError
| NativeError (cls : NativeClass) (name msg : string)
| ThrownValue (v : JsValue)
| ThrownRecord (r : ExecutionError)
with Details : Type :=
| DetailsValue (v : JsValue)
    (* an ordinary value *)
| DetailsThrown (e : JsError)
    (* the caught value itself *)
| DetailsParsed (e : JsError)
    (* the plain object that [JSON.parse] makes of the text of a caught
       value: its own enumerable properties *)
| DetailsNameStack (e : JsError)
    (* [{ name: e.name, stack: e.stack }] *)
with ExecutionError : Type :=
| mkExecutionError (code message : string) (details : option Details).

Definition code (r : ExecutionError) : string :=
  match r with mkExecutionError c _ _ => c end.
Definition message (r : ExecutionError) : string :=
  match r with mkExecutionError _ m _ => m end.
Definition details (r : ExecutionError) : option Details :=
  match r with mkExecutionError _ _ d => d end.

(** [e instanceof Error]. *)
Definition isErrorInstance (e : JsError) : bool :=
  match e with
  | ThrownValue _ | ThrownRecord _ => false
  | _ => true
  end.

(** [e instanceof ExecutionBaseError]. *)
Definition isExecutionBaseError (e : JsError) : bool :=
  match e with
  | ExecutionBaseError _ _ _ | ExecutionTimeoutError _ _
  | ValidationError _ _ _ | WebhookError _ _ | NetworkError _ _
  | AgentNotFoundError _ | AgentUnavailableError _ _ => true
  | _ => false
  end.

Definition isWebhookError (e : JsError) : bool :=
  match e with WebhookError _ _ => true | _ => false end.

Definition isNetworkError (e : JsError) : bool :=
  match e with NetworkError _ _ => true | _ => false end.

Definition isTypeError (e : JsError) : bool :=
  match e with NativeError ClsTypeError _ _ => true | _ => false end.

(** [e.message], as the constructors compute it. *)
Definition errorMessage (e : JsError) : string :=
  match e with
  | ExecutionBaseError m _ _ => m
  | ExecutionTimeoutError id ms =>
      "Execution " +:+ id +:+ " timed out after " +:+ pretty ms +:+ "ms"
  | ValidationError f c _ => "Validation failed for " +:+ f +:+ ": " +:+ c
  | WebhookError st _ => "Webhook request failed with status " +:+ pretty st
  | NetworkError m _ => "Network error: " +:+ m
  | AgentNotFoundError a => "Agent not found: " +:+ a
  | AgentUnavailableError a r => "Agent " +:+ a +:+ " is unavailable: " +:+ r
  | AgentValidationError m _ => m
  | StorageError m _ => m
  | QuotaExceededError => "Storage quota exceeded"
  | StorageUnavailableError => "localStorage is not available"
  | NativeError _ _ m => m
  | ThrownValue v =>
      match prop v "message" with JsString m => m | _ => "" end
  | ThrownRecord r => message r
  end.

(** [e.name]: [this.constructor.name] for the [ExecutionBaseError] family,
    the literal the constructor assigns otherwise. *)
Definition errorName (e : JsError) : string :=
  match e with
  | ExecutionBaseError _ _ _ => "ExecutionBaseError"
  | ExecutionTimeoutError _ _ => "ExecutionTimeoutError"
  | ValidationError _ _ _ => "ValidationError"
  | WebhookError _ _ => "WebhookError"
  | NetworkError _ _ => "NetworkError"
  | AgentNotFoundError _ => "AgentNotFoundError"
  | AgentUnavailableError _ _ => "AgentUnavailableError"
  | AgentValidationError _ _ => "AgentValidationError"
  | StorageError _ _ | QuotaExceededError | StorageUnavailableError =>
      "StorageError"
  | NativeError _ n _ => n
  | ThrownValue v =>
      match prop v "name" with JsString n => n | _ => "" end
  | ThrownRecord _ => ""
  end.

(** [e.code], where the class has one. *)
Definition errorCode (e : JsError) : option string :=
  match e with
  | ExecutionBaseError _ c _ => Some c
  | ExecutionTimeoutError _ _ => Some "EXECUTION_TIMEOUT"
  | ValidationError _ _ _ => Some "VALIDATION_ERROR"
  | WebhookError _ _ => Some "WEBHOOK_ERROR"
  | NetworkError _ _ => Some "NETWORK_ERROR"
  | AgentNotFoundError _ => Some "AGENT_NOT_FOUND"
  | AgentUnavailableError _ _ => Some "AGENT_UNAVAILABLE"
  | AgentValidationError _ _ => None
  | StorageError _ c => Some c
  | QuotaExceededError => Some "QUOTA_EXCEEDED"
  | StorageUnavailableError => Some "STORAGE_UNAVAILABLE"
  | NativeError _ _ _ => None
  | ThrownValue v =>
      match prop v "code" with JsString c => Some c | _ => None end
  | ThrownRecord r => Some (code r)
  end.

(** [this.details] of the [ExecutionBaseError] family. *)
Definition errorDetails (e : JsError) : JsValue :=
  match e with
  | ExecutionBaseError _ _ d => d
  | ExecutionTimeoutError id ms =>
      JsObject [("executionId", JsString id); ("timeoutMs", JsNumber ms)]
  | ValidationError f c v =>
      JsObject [("field", JsString f); ("constraint", JsString c); ("value", v)]
  | WebhookError st body =>
      JsObject [("statusCode", JsNumber st); ("responseBody", JsString body)]
  | NetworkError _ orig =>
      JsObject [("originalError",
                 match orig with
                 | Some o => JsString (errorMessage o)
                 | None => JsUndefined
                 end)]
  | AgentNotFoundError a => JsObject [("agentId", JsString a)]
  | AgentUnavailableError a r =>
      JsObject [("agentId", JsString a); ("reason", JsString r)]
  | _ => JsUndefined
  end.

(** The outcome of a call that may throw. *)
Inductive Result (A : Type) : Type :=
| Ok (a : A)
| Throw (e : JsError).
Arguments Ok {A} a.
Arguments Throw {A} e.

Definition isThrow {A} (r : Result A) : bool :=
  match r with Throw _ => true | Ok _ => false end.

End Thrown.
Export Thrown.

(** ** Data model ([types/execution.ts], [types/agent.ts]) *)

Inductive ExecutionStatus : Type :=
| Pending
| Processing
| Completed
| Failed.

Inductive InputSchemaType : Type := InputText | InputForm | InputFile.

Inductive OutputSchemaType : Type :=
| OutVideo
| OutImage
| OutText
| OutJson.

Inductive FormFieldType : Type :=
| FieldText
| FieldNumber
| FieldSelect
| FieldCheckbox.

Inductive AgentStatus : Type := Active | Inactive | Maintenance.

Inductive AgentCategory : Type :=
| CatVideo
| CatImage
| CatText
| CatAudio
| CatData
| CatOther.

#[global] Instance ExecutionStatus_eq_dec : EqDecision ExecutionStatus.
Proof. solve_decision. Defined.

Module ExecutionInput.
Record t : Type := mk {
  prompt : option string;
  parameters : option JsProps;
}.
End ExecutionInput.
Abbreviation ExecutionInput := ExecutionInput.t.

Module ExecutionOutput.
Record t : Type := mk {
  type : OutputSchemaType;
  data : JsValue;
  metadata : JsValue;
}.
End ExecutionOutput.
Abbreviation ExecutionOutput := ExecutionOutput.t.

(** Dates are milliseconds since the epoch. *)
Module Execution.
Record t : Type := mk {
  id : string;
  agentId : string;
  status : ExecutionStatus;
  input : ExecutionInput;
  output : option ExecutionOutput;
  createdAt : Z;
  completedAt : option Z;
  error : option ExecutionError;
}.

Definition set_status (s : ExecutionStatus) (e : t) : t :=
  mk (id e) (agentId e) s (input e) (output e) (createdAt e) (completedAt e)
     (error e).
Definition set_output (o : option ExecutionOutput) (e : t) : t :=
  mk (id e) (agentId e) (status e) (input e) o (createdAt e) (completedAt e)
     (error e).
Definition set_completedAt (d : option Z) (e : t) : t :=
  mk (id e) (agentId e) (status e) (input e) (output e) (createdAt e) d
     (error e).
Definition set_error (r : option ExecutionError) (e : t) : t :=
  mk (id e) (agentId e) (status e) (input e) (output e) (createdAt e)
     (completedAt e) r.
End Execution.
Abbreviation Execution := Execution.t.

(** [status === 'pending' || status === 'processing']. *)
Definition inFlight (s : ExecutionStatus) : bool :=
  match s with
  | Pending | Processing => true
  | Completed | Failed => false
  end.

(** [Partial<Execution>]: a field that is absent is [None]; an optional
    field that is present may carry [undefined] ([Some None]). *)
Module ExecutionUpdates.
Record t : Type := mk {
  id : option string;
  agentId : option string;
  status : option ExecutionStatus;
  input : option ExecutionInput;
  output : option (option ExecutionOutput);
  createdAt : option Z;
  completedAt : option (option Z);
  error : option (option ExecutionError);
}.
End ExecutionUpdates.
Abbreviation ExecutionUpdates := ExecutionUpdates.t.

(** [{ ...e, ...updates }]. *)
Definition mergeExecution (e : Execution) (u : ExecutionUpdates) : Execution :=
  Execution.mk
    (default (Execution.id e) (ExecutionUpdates.id u))
    (default (Execution.agentId e) (ExecutionUpdates.agentId u))
    (default (Execution.status e) (ExecutionUpdates.status u))
    (default (Execution.input e) (ExecutionUpdates.input u))
    (default (Execution.output e) (ExecutionUpdates.output u))
    (default (Execution.createdAt e) (ExecutionUpdates.createdAt u))
    (default (Execution.completedAt e) (ExecutionUpdates.completedAt u))
    (default (Execution.error e) (ExecutionUpdates.error u)).

Module FormField.
Record t : Type := mk {
  name : string;
  label : string;
  type : FormFieldType;
  defaultValue : JsValue;
  options : option (list string);
  required : option bool;
}.
End FormField.
Abbreviation FormField := FormField.t.

Module ValidationRules.
Record t : Type := mk {
  minLength : option Z;
  maxLength : option Z;
  pattern : option string;
  required : option bool;
  custom : option (JsValue -> Result JsValue);   (* a callback: it may throw *)
}.
End ValidationRules.
Abbreviation ValidationRules := ValidationRules.t.

Module InputSchema.
Record t : Type := mk {
  type : InputSchemaType;
  fields : option (list FormField);
  validation : option ValidationRules;
}.
End InputSchema.
Abbreviation InputSchema := InputSchema.t.

Module OutputSchema.
Record t : Type := mk {
  type : OutputSchemaType;
  format : option string;
}.
End OutputSchema.
Abbreviation OutputSchema := OutputSchema.t.

Module AgentSettings.
Record t : Type := mk {
  maxExecutionTime : option JsNum;
  pollingInterval : option JsNum;
  retryAttempts : option JsNum;
}.
End AgentSettings.
Abbreviation AgentSettings := AgentSettings.t.

Module AgentConfig.
Record t : Type := mk {
  id : string;
  name : string;
  description : string;
  icon : string;
  webhookUrl : string;
  category : option AgentCategory;
  status : AgentStatus;
  inputSchema : InputSchema;
  outputSchema : OutputSchema;
  settings : option AgentSettings;
}.
End AgentConfig.
Abbreviation AgentConfig := AgentConfig.t.

(** ** Error taxonomy and retry policy ([lib/api/errors.ts]) *)

Module Errors.

(** [parseError]: any caught value as an [ExecutionError] record. *)
Definition parseError (error : JsError) : ExecutionError :=
  if isExecutionBaseError error then
    (* toExecutionError() *)
    mkExecutionError (default "" (errorCode error)) (errorMessage error)
      (Some (DetailsValue (errorDetails error)))
  else if isErrorInstance error then
    mkExecutionError "UNKNOWN_ERROR" (errorMessage error)
      (Some (DetailsNameStack error))
  else
    match error with
    | ThrownValue (JsString s) => mkExecutionError "UNKNOWN_ERROR" s None
    | _ =>
        mkExecutionError "UNKNOWN_ERROR" "An unknown error occurred"
          (Some (DetailsThrown error))
    end.

(** [maxAttempts] is a number that the loop compares its counter with: any
    finite number, whole or not. *)
Module RetryConfig.
Record t : Type := mk {
  maxAttempts : Q;
  delayMs : Z;
  backoffMultiplier : option Z;
  retryableErrors : option (list string);
}.
End RetryConfig.
Abbreviation RetryConfig := RetryConfig.t.

(** [Partial<RetryConfig>], the second argument of [retryWithBackoff]. *)
Module PartialRetryConfig.
Record t : Type := mk {
  maxAttempts : option Q;
  delayMs : option Z;
  backoffMultiplier : option Z;
  retryableErrors : option (list string);
}.
End PartialRetryConfig.
Abbreviation PartialRetryConfig := PartialRetryConfig.t.

Definition DEFAULT_RETRY_CONFIG : RetryConfig :=
  RetryConfig.mk 3%Q 1000 (Some 2%Z)
    (Some ["NETWORK_ERROR"; "WEBHOOK_ERROR"]).

(** [DEFAULT_RETRY_CONFIG.retryableErrors!] and
    [DEFAULT_RETRY_CONFIG.backoffMultiplier!]. *)
Definition defaultRetryableErrors : list string :=
  default [] (RetryConfig.retryableErrors DEFAULT_RETRY_CONFIG).
Definition defaultBackoffMultiplier : Z :=
  default 1%Z (RetryConfig.backoffMultiplier DEFAULT_RETRY_CONFIG).

(** [retryableErrors.includes(error.code)]. *)
Definition isRetryableError (error : ExecutionError)
    (retryableErrors : list string) : bool :=
  existsb (String.eqb (code error)) retryableErrors.

Section Retry.

(** The world the wrapped operation acts on, and the timer of the
    platform: [setTimeout ms w] is the world once a timer of [ms]
    milliseconds has fired. *)
Context {W T : Type}.
Variable setTimeout : Z -> W -> W.

(** [fn: () => Promise<T>], awaited. *)
Definition Operation : Type := W -> Result T * W.

(** The [for] loop of [retryWithBackoff]; [remaining] counts the values
    [attempt], [attempt + 1], ... of the counter that are still within
    [maxAttempts]. When it runs out the condition [attempt <= maxAttempts]
    has failed, the loop has ended and [lastError] is thrown. *)
Fixpoint retryLoop (remaining : nat) (fn : Operation)
    (maxAttempts : Q) (backoffMultiplier : Z) (retryableErrors : list string)
    (attempt currentDelay : Z) (lastError : option ExecutionError) (w : W)
  : Result T * W :=
  match remaining with
  | O =>
      (Throw match lastError with
             | Some r => ThrownRecord r
             | None => ThrownValue JsNull
             end, w)
  | S remaining' =>
      match fn w with
      | (Ok v, w1) => (Ok v, w1)
      | (Throw error, w1) =>
          let lastError := parseError error in
          if negb (isRetryableError lastError retryableErrors) then
            (Throw error, w1)
          else if Qeq_bool (inject_Z attempt) maxAttempts then
            (Throw error, w1)   (* [attempt === maxAttempts] *)
          else
            retryLoop remaining' fn maxAttempts backoffMultiplier
              retryableErrors (attempt + 1)%Z
              (currentDelay * backoffMultiplier)%Z (Some lastError)
              (setTimeout currentDelay w1)
      end
  end.

Definition retryWithBackoff (fn : Operation) (config : PartialRetryConfig)
    (w : W) : Result T * W :=
  let maxAttempts :=
    default (RetryConfig.maxAttempts DEFAULT_RETRY_CONFIG)
            (PartialRetryConfig.maxAttempts config) in
  let delayMs :=
    default (RetryConfig.delayMs DEFAULT_RETRY_CONFIG)
            (PartialRetryConfig.delayMs config) in
  let backoffMultiplier :=
    default defaultBackoffMultiplier
            (PartialRetryConfig.backoffMultiplier config) in
  let retryableErrors :=
    default defaultRetryableErrors
            (PartialRetryConfig.retryableErrors config) in
  retryLoop (Z.to_nat (Qfloor maxAttempts)) fn maxAttempts backoffMultiplier
    retryableErrors 1%Z delayMs None w.

End Retry.

(** The table [messages] of [getUserFriendlyErrorMessage]. *)
Definition messages : list (string * string) :=
  [("EXECUTION_TIMEOUT",
    "The request took too long to complete. Please try again.");
   ("VALIDATION_ERROR", "Please check your input and try again.");
   ("WEBHOOK_ERROR",
    "Failed to connect to the service. Please try again later.");
   ("NETWORK_ERROR",
    "Network connection failed. Please check your internet connection.");
   ("AGENT_NOT_FOUND", "The selected agent could not be found.");
   ("AGENT_UNAVAILABLE",
    "The agent is currently unavailable. Please try again later.");
   ("UNKNOWN_ERROR", "An unexpected error occurred. Please try again.")].

(** What [getUserFriendlyErrorMessage] returns: a text or, when the code
    names a member of [Object.prototype], that member (which is truthy, and
    no text). *)
Inductive FriendlyMessage : Type :=
| FriendlyText (text : string)
| InheritedMember (name : string).

(** [messages[error.code] || error.message || messages.UNKNOWN_ERROR]. *)
Definition getUserFriendlyErrorMessage (error : ExecutionError)
  : FriendlyMessage :=
  let otherwise :=
    if negb (String.eqb (message error) "") then FriendlyText (message error)
    else FriendlyText (default "" (props_get messages "UNKNOWN_ERROR")) in
  match props_get messages (code error) with
  | Some text => if negb (String.eqb text "") then FriendlyText text
                 else otherwise
  | None =>
      if existsb (String.eqb (code error)) objectPrototypeNames
      then InheritedMember (code error)
      else otherwise
  end.

Section Validation.

(** [new RegExp(pattern).test(value)]; the constructor throws for a pattern
    that is no regular expression. *)
Variable RegExp_test : string -> string -> Result bool.

(** [rules.required], as a condition. *)
Definition isRequired (rules : ValidationRules) : bool :=
  default false (ValidationRules.required rules).

(** [value === undefined || value === null || value === '']. *)
Definition isMissing (value : JsValue) : bool :=
  match value with
  | JsUndefined | JsNull => true
  | JsString s => String.eqb s ""
  | _ => false
  end.

(** The block [if (rules.custom) { ... }]: what it throws, if anything;
    what the callback throws is not caught. *)
Definition customViolation (value : JsValue) (field : string)
    (rules : ValidationRules) : option JsError :=
  match ValidationRules.custom rules with
  | Some custom =>
      match custom value with
      | Throw e => Some e
      | Ok (JsBool false) =>
          Some (ValidationError field "Custom validation failed" value)
      | Ok (JsString result) => Some (ValidationError field result value)
      | Ok _ => None
      end
  | None => None
  end.

(** The block [if (typeof value === 'string') { ... }]: what it throws, if
    anything. *)
Definition stringViolation (value : string) (field : string)
    (rules : ValidationRules) : option JsError :=
  let len := Z.of_nat (String.length value) in
  let patternCheck :=
    match ValidationRules.pattern rules with
    | Some pattern =>
        if negb (String.eqb pattern "") then
          match RegExp_test pattern value with
          | Ok true => None
          | Ok false =>
              Some (ValidationError field "Invalid format" (JsString value))
          | Throw e => Some e
          end
        else None
    | None => None
    end in
  let maxCheck :=
    match ValidationRules.maxLength rules with
    | Some maxLength =>
        if (maxLength <? len)%Z then
          Some (ValidationError field
                  ("Must be at most " +:+ pretty maxLength +:+ " characters")
                  (JsString value))
        else patternCheck
    | None => patternCheck
    end in
  match ValidationRules.minLength rules with
  | Some minLength =>
      if (len <? minLength)%Z then
        Some (ValidationError field
                ("Must be at least " +:+ pretty minLength +:+ " characters")
                (JsString value))
      else maxCheck
  | None => maxCheck
  end.

Definition validateInput (value : JsValue) (field : string)
    (rules : option ValidationRules) : Result unit :=
  match rules with
  | None => Ok tt
  | Some rules =>
      if isRequired rules && isMissing value then
        Throw (ValidationError field "This field is required" JsUndefined)
      else if negb (truthy value) && negb (isRequired rules) then Ok tt
      else
        let violation :=
          match value with
          | JsString s =>
              match stringViolation s field rules with
              | Some e => Some e
              | None => customViolation value field rules
              end
          | _ => customViolation value field rules
          end in
        match violation with
        | Some e => Throw e
        | None => Ok tt
        end
  end.

End Validation.

End Errors.

(** ** The platform and the world of the orchestrator *)

(** What the orchestrator does to the outside world, oldest first. *)
Inductive Effect : Type :=
| EffFetch (url : string) (body : option string)
    (* [fetch(url, { method: 'POST', body })] *)
| EffTimer (ms : Z)
    (* [setTimeout(resolve, ms)], awaited *)
| EffUuid (id : string).
    (* [uuidv4()] *)

(** A [Response]: its status, and what reading its body gives. Either
    reading may fail, as the body arrives after the status. *)
Module Response.
Record t : Type := mk {
  status : Z;
  text : Result string;    (* [await response.text()] *)
  json : Result JsValue;   (* [await response.json()] *)
}.
(** [response.ok]. *)
Definition ok (r : t) : bool := (200 <=? status r)%Z && (status r <=? 299)%Z.
End Response.
Abbreviation Response := Response.t.

Inductive FetchOutcome : Type :=
| FetchRejected (e : JsError)
| FetchResolved (r : Response).

(** The services of the JavaScript platform. The network and the UUID
    source answer as a function of everything done so far. *)
Class Platform : Type := {
  (** [new URL(s).pathname]; [None] when the constructor throws. *)
  URL_pathname : string -> option string;
  (** [JSON.stringify(v)]; [None] for [undefined]. *)
  JSON_stringify : JsValue -> option string;
  (** [JSON.parse(v)]. *)
  JSON_parse : JsValue -> Result JsValue;
  (** [URL.createObjectURL(blob)]. *)
  URL_createObjectURL : JsValue -> string;
  (** [String(v)]. *)
  ToString : JsValue -> string;
  network : list Effect -> string -> option string -> FetchOutcome;
  (** The milliseconds that pass while a request is awaited, until its
      promise has settled and the body has been read. *)
  network_time : list Effect -> string -> option string -> Z;
  uuid_source : list Effect -> string;
}.

(** The static fields of [AgentRegistry]. *)
Module RegistryState.
Record t : Type := mk {
  agents : gmap string AgentConfig;
  initialized : bool;
}.
Definition initial : t := mk ∅ false.
End RegistryState.
Abbreviation RegistryState := RegistryState.t.

Module World.
Record t : Type := mk {
  now : Z;                   (* the clock, [Date.now()] *)
  history : list Effect;
  registry : RegistryState;
  heap : list Execution;     (* the [Execution] objects allocated so far *)
}.
Definition set_now (n : Z) (w : t) : t :=
  mk n (history w) (registry w) (heap w).
Definition set_history (h : list Effect) (w : t) : t :=
  mk (now w) h (registry w) (heap w).
Definition set_registry (r : RegistryState) (w : t) : t :=
  mk (now w) (history w) r (heap w).
Definition set_heap (h : list Execution) (w : t) : t :=
  mk (now w) (history w) (registry w) h.
End World.
Abbreviation World := World.t.

(** Computations on the world that may throw. *)
Module Monad.

Definition M (A : Type) : Type := World -> Result A * World.

Definition ret {A} (a : A) : M A := fun w => (Ok a, w).

Definition throw {A} (e : JsError) : M A := fun w => (Throw e, w).

Definition bind {A B} (m : M A) (k : A -> M B) : M B :=
  fun w =>
    match m w with
    | (Ok a, w') => k a w'
    | (Throw e, w') => (Throw e, w')
    end.

(** [try { m } catch (error) { handler }]. *)
Definition tryCatch {A} (m : M A) (handler : JsError -> M A) : M A :=
  fun w =>
    match m w with
    | (Ok a, w') => (Ok a, w')
    | (Throw e, w') => handler e w'
    end.

Definition liftResult {A} (r : Result A) : M A := fun w => (r, w).

Definition get : M World := fun w => (Ok w, w).

Definition modify (f : World -> World) : M unit := fun w => (Ok tt, f w).

Declare Scope js_scope.
Delimit Scope js_scope with js.
Notation "'let!' x ':=' m 'in' k" := (bind m (fun x => k))
  (at level 10, x name, m at level 100, k at level 200) : js_scope.
Notation "m ';;' k" := (bind m (fun _ => k))
  (at level 100, k at level 200, right associativity) : js_scope.
Open Scope js_scope.

(** How a loop body is left. *)
Inductive LoopStep (R : Type) : Type :=
| Continue
| Return (r : R).
Arguments Continue {R}.
Arguments Return {R} r.

(** How a loop ends: by a [return] inside the body, by its condition, or
    not within the iterations allowed. *)
Inductive LoopExit (R : Type) : Type :=
| Returned (r : R)
| Finished
| OutOfFuel.
Arguments Returned {R} r.
Arguments Finished {R}.
Arguments OutOfFuel {R}.

(** [while (cond) { body }], for at most [fuel] iterations. *)
Fixpoint while {R} (fuel : nat) (cond : M bool) (body : M (LoopStep R))
  : M (LoopExit R) :=
  match fuel with
  | O => ret OutOfFuel
  | S fuel' =>
      let! c := cond in
      if c then
        let! step := body in
        match step with
        | Return r => ret (Returned r)
        | Continue => while fuel' cond body
        end
      else ret Finished
  end.

End Monad.
Export Monad.

Section Effects.
Context `{Platform}.

Definition record (e : Effect) (w : World) : World :=
  World.set_history (World.history w ++ [e]) w.

(** The time a request takes. *)
Definition elapsed (url : string) (body : option string) (w : World) : Z :=
  Z.max 0 (network_time (World.history w) url body).

(** The world once the request has been answered: the clock has advanced
    by the time the request took. *)
Definition requested (url : string) (body : option string) (w : World)
  : World :=
  record (EffFetch url body)
    (World.set_now (World.now w + elapsed url body w)%Z w).

(** [await fetch(url, { method: 'POST', headers, body })]. *)
Definition fetch (url : string) (body : option string) : M Response :=
  fun w =>
    let w' := requested url body w in
    match network (World.history w) url body with
    | FetchRejected e => (Throw e, w')
    | FetchResolved r => (Ok r, w')
    end.

(** [uuidv4()]. *)
Definition uuidv4 : M string :=
  fun w =>
    let id := uuid_source (World.history w) in
    (Ok id, record (EffUuid id) w).

(** [Date.now()] and [new Date()]. *)
Definition Date_now : M Z := fun w => (Ok (World.now w), w).

(** [await new Promise((resolve) => setTimeout(resolve, ms))]: the clock
    has advanced by the delay when the promise resolves. *)
Definition setTimeout (ms : Z) (w : World) : World :=
  record (EffTimer ms) (World.set_now (World.now w + Z.max 0 ms)%Z w).

Definition sleep (ms : Z) : M unit := modify (setTimeout ms).

End Effects.

Open Scope js_scope.

(** ** Transport client ([lib/api/webhook-client.ts]) *)

Module WebhookClient.

(** The fields the constructor sets. *)
Record t : Type := mk {
  baseUrl : string;
  useProxy : bool;
}.

Definition msgUnavailable : string :=
  "Service temporarily unavailable. Please check if n8n is running.".
Definition msgNotFound : string :=
  "Webhook not found. Make sure your n8n workflow is activated and the webhook path is correct.".
Definition msgUnableToConnect : string :=
  "Unable to connect to the service. Please check if n8n is running.".

Section Client.
Context `{Platform}.

(** [String(error)] inside the template literal. *)
Definition errorToString (e : JsError) : string :=
  match e with
  | ThrownValue v => ToString v
  | ThrownRecord _ => "[object Object]"
  | _ =>
      let n := errorName e in
      let m := errorMessage e in
      if String.eqb n "" then m
      else if String.eqb m "" then n
      else n +:+ ": " +:+ m
  end.

(** The [url] of [triggerWorkflow]. *)
Definition requestUrl (client : t) (webhookPath : string) : string :=
  if startsWith webhookPath "/api/" then webhookPath
  else if useProxy client then "/api/webhook/" +:+ webhookPath
  else baseUrl client +:+ "/webhook/" +:+ webhookPath.

(** What reading a property of [null] or [undefined] throws (the text is
    the engine's). *)
Definition cannotReadName (v : JsValue) : JsError :=
  NativeError ClsTypeError "TypeError"
    ("Cannot read properties of "
     +:+ match v with JsNull => "null" | _ => "undefined" end
     +:+ " (reading 'name')").

(** The caught value is [null] or [undefined]. *)
Definition isNullishThrown (e : JsError) : bool :=
  match e with
  | ThrownValue v => nullish v
  | _ => false
  end.

Definition thrownValue (e : JsError) : JsValue :=
  match e with
  | ThrownValue v => v
  | _ => JsUndefined
  end.

Definition triggerWorkflow (client : t) (webhookPath : string)
    (payload : JsValue) : M JsValue :=
  let url := requestUrl client webhookPath in
  tryCatch
    (let! response := fetch url (JSON_stringify payload) in
     if negb (Response.ok response) then
       let! responseBody := liftResult (Response.text response) in
       if (Response.status response =? 503)%Z
          || (Response.status response =? 502)%Z then
         throw (NetworkError msgUnavailable None)
       else if (Response.status response =? 404)%Z then
         throw (WebhookError (Response.status response) msgNotFound)
       else
         throw (WebhookError (Response.status response) responseBody)
     else
       liftResult (Response.json response))
    (fun error =>
       if isWebhookError error || isNetworkError error then
         throw error
       else if isTypeError error then
         throw (NetworkError msgUnableToConnect
                  (if isErrorInstance error then Some error else None))
       else if isNullishThrown error then
         (* [(error as any).name] throws inside the handler *)
         throw (cannotReadName (thrownValue error))
       else if String.eqb (errorName error) "FetchError" then
         throw (NetworkError msgUnableToConnect
                  (if isErrorInstance error then Some error else None))
       else
         throw (WebhookError 500 ("Unexpected error: " +:+ errorToString error))).

End Client.

End WebhookClient.
Abbreviation WebhookClient := WebhookClient.t.

(** ** Agent registry ([lib/agents/agent-registry.ts], agent-config) *)

Module AgentRegistry.

Definition VEO3_AGENT : AgentConfig :=
  AgentConfig.mk
    "veo3-video-generator"
    "VEO3 Video Generator"
    "Generate high-quality videos from text prompts using Google's VEO3 AI model"
    "Video"
    "/api/webhook/veo3-video-generate"
    (Some CatVideo)
    Active
    (InputSchema.mk InputText None
       (Some (ValidationRules.mk (Some 10%Z) (Some 1000%Z) None (Some true)
                None)))
    (OutputSchema.mk OutVideo (Some "mp4"))
    (Some (AgentSettings.mk (Some (Whole 300000)) (Some (Whole 5000))
             (Some (Whole 3)))).

(** The agents of the repository. *)
Definition AGENTS : list AgentConfig := [VEO3_AGENT].

Section Registry.
Context `{Platform}.

(** The list [AGENTS] of agent-config, to which "future agents can be
    added". *)
Variable agentList : list AgentConfig.

(** [validateAgent]: the error it throws, if any. The tests on the types of
    the fields, on [status] and on the schema types hold of every
    [AgentConfig] and are left out. *)
Definition validateAgent (agent : AgentConfig) : option JsError :=
  if String.eqb (AgentConfig.id agent) "" then
    Some (AgentValidationError "Agent ID is required and must be a string" None)
  else if String.eqb (AgentConfig.name agent) "" then
    Some (AgentValidationError "Agent name is required"
            (Some (AgentConfig.id agent)))
  else if String.eqb (AgentConfig.description agent) "" then
    Some (AgentValidationError "Agent description is required"
            (Some (AgentConfig.id agent)))
  else if String.eqb (AgentConfig.webhookUrl agent) "" then
    Some (AgentValidationError "Agent webhook URL is required"
            (Some (AgentConfig.id agent)))
  else
    let url := AgentConfig.webhookUrl agent in
    let isValidUrl :=
      startsWith url "/" || startsWith url "http://"
      || startsWith url "https://" in
    if negb isValidUrl && negb (bool_decide (is_Some (URL_pathname url))) then
      Some (AgentValidationError ("Invalid webhook URL format: " +:+ url)
              (Some (AgentConfig.id agent)))
    else
      match AgentConfig.settings agent with
      | None => None
      | Some settings =>
          if match AgentSettings.maxExecutionTime settings with
             | Some (Whole t) => (t <=? 0)%Z
             | Some NaN | None => false
             end
          then
            Some (AgentValidationError
                    "Invalid maxExecutionTime: must be a positive number"
                    (Some (AgentConfig.id agent)))
          else if match AgentSettings.pollingInterval settings with
                  | Some (Whole t) => (t <=? 0)%Z
                  | Some NaN | None => false
                  end
          then
            Some (AgentValidationError
                    "Invalid pollingInterval: must be a positive number"
                    (Some (AgentConfig.id agent)))
          else if match AgentSettings.retryAttempts settings with
                  | Some (Whole t) => (t <? 0)%Z
                  | Some NaN | None => false
                  end
          then
            Some (AgentValidationError
                    "Invalid retryAttempts: must be a non-negative number"
                    (Some (AgentConfig.id agent)))
          else None
      end.

(** The loop of [initialize] over the agents still to be registered. *)
Fixpoint registerAll (todo : list AgentConfig)
    (agents : gmap string AgentConfig)
  : Result unit * gmap string AgentConfig :=
  match todo with
  | [] => (Ok tt, agents)
  | agent :: todo' =>
      match validateAgent agent with
      | Some e => (Throw e, agents)
      | None => registerAll todo' (<[AgentConfig.id agent := agent]> agents)
      end
  end.

Definition initialize : M unit :=
  fun w =>
    let reg := World.registry w in
    if RegistryState.initialized reg then (Ok tt, w)
    else
      match registerAll agentList (RegistryState.agents reg) with
      | (Throw e, agents) =>
          (Throw e, World.set_registry (RegistryState.mk agents false) w)
      | (Ok _, agents) =>
          (Ok tt, World.set_registry (RegistryState.mk agents true) w)
      end.

Definition getAgent (agentId : string) : M (option AgentConfig) :=
  initialize;;
  let! w := get in
  ret (RegistryState.agents (World.registry w) !! agentId).

Definition getAgentOrThrow (agentId : string) : M AgentConfig :=
  let! agent := getAgent agentId in
  match agent with
  | None => throw (AgentValidationError ("Agent not found: " +:+ agentId) None)
  | Some agent => ret agent
  end.

Definition hasAgent (agentId : string) : M bool :=
  initialize;;
  let! w := get in
  ret (bool_decide (is_Some (RegistryState.agents (World.registry w) !! agentId))).

End Registry.

End AgentRegistry.

(** ** Execution orchestrator ([lib/api/execution-service.ts]) *)

Module ExecutionService.

(** The value [pollForResult] resolves to. *)
Module PollResult.
Record t : Type := mk {
  status : ExecutionStatus;
  output : option ExecutionOutput;
  error : option ExecutionError;
}.
End PollResult.
Abbreviation PollResult := PollResult.t.

(** The [Execution] objects are mutable; a reference is an index in the
    heap of the world. *)
Definition Ref : Type := nat.

Definition alloc (e : Execution) : M Ref :=
  fun w => (Ok (length (World.heap w)), World.set_heap (World.heap w ++ [e]) w).

Definition update (r : Ref) (f : Execution -> Execution) : M unit :=
  modify (fun w => World.set_heap (alter f r (World.heap w)) w).

Definition read (r : Ref) (fallback : Execution) : M Execution :=
  fun w => (Ok (default fallback (World.heap w !! r)), w).

Definition sampleVideoUrl : string :=
  "https://commondatastorage.googleapis.com/gtv-videos-bucket/sample/BigBuckBunny.mp4".

(** The output of the branch "no immediate response and no polling". *)
Definition assumedOutput : ExecutionOutput :=
  ExecutionOutput.mk OutVideo (JsString sampleVideoUrl)
    (JsObject [("description", JsString "Video generation completed");
               ("note", JsString "n8n workflow executed successfully")]).

(** The output [pollForResult] returns from inside its loop. *)
Definition inProgressOutput (executionId : string) : ExecutionOutput :=
  ExecutionOutput.mk OutVideo JsNull
    (JsObject
       [("description", JsString "Video generation in progress (3-5 minutes)");
        ("executionId", JsString executionId);
        ("pollUrl", JsString "/api/poll-execution");
        ("estimatedTime", JsNumber 180000);
        ("note", JsString "n8n workflow started - polling for completion")]).

(** [input.prompt], as a value. *)
Definition promptValue (input : ExecutionInput) : JsValue :=
  match ExecutionInput.prompt input with
  | Some s => JsString s
  | None => JsUndefined
  end.

(** [input.parameters?.[k]]: a property of the parameters or, when they
    have none of that name, the member they inherit. *)
Definition parameter (input : ExecutionInput) (k : string) : JsValue :=
  match ExecutionInput.parameters input with
  | Some ps => member ps k
  | None => JsUndefined
  end.

(** [if (input.prompt) payload.prompt = input.prompt]. *)
Definition withPrompt (input : ExecutionInput) (payload : Built) : Built :=
  if truthy (promptValue input) then put payload "prompt" (promptValue input)
  else payload.

Definition formatPayload (agent : AgentConfig) (input : ExecutionInput)
  : JsValue :=
  let payload : Built :=
    match InputSchema.type (AgentConfig.inputSchema agent) with
    | InputText =>
        put emptyObject "prompt" (or_else (promptValue input) (JsString ""))
    | InputForm =>
        let filled :=
          match InputSchema.fields (AgentConfig.inputSchema agent) with
          | Some fields =>
              fold_left
                (fun payload field =>
                   let given := parameter input (FormField.name field) in
                   let value :=
                     if nullish given then FormField.defaultValue field
                     else given in
                   put payload (FormField.name field) value)
                fields emptyObject
          | None => emptyObject
          end in
        withPrompt input filled
    | InputFile =>
        withPrompt input (put emptyObject "file" (parameter input "file"))
    end in
  JsObject
    (built_props
       match ExecutionInput.parameters input with
       | Some ps => assign payload ps
       | None => payload
       end).

(** [{ ...v }]: the own enumerable properties of [v]. *)
Definition spread (v : JsValue) : JsProps :=
  match v with
  | JsObject props => props
  | JsArray elems => imap (fun i x => (pretty i, x)) elems
  | JsString s =>
      imap (fun i c => (pretty i, JsString (String c EmptyString)))
           (list_ascii_of_string s)
  | _ => []
  end.

Section Service.
Context `{Platform}.
Variable agentList : list AgentConfig.

Definition parseOutput (data : JsValue) (outputType : OutputSchemaType)
  : Result ExecutionOutput :=
  match outputType with
  | OutVideo | OutImage =>
      if isString data then
        Ok (ExecutionOutput.mk outputType data JsUndefined)
      else if truthy (prop data "url") then
        Ok (ExecutionOutput.mk outputType (prop data "url")
              (JsObject
                 (props_set
                    (props_set
                       (props_set
                          (props_set
                             (props_set (spread (prop data "metadata"))
                                "filename"
                                (or_else (prop data "filename")
                                         (prop data "name")))
                             "fileSize"
                             (or_else (prop data "fileSize")
                                      (prop data "size")))
                          "duration" (prop data "duration"))
                       "resolution" (prop data "resolution"))
                    "description" (prop data "description"))))
      else if truthy (or_else (prop data "videoUrl") (prop data "imageUrl"))
      then
        Ok (ExecutionOutput.mk outputType
              (or_else (prop data "videoUrl") (prop data "imageUrl"))
              (JsObject
                 [("filename", prop data "filename");
                  ("fileSize", prop data "fileSize");
                  ("duration", prop data "duration");
                  ("resolution", prop data "resolution");
                  ("description",
                   or_else (prop data "description")
                           (JsString "Generated successfully"))]))
      else
        match data with
        | JsBlob size mime =>
            Ok (ExecutionOutput.mk outputType
                  (JsString (URL_createObjectURL data))
                  (JsObject [("fileSize", JsNumber size);
                             ("mimeType", JsString mime)]))
        | _ =>
            if truthy (prop data "binary") then
              Ok (ExecutionOutput.mk outputType (prop data "binary")
                    (or_else (prop data "metadata") (JsObject [])))
            else Ok (ExecutionOutput.mk outputType data JsUndefined)
        end
  | OutText =>
      Ok (ExecutionOutput.mk outputType
            (if isString data then data
             else match JSON_stringify data with
                  | Some s => JsString s
                  | None => JsUndefined
                  end)
            JsUndefined)
  | OutJson =>
      if isObjectType data then
        Ok (ExecutionOutput.mk outputType data JsUndefined)
      else
        match JSON_parse data with
        | Ok v => Ok (ExecutionOutput.mk outputType v JsUndefined)
        | Throw e => Throw e
        end
  end.

Definition pollForResult (fuel : nat) (executionId : string)
    (maxTime interval : Z) (initialResponse : JsValue)
  : M (option PollResult) :=
  let! startTime := Date_now in
  if truthy (prop initialResponse "data") then
    ret (Some (PollResult.mk Completed
                 (Some (ExecutionOutput.mk OutVideo
                          (prop initialResponse "data")
                          (prop initialResponse "metadata")))
                 None))
  else
    let! exit :=
      while fuel
        (let! t := Date_now in ret (t - startTime <? maxTime)%Z)
        (sleep interval;;
         ret (Return (PollResult.mk Processing
                        (Some (inProgressOutput executionId)) None))) in
    match exit with
    | Returned r => ret (Some r)
    | Finished =>
        ret (Some (PollResult.mk Failed None
                     (Some (mkExecutionError "EXECUTION_TIMEOUT"
                              ("Execution timed out after " +:+ pretty maxTime
                               +:+ "ms")
                              None))))
    | OutOfFuel => ret None
    end.

Definition extractWebhookPath (webhookUrl : string) : string :=
  match URL_pathname webhookUrl with
  | Some pathname => stripLeadingSlashes (stripPrefix "/webhook/" pathname)
  | None => stripLeadingSlashes (stripPrefix "/webhook/" webhookUrl)
  end.

Definition createExecution (agentId : string) (input : ExecutionInput)
  : M Ref :=
  let! id := uuidv4 in
  let! createdAt := Date_now in
  alloc (Execution.mk id agentId Pending input None createdAt None None).

(** [agent.settings?.maxExecutionTime && agent.settings.maxExecutionTime > 0]:
    the time to poll for, when polling is configured. *)
Definition pollingTime (agent : AgentConfig) : option Z :=
  match AgentConfig.settings agent with
  | Some settings =>
      match AgentSettings.maxExecutionTime settings with
      | Some (Whole t) =>
          if negb (t =? 0)%Z && (0 <? t)%Z then Some t else None
      | Some NaN | None => None
      end
  | None => None
  end.

(** [agent.settings.pollingInterval || 5000]. *)
Definition pollingIntervalOr5000 (agent : AgentConfig) : Z :=
  match AgentConfig.settings agent with
  | Some settings =>
      match AgentSettings.pollingInterval settings with
      | Some (Whole i) => if (i =? 0)%Z then 5000%Z else i
      | Some NaN | None => 5000%Z
      end
  | None => 5000%Z
  end.

(** The [webhookPath] of [executeAgent]. *)
Definition webhookPathOf (agent : AgentConfig) : string :=
  if startsWith (AgentConfig.webhookUrl agent) "/api/"
  then AgentConfig.webhookUrl agent
  else extractWebhookPath (AgentConfig.webhookUrl agent).

(** [executeAgent]. [fuel] bounds the iterations of the polling loop; the
    result is [None] when they do not suffice. *)
Definition executeAgent (client : WebhookClient) (fuel : nat)
    (agentId : string) (input : ExecutionInput) : M (option Execution) :=
  let! agent := AgentRegistry.getAgentOrThrow agentList agentId in
  let! execution := createExecution agentId input in
  let! created := read execution
                    (Execution.mk "" agentId Pending input None 0 None None) in
  tryCatch
    (let payload := formatPayload agent input in
     let webhookPath := webhookPathOf agent in
     let! response :=
       WebhookClient.triggerWorkflow client webhookPath payload in
     update execution (Execution.set_status Processing);;
     let! settled :=
       if truthy response && truthy (prop response "data") then
         let! output :=
           liftResult
             (parseOutput (prop response "data")
                (OutputSchema.type (AgentConfig.outputSchema agent))) in
         update execution (Execution.set_output (Some output));;
         update execution (Execution.set_status Completed);;
         ret true
       else
         match pollingTime agent with
         | Some maxExecutionTime =>
             let! polled :=
               pollForResult fuel (Execution.id created) maxExecutionTime
                 (pollingIntervalOr5000 agent) response in
             match polled with
             | None => ret false
             | Some result =>
                 update execution
                   (Execution.set_output (PollResult.output result));;
                 update execution
                   (Execution.set_status (PollResult.status result));;
                 match PollResult.error result with
                 | Some e => update execution (Execution.set_error (Some e))
                 | None => ret tt
                 end;;
                 ret true
             end
         | None =>
             update execution (Execution.set_output (Some assumedOutput));;
             update execution (Execution.set_status Completed);;
             ret true
         end in
     if settled then
       let! completedAt := Date_now in
       update execution (Execution.set_completedAt (Some completedAt));;
       let! final := read execution created in
       ret (Some final)
     else ret None)
    (fun error =>
       update execution (Execution.set_status Failed);;
       update execution
         (Execution.set_error
            (Some (mkExecutionError "EXECUTION_FAILED"
                     (if isErrorInstance error then errorMessage error
                      else "Unknown error occurred")
                     (Some (DetailsThrown error)))));;
       let! completedAt := Date_now in
       update execution (Execution.set_completedAt (Some completedAt));;
       throw error).

End Service.

End ExecutionService.

(** ** Executions as JSON texts ([JSON.stringify], [JSON.parse]) *)

(** What the JSON text of an execution holds. A property that is
    [undefined] is not written, so that it is absent from the text; a date
    is written as the text of its instant; a caught value kept as the
    details of an error is written with its own enumerable properties
    only. *)
Module Stored.

Inductive Details : Type :=
| Value (j : Json)
| Thrown (e : JsError)       (* the enumerable properties of the caught value *)
| NameStack (e : JsError).   (* [{ name, stack }] *)

Record Error : Type := mkError {
  code : string;
  message : string;
  details : option Details;
}.

Record Input : Type := mkInput {
  prompt : option string;
  parameters : option (list (string * Json));
}.

Record Output : Type := mkOutput {
  type : OutputSchemaType;
  data : option Json;
  metadata : option Json;
}.

Record Execution : Type := mk {
  id : string;
  agentId : string;
  status : ExecutionStatus;
  input : Input;
  output : option Output;
  createdAt : Z;
  completedAt : option Z;
  error : option Error;
}.

End Stored.

(** [JSON.stringify] on the parts of an execution. *)
Definition storeDetails (d : Details) : option Stored.Details :=
  match d with
  | DetailsValue v => Stored.Value <$> toJson v
  | DetailsThrown (ThrownValue v) => Stored.Value <$> toJson v
  | DetailsThrown e => Some (Stored.Thrown e)
  | DetailsParsed e => Some (Stored.Thrown e)
  | DetailsNameStack e => Some (Stored.NameStack e)
  end.

Definition storeError (r : ExecutionError) : Stored.Error :=
  Stored.mkError (code r) (message r) (details r ≫= storeDetails).

Definition storeInput (i : ExecutionInput) : Stored.Input :=
  Stored.mkInput (ExecutionInput.prompt i)
    (toJsonProps <$> ExecutionInput.parameters i).

Definition storeOutput (o : ExecutionOutput) : Stored.Output :=
  Stored.mkOutput (ExecutionOutput.type o) (toJson (ExecutionOutput.data o))
    (toJson (ExecutionOutput.metadata o)).

(** What [JSON.stringify] writes of an execution. *)
Definition toStored (e : Execution) : Stored.Execution :=
  Stored.mk (Execution.id e) (Execution.agentId e) (Execution.status e)
    (storeInput (Execution.input e)) (storeOutput <$> Execution.output e)
    (Execution.createdAt e) (Execution.completedAt e)
    (storeError <$> Execution.error e).

(** [JSON.parse] on the parts of an execution. *)
Definition reviveDetails (d : Stored.Details) : Details :=
  match d with
  | Stored.Value j => DetailsValue (fromJson j)
  | Stored.Thrown e => DetailsParsed e
  | Stored.NameStack e => DetailsNameStack e
  end.

Definition reviveError (r : Stored.Error) : ExecutionError :=
  mkExecutionError (Stored.code r) (Stored.message r)
    (reviveDetails <$> Stored.details r).

Definition reviveInput (i : Stored.Input) : ExecutionInput :=
  ExecutionInput.mk (Stored.prompt i)
    (List.map (fun kv => (fst kv, fromJson (snd kv))) <$> Stored.parameters i).

Definition reviveOutput (o : Stored.Output) : ExecutionOutput :=
  ExecutionOutput.mk (Stored.type o)
    (default JsUndefined (fromJson <$> Stored.data o))
    (default JsUndefined (fromJson <$> Stored.metadata o)).

(** The execution that [loadExecutions] makes of a stored one: the text
    parsed, the dates made of their texts again. *)
Definition revive (x : Stored.Execution) : Execution :=
  Execution.mk (Stored.id x) (Stored.agentId x) (Stored.status x)
    (reviveInput (Stored.input x)) (reviveOutput <$> Stored.output x)
    (Stored.createdAt x) (Stored.completedAt x)
    (reviveError <$> Stored.error x).

(** An execution after it has been saved and loaded. *)
Definition throughJson (e : Execution) : Execution := revive (toStored e).

(** ** Persistence layer ([lib/utils/storage.ts]) *)

Module StorageService.

Definition EXECUTION_PREFIX : string := "ai-agent-platform:executions:".

Definition MAX_EXECUTIONS_PER_AGENT : nat := 50.

Definition testKey : string := "__storage_test__".

(** The prefix of every key of the application, ['ai-agent-platform:']. *)
Definition APP_PREFIX : string := "ai-agent-platform:".

(** [STORAGE_KEYS.PREFERENCES]. *)
Definition PREFERENCES : string := "ai-agent-platform:preferences".

(** What a key of [localStorage] holds: the JSON text of an array of
    executions, or any other text. *)
Inductive StoredValue : Type :=
| SVExecutions (l : list Stored.Execution)
| SVText (s : string).

(** The browser's [localStorage]. It is modelled as browsers behave: a
    quota bounds the total length of the keys and values stored, and a write
    is refused exactly when the store with the new value would exceed it.
    [hasWindow] is [typeof window !== 'undefined']. *)
Module LocalStorage.
Record t : Type := mk {
  hasWindow : bool;
  quota : nat;
  items : gmap string StoredValue;
}.
Definition set_items (m : gmap string StoredValue) (ls : t) : t :=
  mk (hasWindow ls) (quota ls) m.
End LocalStorage.
Abbreviation LocalStorage := LocalStorage.t.

(** The error [setItem] throws when the quota does not allow the write. *)
Definition quotaExceeded : JsError :=
  NativeError ClsDOMException "QuotaExceededError"
    "The quota has been exceeded.".

Section Storage.

(** The length of the JSON text of one execution. *)
Variable jsonLength : Stored.Execution -> nat.

(** The length of [JSON.stringify(l)]: brackets, elements, commas. *)
Definition serializedLength (l : list Stored.Execution) : nat :=
  2 + sum_list (jsonLength <$> l) + (length l - 1).

Definition valueLength (v : StoredValue) : nat :=
  match v with
  | SVExecutions l => serializedLength l
  | SVText s => String.length s
  end.

(** The space in use: keys and values. *)
Definition used (m : gmap string StoredValue) : nat :=
  map_fold (fun k v acc => String.length k + valueLength v + acc) 0 m.

(** [localStorage.setItem(key, value)]: the write happens when the store
    with the new value is within the quota; otherwise it throws and nothing
    changes. *)
Definition setItem (key : string) (value : StoredValue) (ls : LocalStorage)
  : Result unit * LocalStorage :=
  let m := <[key := value]> (LocalStorage.items ls) in
  if (used m <=? LocalStorage.quota ls)%nat then
    (Ok tt, LocalStorage.set_items m ls)
  else (Throw quotaExceeded, ls).

Definition getItem (key : string) (ls : LocalStorage) : option StoredValue :=
  LocalStorage.items ls !! key.

Definition removeItem (key : string) (ls : LocalStorage) : LocalStorage :=
  LocalStorage.set_items (delete key (LocalStorage.items ls)) ls.

(** [Object.keys(localStorage)]. *)
Definition keys (ls : LocalStorage) : list string :=
  (map_to_list (LocalStorage.items ls)).*1.

Definition isAvailable (ls : LocalStorage) : bool * LocalStorage :=
  if negb (LocalStorage.hasWindow ls) then (false, ls)
  else
    match setItem testKey (SVText "test") ls with
    | (Ok _, ls') => (true, removeItem testKey ls')
    | (Throw _, ls') => (false, ls')
    end.

Definition getExecutionKey (agentId : string) : string :=
  EXECUTION_PREFIX +:+ agentId.

Definition loadExecutions (agentId : string) (ls : LocalStorage)
  : list Execution * LocalStorage :=
  let '(available, ls) := isAvailable ls in
  if negb available then ([], ls)
  else
    match getItem (getExecutionKey agentId) ls with
    | Some (SVExecutions l) => (revive <$> l, ls)
    | Some (SVText _) => ([], ls)   (* empty, or not the text of an array *)
    | None => ([], ls)
    end.

Definition clearExecutions (agentId : string) (ls : LocalStorage)
  : LocalStorage :=
  let '(available, ls) := isAvailable ls in
  if negb available then ls
  else removeItem (getExecutionKey agentId) ls.

Definition getAgentIdsWithExecutions (ls : LocalStorage)
  : list string * LocalStorage :=
  let '(available, ls) := isAvailable ls in
  if negb available then ([], ls)
  else
    let executionKeys :=
      List.filter (fun key => startsWith key EXECUTION_PREFIX) (keys ls) in
    (stripPrefix EXECUTION_PREFIX <$> executionKeys, ls).

(** The [forEach] of [freeUpSpace]; a write that throws ends it. *)
Fixpoint freeUpLoop (agentIds : list string) (ls : LocalStorage)
  : Result unit * LocalStorage :=
  match agentIds with
  | [] => (Ok tt, ls)
  | agentId :: rest =>
      let '(executions, ls) := loadExecutions agentId ls in
      if (10 <? length executions)%nat then
        match setItem (getExecutionKey agentId)
                (SVExecutions (toStored <$> take 10 executions)) ls with
        | (Ok _, ls') => freeUpLoop rest ls'
        | (Throw e, ls') => (Throw e, ls')
        end
      else freeUpLoop rest ls
  end.

(** [freeUpSpace] catches and logs whatever its body throws. *)
Definition freeUpSpace (ls : LocalStorage) : LocalStorage :=
  let '(agentIds, ls) := getAgentIdsWithExecutions ls in
  snd (freeUpLoop agentIds ls).

Definition handleQuotaExceeded (agentId : string)
    (executions : list Execution) (ls : LocalStorage)
  : Result unit * LocalStorage :=
  match setItem (getExecutionKey agentId)
          (SVExecutions (toStored <$> take 10 executions)) ls with
  | (Ok _, ls') => (Ok tt, ls')
  | (Throw retryError, ls') =>
      let ls' := freeUpSpace ls' in
      match setItem (getExecutionKey agentId)
              (SVExecutions (toStored <$> take 5 executions)) ls' with
      | (Ok _, ls'') => (Ok tt, ls'')
      | (Throw finalError, ls'') => (Throw QuotaExceededError, ls'')
      end
  end.

Definition saveExecutions (agentId : string) (executions : list Execution)
    (ls : LocalStorage) : Result unit * LocalStorage :=
  let '(available, ls) := isAvailable ls in
  if negb available then (Ok tt, ls)
  else
    match setItem (getExecutionKey agentId)
            (SVExecutions
               (toStored <$> take MAX_EXECUTIONS_PER_AGENT executions))
            ls with
    | (Ok _, ls') => (Ok tt, ls')
    | (Throw error, ls') =>
        if isErrorInstance error
           && String.eqb (errorName error) "QuotaExceededError"
        then handleQuotaExceeded agentId executions ls'
        else (Ok tt, ls')
    end.

(** [clearAllExecutions]: the keys of the histories are listed first and
    removed one by one. *)
Definition clearAllExecutions (ls : LocalStorage) : LocalStorage :=
  let '(available, ls) := isAvailable ls in
  if negb available then ls
  else
    let executionKeys :=
      List.filter (fun key => startsWith key EXECUTION_PREFIX) (keys ls) in
    fold_left (fun ls key => removeItem key ls) executionKeys ls.

(** [clearAll]: the same for every key of the application. *)
Definition clearAll (ls : LocalStorage) : LocalStorage :=
  let '(available, ls) := isAvailable ls in
  if negb available then ls
  else
    let appKeys :=
      List.filter (fun key => startsWith key APP_PREFIX) (keys ls) in
    fold_left (fun ls key => removeItem key ls) appKeys ls.

End Storage.

End StorageService.
Export StorageService(StoredValue, SVExecutions, SVText, LocalStorage).

(** ** Execution state container ([lib/store/execution-store.ts]) *)

Module ExecutionStore.

Definition MAX_EXECUTIONS_PER_AGENT : nat := 50.

(** The state of the store. [executions] is an object used as a map: its
    keys are unique and [Object.entries] lists them in insertion order
    (agent ids are names, not array indices). *)
Module State.
Record t : Type := mk {
  executions : list (string * list Execution);
  currentExecution : option Execution;
  isExecuting : bool;
}.
Definition initial : t := mk [] None false.
End State.
Abbreviation State := State.t.

(** The loop of [updateExecution] over [Object.entries(executions)]: the
    first agent whose list has an execution with the id, and the first such
    execution of the list. *)
Fixpoint findExecution (entries : list (string * list Execution))
    (executionId : string) : option (string * Execution) :=
  match entries with
  | [] => None
  | (id, agentExecutions) :: rest =>
      match List.find (fun e => String.eqb (Execution.id e) executionId)
              agentExecutions with
      | Some e => Some (id, e)
      | None => findExecution rest executionId
      end
  end.

(** [currentExecution?.id === executionId]. *)
Definition isCurrent (current : option Execution) (executionId : string)
  : bool :=
  match current with
  | Some c => String.eqb (Execution.id c) executionId
  | None => false
  end.

(** What [executions[agentId]] is when it is not [undefined]: the list of
    the agent or, for an agent id that the object has no list for and that
    names a member of [Object.prototype], that member. *)
Inductive Looked : Type :=
| Listed (l : list Execution)
| Inherited (name : string).

(** [executions[agentId]]; [None] is [undefined]. *)
Definition lookupAgent (executions : list (string * list Execution))
    (agentId : string) : option Looked :=
  match props_get executions agentId with
  | Some l => Some (Listed l)
  | None => if isInherited agentId then Some (Inherited agentId) else None
  end.

(** What spreading a value that is not iterable throws (the text is the
    engine's). *)
Definition notIterable : JsError :=
  NativeError ClsTypeError "TypeError" "agentExecutions is not iterable".

Section Store.
Variable jsonLength : Stored.Execution -> nat.

(** An action of the store: it may throw before it sets the state, or
    throw what the persistence layer throws after it has set the state. *)
Definition Action : Type :=
  State -> LocalStorage -> Result unit * State * LocalStorage.

Definition addExecution (execution : Execution) : Action :=
  fun s ls =>
    let executions := State.executions s in
    match default (Listed [])
            (lookupAgent executions (Execution.agentId execution)) with
    | Inherited _ =>
        (* [[execution, ...agentExecutions]] throws: nothing is set *)
        (Throw notIterable, s, ls)
    | Listed agentExecutions =>
        let updatedExecutions :=
          take MAX_EXECUTIONS_PER_AGENT (execution :: agentExecutions) in
        let s' :=
          State.mk
            (props_set executions (Execution.agentId execution)
               updatedExecutions)
            (Some execution)
            (inFlight (Execution.status execution)) in
        let '(r, ls') :=
          StorageService.saveExecutions jsonLength
            (Execution.agentId execution) updatedExecutions ls in
        (r, s', ls')
    end.

Definition updateExecution (executionId : string) (updates : ExecutionUpdates)
  : Action :=
  fun s ls =>
    let executions := State.executions s in
    let currentExecution := State.currentExecution s in
    match findExecution executions executionId with
    | None => (Ok tt, s, ls)
    | Some (agentId, found) =>
        if String.eqb agentId "" then (Ok tt, s, ls)   (* [!agentId] *)
        else
          let updatedExecution := mergeExecution found updates in
          (* [executions[agentId]], for a key of the object *)
          let agentExecutions := default [] (props_get executions agentId) in
          let updatedAgentExecutions :=
            (fun e =>
               if String.eqb (Execution.id e) executionId
               then updatedExecution else e) <$> agentExecutions in
          let s' :=
            State.mk
              (props_set executions agentId updatedAgentExecutions)
              (if isCurrent currentExecution executionId
               then Some updatedExecution else currentExecution)
              (if isCurrent currentExecution executionId
               then inFlight (Execution.status updatedExecution)
               else State.isExecuting s) in
          let '(r, ls') :=
            StorageService.saveExecutions jsonLength agentId
              updatedAgentExecutions ls in
          (r, s', ls')
    end.

Definition setCurrentExecution (execution : option Execution) : Action :=
  fun s ls =>
    (Ok tt,
     State.mk (State.executions s) execution
       match execution with
       | Some e => inFlight (Execution.status e)
       | None => false
       end,
     ls).

Definition loadHistory (agentId : string) : Action :=
  fun s ls =>
    let executions := State.executions s in
    match lookupAgent executions agentId with
    | Some _ => (Ok tt, s, ls)    (* a list, or an inherited member *)
    | None =>
        let '(history, ls') :=
          StorageService.loadExecutions jsonLength agentId ls in
        (Ok tt,
         State.mk (props_set executions agentId history)
           (State.currentExecution s) (State.isExecuting s),
         ls')
    end.

Definition clearHistory (agentId : string) : Action :=
  fun s ls =>
    let currentExecution := State.currentExecution s in
    (Ok tt,
     State.mk (props_delete (State.executions s) agentId)
       match currentExecution with
       | Some c =>
           if String.eqb (Execution.agentId c) agentId then None
           else currentExecution
       | None => currentExecution
       end
       (State.isExecuting s),
     StorageService.clearExecutions jsonLength agentId ls).

Definition getExecutionsByAgent (agentId : string) (s : State) : Looked :=
  default (Listed []) (lookupAgent (State.executions s) agentId).

Definition getExecution (executionId : string) (s : State)
  : option Execution :=
  snd <$> findExecution (State.executions s) executionId.

(** The actions of the public interface that change the store. *)
Inductive Call : Type :=
| CallAddExecution (execution : Execution)
| CallUpdateExecution (executionId : string) (updates : ExecutionUpdates)
| CallSetCurrentExecution (execution : option Execution)
| CallLoadHistory (agentId : string)
| CallClearHistory (agentId : string).

Definition perform (c : Call) : Action :=
  match c with
  | CallAddExecution e => addExecution e
  | CallUpdateExecution id u => updateExecution id u
  | CallSetCurrentExecution e => setCurrentExecution e
  | CallLoadHistory a => loadHistory a
  | CallClearHistory a => clearHistory a
  end.

(** A sequence of calls, one after the other; a call that throws leaves the
    state it has set, and the next call starts from it. *)
Fixpoint run (calls : list Call) (s : State) (ls : LocalStorage)
  : State * LocalStorage :=
  match calls with
  | [] => (s, ls)
  | c :: calls' =>
      let '(_, s', ls') := perform c s ls in
      run calls' s' ls'
  end.

End Store.

End ExecutionStore.

(* ================================================================== *)
(** * Part II: properties                                               *)
(* ================================================================== *)

(** ** Objects used as maps *)

Section PropsFacts.
Context {A : Type}.
Implicit Types (o : list (string * A)) (k : string) (v : A).

Lemma props_get_set_eq o k v : props_get (props_set o k v) k = Some v.
Proof.
  induction o as [|[k' v'] o IH]; simpl.
  - by rewrite String.eqb_refl.
  - destruct (String.eqb k' k) eqn:E; simpl; rewrite ?E; [|done].
    by rewrite String.eqb_refl.
Qed.

Lemma props_get_set_ne o k k' v :
  k ≠ k' -> props_get (props_set o k v) k' = props_get o k'.
Proof.
  intros Hne. induction o as [|[k0 v0] o IH]; simpl.
  - destruct (String.eqb_spec k k'); congruence.
  - destruct (String.eqb_spec k0 k) as [->|Hk]; simpl.
    + destruct (String.eqb_spec k k'); congruence.
    + destruct (String.eqb_spec k0 k'); congruence.
Qed.

Lemma props_set_set o k v v' :
  props_set (props_set o k v) k v' = props_set o k v'.
Proof.
  induction o as [|[k0 v0] o IH]; simpl.
  - by rewrite String.eqb_refl.
  - destruct (String.eqb k0 k) eqn:E; simpl; rewrite ?E, ?String.eqb_refl.
    + done.
    + by rewrite IH.
Qed.

Lemma props_set_keys_present o k v :
  is_Some (props_get o k) -> (props_set o k v).*1 = o.*1.
Proof.
  induction o as [|[k0 v0] o IH]; csimpl.
  - by intros [? [=]].
  - destruct (String.eqb_spec k0 k) as [->|Hk]; csimpl; [done|].
    intros Hs. by rewrite IH.
Qed.

Lemma props_set_keys_absent o k v :
  props_get o k = None -> (props_set o k v).*1 = o.*1 ++ [k].
Proof.
  induction o as [|[k0 v0] o IH]; csimpl; [done|].
  destruct (String.eqb_spec k0 k) as [->|Hk]; csimpl; [done|].
  intros Hn. by rewrite IH.
Qed.

Lemma props_get_None_keys o k : props_get o k = None -> k ∉ o.*1.
Proof.
  induction o as [|[k0 v0] o IH]; csimpl.
  - intros _. apply not_elem_of_nil.
  - destruct (String.eqb_spec k0 k) as [->|Hk]; [done|].
    intros Hn. apply not_elem_of_cons. split; [congruence|by apply IH].
Qed.

Lemma props_delete_keys_subset o k k' :
  k' ∈ (props_delete o k).*1 -> k' ∈ o.*1.
Proof.
  induction o as [|[k0 v0] o IH]; csimpl; [done|].
  destruct (String.eqb k0 k); csimpl.
  - intros Hin. right. by apply IH.
  - intros Hin. apply elem_of_cons in Hin as [->|Hin]; [left|].
    right. by apply IH.
Qed.

(** Setting and deleting properties keeps the keys of an object unique. *)
Lemma props_set_NoDup o k v : NoDup o.*1 -> NoDup (props_set o k v).*1.
Proof.
  intros Hnd. destruct (props_get o k) as [v0|] eqn:E.
  - by rewrite props_set_keys_present by eauto.
  - rewrite props_set_keys_absent by done.
    apply NoDup_app. split; [done|]. split; [|apply NoDup_singleton].
    intros k' Hin Hk'. apply list_elem_of_singleton in Hk' as ->.
    by apply (props_get_None_keys o k).
Qed.

Lemma props_delete_NoDup o k : NoDup o.*1 -> NoDup (props_delete o k).*1.
Proof.
  induction o as [|[k0 v0] o IH]; csimpl; [done|].
  intros Hnd. apply NoDup_cons in Hnd as [Hk0 Hnd].
  destruct (String.eqb k0 k); csimpl; [by apply IH|].
  apply NoDup_cons. split; [|by apply IH].
  intros Hin. by apply Hk0, (props_delete_keys_subset o k).
Qed.

End PropsFacts.

(** ** The execution state container *)

Module ExecutionStoreFacts.
Import ExecutionStore.

Section Facts.
Variable jsonLength : Stored.Execution -> nat.

(** The derived flag agrees with the current execution. *)
Definition executingFlagCorrect (s : State) : Prop :=
  State.isExecuting s =
  match State.currentExecution s with
  | Some c => inFlight (Execution.status c)
  | None => false
  end.

(** Whether the list has an execution with the id. *)
Definition hasId (executionId : string) (l : list Execution) : Prop :=
  exists e, e ∈ l /\ Execution.id e = executionId.

Lemma find_id_None executionId (l : list Execution) :
  List.find (fun e => String.eqb (Execution.id e) executionId) l = None <->
  ~ hasId executionId l.
Proof.
  split.
  - intros Hfind (e & He & Hid). apply list_elem_of_In in He.
    pose proof (find_none _ _ Hfind e He) as Hne. simpl in Hne.
    rewrite <- Hid in Hne. by rewrite String.eqb_refl in Hne.
  - intros Hno. destruct (List.find _ l) as [e|] eqn:E; [|done].
    apply find_some in E as [Hin Heq]. apply String.eqb_eq in Heq.
    destruct Hno. exists e. split; [by apply list_elem_of_In|done].
Qed.

Lemma find_id_Some executionId (l : list Execution) e :
  List.find (fun e => String.eqb (Execution.id e) executionId) l = Some e ->
  e ∈ l /\ Execution.id e = executionId.
Proof.
  intros E. apply find_some in E as [Hin Heq].
  split; [by apply list_elem_of_In|by apply String.eqb_eq].
Qed.

Lemma findExecution_None entries executionId :
  findExecution entries executionId = None <->
  forall a l, (a, l) ∈ entries -> ~ hasId executionId l.
Proof.
  induction entries as [|[a0 l0] entries IH]; simpl.
  - split; [|done]. intros _ a l Hin. by apply elem_of_nil in Hin.
  - destruct (List.find _ l0) as [e|] eqn:E.
    + split; [done|]. intros Hall. exfalso.
      apply find_id_Some in E as [He Hid].
      apply (Hall a0 l0); [left|]. by exists e.
    + rewrite IH. apply find_id_None in E. split.
      * intros Hall a l Hin. apply elem_of_cons in Hin as [[= -> ->]|Hin];
          [done|by eapply Hall].
      * intros Hall a l Hin. apply (Hall a l). by right.
Qed.

(** The state and the storage an action leaves. *)
Definition stateAfter (r : Result unit * State * LocalStorage) : State :=
  snd (fst r).
Definition storageAfter (r : Result unit * State * LocalStorage)
  : LocalStorage := snd r.

(** The [map] callback of [updateExecution]. *)
Definition replaceById (executionId : string) (updated : Execution)
  : Execution -> Execution :=
  fun e => if String.eqb (Execution.id e) executionId then updated else e.

(** The state [updateExecution] sets; the storage has no part in it. *)
Definition updatedState (executionId : string) (updates : ExecutionUpdates)
    (s : State) : State :=
  match findExecution (State.executions s) executionId with
  | None => s
  | Some (agentId, found) =>
      if String.eqb agentId "" then s
      else
        let updated := mergeExecution found updates in
        State.mk
          (props_set (State.executions s) agentId
             (replaceById executionId updated
                <$> default [] (props_get (State.executions s) agentId)))
          (if isCurrent (State.currentExecution s) executionId
           then Some updated else State.currentExecution s)
          (if isCurrent (State.currentExecution s) executionId
           then inFlight (Execution.status updated) else State.isExecuting s)
  end.

Lemma stateAfter_updateExecution executionId updates s ls :
  stateAfter (updateExecution jsonLength executionId updates s ls)
  = updatedState executionId updates s.
Proof.
  unfold updateExecution, updatedState, stateAfter.
  destruct (findExecution _ _) as [[agentId found]|]; [|done].
  destruct (String.eqb agentId ""); [done|].
  by destruct (StorageService.saveExecutions _ _ _ _).
Qed.

Lemma mergeExecution_idem e u :
  mergeExecution (mergeExecution e u) u = mergeExecution e u.
Proof.
  destruct u as [i a st inp out cr co er]; unfold mergeExecution; simpl.
  by destruct i, a, st, inp, out, cr, co, er.
Qed.

Lemma replaceById_idem executionId updated e :
  replaceById executionId updated (replaceById executionId updated e)
  = replaceById executionId updated e.
Proof.
  unfold replaceById.
  destruct (String.eqb (Execution.id e) executionId) eqn:E; rewrite ?E;
    [|done].
  by destruct (String.eqb (Execution.id updated) executionId).
Qed.

Lemma fmap_replaceById_idem executionId updated (l : list Execution) :
  replaceById executionId updated <$> (replaceById executionId updated <$> l)
  = replaceById executionId updated <$> l.
Proof.
  induction l as [|e l IH]; csimpl; [done|].
  by rewrite replaceById_idem, IH.
Qed.

Lemma replaceById_no_id executionId updated (l : list Execution) :
  ~ hasId executionId l -> replaceById executionId updated <$> l = l.
Proof.
  induction l as [|e l IH]; intros Hno; csimpl; [done|].
  rewrite IH.
  - unfold replaceById.
    destruct (String.eqb_spec (Execution.id e) executionId) as [Heq|]; [|done].
    destruct Hno. exists e. split; [left|done].
  - intros (e' & He' & Hid). apply Hno. exists e'. split; [by right|done].
Qed.

Lemma find_replaceById executionId updated (l : list Execution) found :
  List.find (fun e => String.eqb (Execution.id e) executionId) l = Some found ->
  Execution.id updated = executionId ->
  List.find (fun e => String.eqb (Execution.id e) executionId)
    (replaceById executionId updated <$> l) = Some updated.
Proof.
  intros Hfind Hid. induction l as [|e l IH]; [done|].
  csimpl. simpl in Hfind.
  destruct (String.eqb (Execution.id e) executionId) eqn:E.
  - assert (replaceById executionId updated e = updated) as ->
      by (unfold replaceById; by rewrite E).
    simpl. by rewrite Hid, String.eqb_refl.
  - assert (replaceById executionId updated e = e) as ->
      by (unfold replaceById; by rewrite E).
    simpl. rewrite E. by apply IH.
Qed.

Lemma replaceById_removes_id executionId updated (l : list Execution) :
  Execution.id updated ≠ executionId ->
  ~ hasId executionId (replaceById executionId updated <$> l).
Proof.
  intros Hne (e & He & Hid). apply list_elem_of_fmap in He as (e0 & -> & _).
  unfold replaceById in Hid.
  destruct (String.eqb_spec (Execution.id e0) executionId); congruence.
Qed.

(** After an update that keeps the id, the search ends at the same agent,
    on the updated record or (when an earlier entry of that agent shadows
    the list searched) on the record found before. *)
Lemma findExecution_after_update entries executionId updated agentId found :
  findExecution entries executionId = Some (agentId, found) ->
  Execution.id updated = executionId ->
  exists x,
    findExecution
      (props_set entries agentId
         (replaceById executionId updated
            <$> default [] (props_get entries agentId)))
      executionId = Some (agentId, x)
    /\ (x = updated \/ x = found).
Proof.
  intros Hfind Hid.
  induction entries as [|[a0 l0] entries IH]; simpl in *; [done|].
  destruct (List.find _ l0) as [e|] eqn:E.
  - injection Hfind as -> ->. rewrite String.eqb_refl. simpl.
    rewrite (find_replaceById _ _ _ _ E Hid). eauto.
  - destruct (String.eqb_spec a0 agentId) as [->|Hne]; simpl.
    + apply find_id_None in E as Hno.
      rewrite (replaceById_no_id _ _ _ Hno), E. eauto.
    + rewrite E. by apply IH.
Qed.

Lemma isCurrent_replaced current executionId updated :
  Execution.id updated = executionId ->
  isCurrent (if isCurrent current executionId then Some updated else current)
    executionId = isCurrent current executionId.
Proof.
  intros Hid. destruct (isCurrent current executionId) eqn:E; [|done].
  simpl. by rewrite Hid, String.eqb_refl.
Qed.

(** The update assigns no other id to the record. *)
Definition keepsId (executionId : string) (updates : ExecutionUpdates) : Prop :=
  ExecutionUpdates.id updates = None
  \/ ExecutionUpdates.id updates = Some executionId.

(** The id occurs in the list of one agent at most. *)
Definition idInOneList (entries : list (string * list Execution))
    (executionId : string) : Prop :=
  NoDup entries.*1 /\
  forall a1 l1 a2 l2,
    (a1, l1) ∈ entries -> (a2, l2) ∈ entries ->
    hasId executionId l1 -> hasId executionId l2 -> a1 = a2.

Lemma mergeExecution_keeps_id found updates executionId :
  Execution.id found = executionId -> keepsId executionId updates ->
  Execution.id (mergeExecution found updates) = executionId.
Proof. intros Hid [Hk|Hk]; unfold mergeExecution; simpl; by rewrite Hk. Qed.

Lemma findExecution_Some entries executionId agentId found :
  findExecution entries executionId = Some (agentId, found) ->
  Execution.id found = executionId
  /\ exists l, (agentId, l) ∈ entries /\ found ∈ l.
Proof.
  induction entries as [|[a0 l0] entries IH]; simpl; [done|].
  destruct (List.find _ l0) as [e|] eqn:E.
  - intros [= -> ->]. apply find_id_Some in E as [He Hid].
    split; [done|]. exists l0. split; [left|done].
  - intros Hfind. destruct (IH Hfind) as (Hid & l & Hl & Hin).
    split; [done|]. exists l. split; [by right|done].
Qed.

Lemma elem_of_props_set_NoDup {A} (o : list (string * A)) k v k' v' :
  NoDup o.*1 -> (k', v') ∈ props_set o k v ->
  (k' = k /\ v' = v) \/ (k' ≠ k /\ (k', v') ∈ o).
Proof.
  induction o as [|[k0 v0] o IH]; csimpl; intros Hnd Hin.
  - apply list_elem_of_singleton in Hin as [= -> ->]. by left.
  - apply NoDup_cons in Hnd as [Hk0 Hnd].
    destruct (String.eqb_spec k0 k) as [->|Hne].
    + apply elem_of_cons in Hin as [[= -> ->]|Hin]; [by left|].
      right. split; [|by right].
      intros ->. apply Hk0. apply list_elem_of_fmap. by exists (k, v').
    + apply elem_of_cons in Hin as [[= -> ->]|Hin].
      * right. split; [done|left].
      * destruct (IH Hnd Hin) as [?|[? ?]]; [by left|].
        right. split; [done|by right].
Qed.

Lemma updatedState_idem executionId updates s :
  keepsId executionId updates \/ idInOneList (State.executions s) executionId ->
  updatedState executionId updates (updatedState executionId updates s)
  = updatedState executionId updates s.
Proof.
  intros Hside. unfold updatedState at 2 3.
  destruct (findExecution (State.executions s) executionId)
    as [[agentId found]|] eqn:F.
  2: { unfold updatedState. by rewrite F. }
  destruct (String.eqb agentId "") eqn:Hempty.
  { unfold updatedState. by rewrite F, Hempty. }
  destruct (findExecution_Some _ _ _ _ F) as (Hfound & lf & Hlf & Hin).
  set (updated := mergeExecution found updates).
  set (l := default [] (props_get (State.executions s) agentId)).
  destruct (String.eqb_spec (Execution.id updated) executionId) as [Hid|Hid].
  - destruct (findExecution_after_update _ _ updated _ _ F Hid)
      as (x & Hx & Hcase).
    fold l in Hx. unfold updatedState.
    cbn [State.executions State.currentExecution State.isExecuting].
    rewrite Hx, Hempty.
    assert (mergeExecution x updates = updated) as ->.
    { destruct Hcase as [->| ->]; [apply mergeExecution_idem|done]. }
    rewrite props_get_set_eq.
    cbn [default from_option]. unfold id.
    rewrite fmap_replaceById_idem, props_set_set.
    rewrite (isCurrent_replaced _ _ _ Hid).
    by destruct (isCurrent (State.currentExecution s) executionId).
  - destruct Hside as [Hkeep|[Hnd Hone]].
    { destruct Hid. by apply mergeExecution_keeps_id. }
    unfold updatedState.
    cbn [State.executions State.currentExecution State.isExecuting].
    assert (findExecution
              (props_set (State.executions s) agentId
                 (replaceById executionId updated <$> l)) executionId = None)
      as ->; [|done].
    apply findExecution_None. intros a' l' Hin' Hhas.
    destruct (elem_of_props_set_NoDup _ _ _ _ _ Hnd Hin') as [[-> ->]|[Hne Ho]].
    + by apply (replaceById_removes_id executionId updated l).
    + apply Hne. apply (Hone a' l' agentId lf); [done|done|done|].
      by exists found.
Qed.

(** C9: [updateExecution] applied twice with the same arguments leaves the
    store in the state the first application left, and [getExecution]
    finds the same record, for every record of fields, when the id
    identifies its execution: it occurs in the list of one agent only. The
    same holds wherever the id occurs for the fields that assign no other
    id. *)
Theorem updateExecution_idempotent executionId updates s ls :
  keepsId executionId updates \/ idInOneList (State.executions s) executionId ->
  let once := updateExecution jsonLength executionId updates s ls in
  let twice :=
    updateExecution jsonLength executionId updates
      (stateAfter once) (storageAfter once) in
  stateAfter twice = stateAfter once
  /\ getExecution executionId (stateAfter twice)
     = getExecution executionId (stateAfter once).
Proof.
  intros Hside once twice. subst once twice.
  rewrite !stateAfter_updateExecution.
  by rewrite (updatedState_idem _ _ _ Hside).
Qed.

(** C10: [updateExecution] with an id that no list holds changes neither
    the store (the map of executions, the current execution, the flag) nor
    the storage. *)
Theorem updateExecution_unknown_id_noop executionId updates s ls :
  (forall a l, (a, l) ∈ State.executions s -> ~ hasId executionId l) ->
  updateExecution jsonLength executionId updates s ls = (Ok tt, s, ls).
Proof.
  intros Habsent. unfold updateExecution.
  by rewrite (proj2 (findExecution_None _ _) Habsent).
Qed.

(** The actions other than [clearHistory] keep the flag right. *)
Lemma executingFlagCorrect_preserved c s ls :
  (forall a, c ≠ CallClearHistory a) ->
  executingFlagCorrect s ->
  executingFlagCorrect (stateAfter (perform jsonLength c s ls)).
Proof.
  intros Hc Hs. destruct c as [e|id u|e|a|a]; simpl.
  - unfold addExecution, stateAfter.
    destruct (default _ _) as [l|name]; [|done].
    by destruct (StorageService.saveExecutions _ _ _ _).
  - rewrite stateAfter_updateExecution. unfold updatedState.
    destruct (findExecution _ _) as [[agentId found]|]; [|done].
    destruct (String.eqb agentId ""); [done|].
    unfold executingFlagCorrect in *; simpl.
    by destruct (isCurrent _ _).
  - unfold setCurrentExecution, stateAfter, executingFlagCorrect; simpl.
    by destruct e.
  - unfold loadHistory, stateAfter.
    destruct (lookupAgent _ _); [done|].
    by destruct (StorageService.loadExecutions _ _ _).
  - by destruct (Hc a).
Qed.

(** The keys of [executions] stay unique, whatever the calls. *)
Lemma keys_unique_preserved c s ls :
  NoDup (State.executions s).*1 ->
  NoDup (State.executions (stateAfter (perform jsonLength c s ls))).*1.
Proof.
  intros Hnd. destruct c as [e|id u|e|a|a]; simpl.
  - unfold addExecution, stateAfter.
    destruct (default _ _) as [l|name]; [|done].
    destruct (StorageService.saveExecutions _ _ _ _). simpl.
    by apply props_set_NoDup.
  - rewrite stateAfter_updateExecution. unfold updatedState.
    destruct (findExecution _ _) as [[agentId found]|]; [|done].
    destruct (String.eqb agentId ""); [done|]. simpl.
    by apply props_set_NoDup.
  - done.
  - unfold loadHistory, stateAfter.
    destruct (lookupAgent _ _); [done|].
    destruct (StorageService.loadExecutions _ _ _). simpl.
    by apply props_set_NoDup.
  - unfold clearHistory, stateAfter. simpl. by apply props_delete_NoDup.
Qed.

Lemma keys_unique_run calls ls :
  NoDup (State.executions (fst (run jsonLength calls State.initial ls))).*1.
Proof.
  assert (forall s ls, NoDup (State.executions s).*1 ->
            NoDup (State.executions (fst (run jsonLength calls s ls))).*1)
    as Hgen.
  { induction calls as [|c calls IH]; intros s ls' Hnd; simpl; [done|].
    pose proof (keys_unique_preserved c s ls' Hnd) as Hstep.
    destruct (perform jsonLength c s ls') as [[r s'] ls'']. by apply IH. }
  apply Hgen. simpl. apply NoDup_nil_2.
Qed.

(** C8 at the failing sequence: after [addExecution] of a pending execution
    and [clearHistory] of its agent there is no current execution, and the
    flag is still set. *)
Theorem clearHistory_leaves_isExecuting ls :
  let pendingExecution :=
    Execution.mk "e1" "agent-a" Pending
      (ExecutionInput.mk (Some "a red fox") None) None 0 None None in
  let s :=
    fst (run jsonLength
           [CallAddExecution pendingExecution; CallClearHistory "agent-a"]
           State.initial ls) in
  State.currentExecution s = None
  /\ State.isExecuting s = true
  /\ ~ executingFlagCorrect s.
Proof.
  intros pendingExecution s. subst s. unfold run, perform, addExecution.
  change (lookupAgent (State.executions State.initial)
            (Execution.agentId pendingExecution)) with (@None Looked).
  cbn [default from_option].
  destruct (StorageService.saveExecutions _ _ _ _) as [r ls'].
  unfold clearHistory, executingFlagCorrect. simpl. by repeat split.
Qed.

End Facts.

(** *** Concrete stores *)

Definition demoExecution (id agentId : string) (status : ExecutionStatus)
  : Execution :=
  Execution.mk id agentId status (ExecutionInput.mk (Some "a red fox") None)
    None 0 None None.

Definition demoJsonLength : Stored.Execution -> nat := fun _ => 100.

Definition demoStorage : LocalStorage :=
  StorageService.LocalStorage.mk true 5000 ∅.

(** Two agents whose lists hold an execution of the same id. *)
Definition sharedIdState : State :=
  State.mk
    [("agent-a", [demoExecution "x" "agent-a" Pending]);
     ("agent-b", [demoExecution "x" "agent-b" Pending])]
    None false.

Definition renameTo (id : string) : ExecutionUpdates :=
  ExecutionUpdates.mk (Some id) None None None None None None None.

Definition markCompleted : ExecutionUpdates :=
  ExecutionUpdates.mk None None (Some Completed) None None None
    (Some (Some 1000%Z)) None.

(** Two agents, each execution with an id of its own. *)
Definition ownIdState : State :=
  State.mk
    [("agent-a", [demoExecution "x" "agent-a" Pending;
                  demoExecution "w" "agent-a" Completed]);
     ("agent-b", [demoExecution "z" "agent-b" Pending])]
    None false.

Lemma updateExecution_idempotent_witness :
  let once :=
    updateExecution demoJsonLength "x" (renameTo "y") ownIdState
      demoStorage in
  let twice :=
    updateExecution demoJsonLength "x" (renameTo "y")
      (stateAfter once) (storageAfter once) in
  idInOneList (State.executions ownIdState) "x"
  /\ is_Some (getExecution "x" ownIdState)
  /\ stateAfter twice = stateAfter once.
Proof.
  intros once twice.
  assert (idInOneList (State.executions ownIdState) "x") as Hone.
  { split.
    - simpl. apply NoDup_cons_2; [|apply NoDup_singleton].
      by intros [=]%list_elem_of_singleton.
    - intros a1 l1 a2 l2 H1 H2 [e1 [Hin1 Hid1]] [e2 [Hin2 Hid2]].
      simpl in H1, H2.
      apply elem_of_cons in H1 as [[= -> ->]|H1];
        [|apply list_elem_of_singleton in H1 as [= -> ->];
          apply list_elem_of_singleton in Hin1 as ->; discriminate Hid1].
      apply elem_of_cons in H2 as [[= -> ->]|H2]; [done|].
      apply list_elem_of_singleton in H2 as [= -> ->].
      apply list_elem_of_singleton in Hin2 as ->. discriminate Hid2. }
  split; [exact Hone|]. split; [by eexists|].
  exact (proj1 (updateExecution_idempotent demoJsonLength "x" (renameTo "y")
                  ownIdState demoStorage (or_intror Hone))).
Defined.

Lemma updateExecution_unknown_id_noop_witness :
  (forall a l, (a, l) ∈ State.executions sharedIdState -> ~ hasId "nope" l)
  /\ updateExecution demoJsonLength "nope" markCompleted sharedIdState
       demoStorage
     = (Ok tt, sharedIdState, demoStorage).
Proof.
  assert (forall a l,
            (a, l) ∈ State.executions sharedIdState -> ~ hasId "nope" l)
    as Habsent by (by apply findExecution_None).
  split; [exact Habsent|].
  exact (updateExecution_unknown_id_noop demoJsonLength "nope" markCompleted
           sharedIdState demoStorage Habsent).
Defined.

End ExecutionStoreFacts.

(** ** The retry policy *)

Module ErrorsFacts.
Import Errors.

(** A failure the default policy retries. *)
Definition retryable (e : JsError) : bool :=
  isRetryableError (parseError e) defaultRetryableErrors.


(** The retryable failures are the errors of the taxonomy whose code is
    [NETWORK_ERROR] or [WEBHOOK_ERROR]. *)
Lemma retryable_spec e :
  retryable e = true <->
  isExecutionBaseError e = true
  /\ (errorCode e = Some "NETWORK_ERROR" \/ errorCode e = Some "WEBHOOK_ERROR").
Proof.
  unfold retryable, parseError, isRetryableError, defaultRetryableErrors.
  destruct (isExecutionBaseError e) eqn:Hbase.
  - destruct e; try discriminate Hbase; simpl;
      rewrite ?orb_false_r; try (split; [discriminate|intros [_ [?|?]]; discriminate]);
      try (split; [auto|done]).
    rewrite orb_true_iff, !String.eqb_eq. split.
    + intros [<-|<-]; auto.
    + intros [_ [[= ->]|[= ->]]]; auto.
  - split; [|by intros [? _]].
    destruct (isErrorInstance e); [discriminate|].
    destruct e as [| | | | | | | | | | | |v|r]; try discriminate;
      try destruct v; discriminate.
Qed.

(** One turn of the loop. *)
Lemma retryLoop_step {W T : Type} (st : Z -> W -> W) remaining
    (fn : W -> Result T * W) maxAttempts mult errs attempt delay lastError
    (w : W) :
  retryLoop st (S remaining) fn maxAttempts mult errs attempt delay
    lastError w
  = match fst (fn w) return Result T * W with
    | Ok v => (Ok v, snd (fn w))
    | Throw error =>
        if negb (isRetryableError (parseError error) errs) then
          (Throw error, snd (fn w))
        else if Qeq_bool (inject_Z attempt) maxAttempts then
          (Throw error, snd (fn w))
        else
          retryLoop st remaining fn maxAttempts mult errs (attempt + 1)%Z
            (delay * mult)%Z (Some (parseError error))
            (st delay (snd (fn w)))
    end.
Proof. simpl. by destruct (fn w) as [[v|e] w1]. Qed.

Section Logged.
Context {W T : Type}.
Variable setTimeout : Z -> W -> W.

(** What the retry loop does, in order: the attempts with their outcomes
    and the delays it waits for. *)
Inductive RetryEvent : Type :=
| Attempted (outcome : Result T)
| Waited (ms : Z).

(** The world with a log of the loop's events; the timer and the operation
    record themselves in it. *)
Definition loggedTimeout (ms : Z) (wl : W * list RetryEvent)
  : W * list RetryEvent :=
  (setTimeout ms (fst wl), snd wl ++ [Waited ms]).

Definition loggedOperation (fn : Operation (W := W) (T := T))
  : Operation (W := W * list RetryEvent) (T := T) :=
  fun wl =>
    let '(r, w') := fn (fst wl) in
    (r, (w', snd wl ++ [Attempted r])).

Lemma loggedOperation_eq fn w log :
  loggedOperation fn (w, log)
  = (fst (fn w), (snd (fn w), log ++ [Attempted (fst (fn w))])).
Proof. unfold loggedOperation. simpl. by destruct (fn w). Qed.

(** The log changes nothing: without it the loop gives the same result in
    the same world. *)
Lemma retryLoop_logged remaining fn maxAttempts mult errs attempt delay
    lastError w log :
  let logged :=
    retryLoop loggedTimeout remaining (loggedOperation fn) maxAttempts mult
      errs attempt delay lastError (w, log) in
  (fst logged, fst (snd logged))
  = retryLoop setTimeout remaining fn maxAttempts mult errs attempt delay
      lastError w.
Proof.
  revert attempt delay lastError w log.
  induction remaining as [|remaining IH];
    intros attempt delay lastError w log logged; subst logged; simpl;
    [done|].
  rewrite (loggedOperation_eq fn w log).
  destruct (fn w) as [[v|e] w1]; simpl; [done|].
  destruct (isRetryableError _ _); simpl; [|done].
  destruct (Qeq_bool _ _); [done|].
  apply IH.
Qed.


End Logged.

End ErrorsFacts.

(** ** A concrete platform *)

Module Demo.

Definition okResponse (body : JsValue) : Response :=
  Response.mk 200 (Ok "") (Ok body).

Definition failedResponse (status : Z) (text : string) : Response :=
  Response.mk status (Ok text)
    (Throw (NativeError ClsSyntaxError "SyntaxError" "Unexpected token")).

(** What [fetch] rejects with when the connection is refused. *)
Definition connectionRefused : JsError :=
  NativeError ClsTypeError "TypeError" "Failed to fetch".

(** What reading a body rejects with when the connection is lost. *)
Definition connectionLost : JsError :=
  NativeError ClsTypeError "TypeError" "network error".

(** A response whose status has arrived and whose body never does. *)
Definition cutResponse (status : Z) : Response :=
  Response.mk status (Throw connectionLost) (Throw connectionLost).

(** A network that answers by the path requested. *)
Definition demoNetwork (history : list Effect) (url : string)
    (body : option string) : FetchOutcome :=
  if String.eqb url "/api/webhook/down" then
    FetchResolved (failedResponse 503 "Service Unavailable")
  else if String.eqb url "/api/webhook/missing" then
    FetchResolved (failedResponse 404 "Not Found")
  else if String.eqb url "/api/webhook/teapot" then
    FetchResolved (failedResponse 418 "I'm a teapot")
  else if String.eqb url "/api/webhook/refused" then
    FetchRejected connectionRefused
  else if String.eqb url "/api/webhook/cut" then
    FetchResolved (cutResponse 404)
  else
    FetchResolved (okResponse (JsObject [("status", JsString "accepted")])).

#[export] Instance demoPlatform : Platform := {|
  URL_pathname := fun s =>
    if startsWith s "http://localhost:5678"
    then Some (dropChars 21 s) else None;
  JSON_stringify := fun v =>
    match v with JsUndefined => None | _ => Some "{}" end;
  JSON_parse := fun _ =>
    Throw (NativeError ClsSyntaxError "SyntaxError" "Unexpected token");
  URL_createObjectURL := fun _ => "blob:demo";
  ToString := fun _ => "[object Object]";
  network := demoNetwork;
  network_time := fun _ _ _ => 120%Z;
  uuid_source := fun history => "uuid-" +:+ pretty (length history);
|}.

Definition demoClient : WebhookClient :=
  WebhookClient.mk "http://localhost:5678" true.

Definition demoWorld : World :=
  World.mk 1700000000000 [] RegistryState.initial [].

Definition demoInput : ExecutionInput :=
  ExecutionInput.mk (Some "a red fox") None.

End Demo.

(** ** The transport client *)

Module WebhookClientFacts.
Import WebhookClient.

Section Facts.
Context `{Platform}.

(** What the network answers to the request of [triggerWorkflow] in the
    world [w]. *)
Definition answer (client : WebhookClient) (webhookPath : string)
    (payload : JsValue) (w : World) : FetchOutcome :=
  network (World.history w) (requestUrl client webhookPath)
    (JSON_stringify payload).

(** A failure of the connection, as [fetch] reports it: a [TypeError], or
    an [Error] named [FetchError]. *)
Definition connectionFailure (cause : JsError) : Prop :=
  isErrorInstance cause = true
  /\ (isTypeError cause = true \/ errorName cause = "FetchError").

Lemma connectionFailure_not_ours cause :
  connectionFailure cause ->
  isWebhookError cause || isNetworkError cause = false.
Proof.
  intros [_ [Hty|Hname]]; destruct cause; try done; discriminate.
Qed.

(** C5, as amended: how [triggerWorkflow] classifies a response that is
    not 2xx and whose body has been read, and a connection that fails,
    before any response or while the body of the response is read. *)
Theorem triggerWorkflow_failure_classification client webhookPath payload w :
  let thrown := fst (triggerWorkflow client webhookPath payload w) in
  (forall response body,
     answer client webhookPath payload w = FetchResolved response ->
     Response.ok response = false ->
     Response.text response = Ok body ->
     let status := Response.status response in
     (status = 502%Z \/ status = 503%Z ->
      thrown = Throw (NetworkError msgUnavailable None))
     /\ (status = 404%Z ->
         thrown = Throw (WebhookError 404 msgNotFound)
         /\ forall m o, thrown ≠ Throw (NetworkError m o))
     /\ (status ≠ 502%Z -> status ≠ 503%Z -> status ≠ 404%Z ->
         thrown = Throw (WebhookError status body)))
  /\ (forall cause,
        answer client webhookPath payload w = FetchRejected cause ->
        connectionFailure cause ->
        thrown = Throw (NetworkError msgUnableToConnect (Some cause)))
  /\ (forall response cause,
        answer client webhookPath payload w = FetchResolved response ->
        Response.ok response = false ->
        Response.text response = Throw cause ->
        connectionFailure cause ->
        thrown = Throw (NetworkError msgUnableToConnect (Some cause))).
Proof.
  intros thrown. subst thrown.
  assert (forall cause,
            connectionFailure cause ->
            (if isWebhookError cause || isNetworkError cause
             then throw (A := JsValue) cause
             else if isTypeError cause then
               throw (NetworkError msgUnableToConnect
                        (if isErrorInstance cause then Some cause else None))
             else if isNullishThrown cause then
               throw (cannotReadName (thrownValue cause))
             else if String.eqb (errorName cause) "FetchError" then
               throw (NetworkError msgUnableToConnect
                        (if isErrorInstance cause then Some cause else None))
             else
               throw (WebhookError 500
                        ("Unexpected error: " +:+ errorToString cause)))
            = throw (NetworkError msgUnableToConnect (Some cause)))
    as Hhandler.
  { intros cause Hcause. rewrite (connectionFailure_not_ours _ Hcause).
    destruct Hcause as [Hinst [Hty|Hname]]; rewrite Hinst.
    - by rewrite Hty.
    - rewrite Hname. destruct (isTypeError cause); [done|].
      by destruct cause. }
  unfold answer, triggerWorkflow, tryCatch, bind, fetch, liftResult.
  split; [|split].
  - intros response body Hanswer Hok Htext. rewrite Hanswer. cbn beta iota.
    rewrite Hok, Htext. cbn [negb]. unfold throw. split; [|split].
    + intros [E|E]; rewrite E; reflexivity.
    + intros E. rewrite E. split; [reflexivity|]. intros m o. discriminate.
    + intros H502 H503 H404.
      apply Z.eqb_neq in H502, H503, H404. by rewrite H502, H503, H404.
  - intros cause Hanswer Hcause. rewrite Hanswer. cbn beta iota.
    by rewrite (Hhandler cause Hcause).
  - intros response cause Hanswer Hok Htext Hcause. rewrite Hanswer.
    cbn beta iota. rewrite Hok, Htext. cbn [negb].
    by rewrite (Hhandler cause Hcause).
Qed.

(** The codes of the errors of the classification. *)
Lemma classification_codes status body cause :
  errorCode (NetworkError msgUnavailable None) = Some "NETWORK_ERROR"
  /\ errorCode (WebhookError status body) = Some "WEBHOOK_ERROR"
  /\ errorCode (NetworkError msgUnableToConnect (Some cause))
     = Some "NETWORK_ERROR".
Proof. done. Qed.

(** Where the texts are: a [NetworkError] has its text in [message]; a
    [WebhookError] has it in [responseBody] (and so in [details]), its
    [message] being the same for every body. *)
Lemma classification_texts (cause : JsError) :
  errorMessage (NetworkError msgUnavailable None)
  = "Network error: " +:+ msgUnavailable
  /\ errorMessage (WebhookError 404 msgNotFound)
     = "Webhook request failed with status 404"
  /\ errorDetails (WebhookError 404 msgNotFound)
     = JsObject [("statusCode", JsNumber 404);
                 ("responseBody", JsString msgNotFound)]
  /\ errorDetails (NetworkError msgUnableToConnect (Some cause))
     = JsObject [("originalError", JsString (errorMessage cause))].
Proof. repeat split; vm_compute; reflexivity. Qed.

End Facts.

Import Demo.

(** C5 fails as stated: a response with status 404 whose body cannot be
    read (the connection is lost after the status line) raises a
    [NetworkError], not a [WebhookError]. *)
Lemma triggerWorkflow_404_unread_body :
  answer demoClient "cut" JsNull demoWorld = FetchResolved (cutResponse 404)
  /\ Response.status (cutResponse 404) = 404%Z
  /\ Response.ok (cutResponse 404) = false
  /\ fst (triggerWorkflow demoClient "cut" JsNull demoWorld)
     = Throw (NetworkError msgUnableToConnect (Some connectionLost))
  /\ forall status body,
       fst (triggerWorkflow demoClient "cut" JsNull demoWorld)
       ≠ Throw (WebhookError status body).
Proof.
  split; [reflexivity|]. split; [reflexivity|]. split; [reflexivity|].
  split; [vm_compute; reflexivity|].
  intros status body. vm_compute. discriminate.
Qed.

Lemma triggerWorkflow_failure_classification_witness :
  fst (triggerWorkflow demoClient "down" JsNull demoWorld)
    = Throw (NetworkError msgUnavailable None)
  /\ fst (triggerWorkflow demoClient "missing" JsNull demoWorld)
     = Throw (WebhookError 404 msgNotFound)
  /\ fst (triggerWorkflow demoClient "teapot" JsNull demoWorld)
     = Throw (WebhookError 418 "I'm a teapot")
  /\ fst (triggerWorkflow demoClient "refused" JsNull demoWorld)
     = Throw (NetworkError msgUnableToConnect (Some connectionRefused))
  /\ fst (triggerWorkflow demoClient "cut" JsNull demoWorld)
     = Throw (NetworkError msgUnableToConnect (Some connectionLost)).
Proof.
  split; [|split; [|split; [|split]]].
  - refine (proj1 (proj1 (triggerWorkflow_failure_classification
                            demoClient "down" JsNull demoWorld)
                     (failedResponse 503 "Service Unavailable")
                     "Service Unavailable" _ _ _) _);
      [reflexivity|reflexivity|reflexivity|by right].
  - refine (proj1 (proj1 (proj2 (proj1
              (triggerWorkflow_failure_classification
                 demoClient "missing" JsNull demoWorld)
              (failedResponse 404 "Not Found") "Not Found" _ _ _)) _));
      reflexivity.
  - refine (proj2 (proj2 (proj1
              (triggerWorkflow_failure_classification
                 demoClient "teapot" JsNull demoWorld)
              (failedResponse 418 "I'm a teapot") "I'm a teapot" _ _ _))
              _ _ _);
      [reflexivity|reflexivity|reflexivity
      |discriminate|discriminate|discriminate].
  - refine (proj1 (proj2 (triggerWorkflow_failure_classification
                            demoClient "refused" JsNull demoWorld))
              connectionRefused _ _);
      [reflexivity|split; [reflexivity|by left]].
  - refine (proj2 (proj2 (triggerWorkflow_failure_classification
                            demoClient "cut" JsNull demoWorld))
              (cutResponse 404) connectionLost _ _ _ _);
      [reflexivity|reflexivity|reflexivity|split; [reflexivity|by left]].
Defined.

End WebhookClientFacts.

(** ** The orchestrator *)

Module ExecutionServiceFacts.
Import ExecutionService.

(** *** The polling procedure *)

(** With no data in the initial response and a positive maximum wait, the
    procedure waits once and answers [processing]: the loop body returns on
    its first turn, whatever the number of turns allowed. *)
Lemma pollForResult_no_data fuel executionId maxTime interval response w :
  truthy (prop response "data") = false ->
  (0 < maxTime)%Z ->
  pollForResult (S fuel) executionId maxTime interval response w
  = (Ok (Some (PollResult.mk Processing
                 (Some (inProgressOutput executionId)) None)),
     setTimeout interval w).
Proof.
  intros Hdata Hmax. unfold pollForResult, bind, Date_now. simpl.
  rewrite Hdata. unfold bind, ret. simpl.
  assert ((World.now w - World.now w <? maxTime)%Z = true) as ->
    by (apply Z.ltb_lt; lia).
  reflexivity.
Qed.

(** Only a maximum wait that is not positive makes it report the timeout,
    and then at once. *)
Lemma pollForResult_timeout fuel executionId maxTime interval response w :
  truthy (prop response "data") = false ->
  (maxTime <= 0)%Z ->
  pollForResult (S fuel) executionId maxTime interval response w
  = (Ok (Some (PollResult.mk Failed None
                 (Some (mkExecutionError "EXECUTION_TIMEOUT"
                          ("Execution timed out after " +:+ pretty maxTime
                           +:+ "ms") None)))),
     w).
Proof.
  intros Hdata Hmax. unfold pollForResult, bind, Date_now. simpl.
  rewrite Hdata. unfold bind, ret. simpl.
  assert ((World.now w - World.now w <? maxTime)%Z = false) as ->
    by (apply Z.ltb_ge; lia).
  reflexivity.
Qed.

(** C1 at the failing call: polling for at most 300000 ms every 5000 ms
    after a response without data. The procedure returns [processing] after
    a single wait of 5000 ms; its only effect is that timer, so no status
    source has been asked, and the maximum wait has not elapsed. *)
Theorem pollForResult_returns_processing_after_one_wait fuel w :
  let response := JsObject [("status", JsString "processing")] in
  let run := pollForResult (S fuel) "exec-1" 300000 5000 response w in
  fst run
  = Ok (Some (PollResult.mk Processing (Some (inProgressOutput "exec-1"))
                None))
  /\ World.history (snd run) = World.history w ++ [EffTimer 5000]
  /\ World.now (snd run) = (World.now w + 5000)%Z
  /\ (World.now (snd run) - World.now w < 300000)%Z.
Proof.
  intros response run. subst run.
  rewrite pollForResult_no_data by (reflexivity || lia).
  simpl. repeat split. lia.
Qed.

Section Facts.
Context `{Platform}.
Variable agentList : list AgentConfig.

(** *** The registry *)

(** The registry holds agents of the list only, under their ids. *)
Definition registryFromList (w : World) : Prop :=
  forall id a,
    RegistryState.agents (World.registry w) !! id = Some a ->
    a ∈ agentList /\ AgentConfig.id a = id.

(** No agent of the list has the id. *)
Definition absent (agentId : string) : Prop :=
  forall a, a ∈ agentList -> AgentConfig.id a ≠ agentId.

(** Every agent of the list passes [validateAgent]. *)
Definition allValid : Prop :=
  forall a, a ∈ agentList -> AgentRegistry.validateAgent a = None.

Lemma registerAll_lookup todo agents id a :
  snd (AgentRegistry.registerAll todo agents) !! id = Some a ->
  agents !! id = Some a \/ (a ∈ todo /\ AgentConfig.id a = id).
Proof.
  revert agents. induction todo as [|b todo IH]; intros agents; simpl.
  - by left.
  - destruct (AgentRegistry.validateAgent b); simpl; [by left|].
    intros Hlook. destruct (IH _ Hlook) as [Hin|[Hin Hid]].
    + destruct (decide (AgentConfig.id b = id)) as [Heq|Hne].
      * rewrite Heq, lookup_insert_eq in Hin. injection Hin as <-.
        right. split; [left|done].
      * rewrite lookup_insert_ne in Hin by done. by left.
    + right. split; [by right|done].
Qed.

Lemma registerAll_valid todo agents :
  (forall a, a ∈ todo -> AgentRegistry.validateAgent a = None) ->
  fst (AgentRegistry.registerAll todo agents) = Ok tt.
Proof.
  revert agents. induction todo as [|b todo IH]; intros agents Hvalid; simpl.
  - done.
  - rewrite (Hvalid b) by left. apply IH. intros a Ha. apply Hvalid. by right.
Qed.

(** [initialize] touches the registry only, and keeps it within the list. *)
Lemma initialize_frame w :
  let w' := snd (AgentRegistry.initialize agentList w) in
  World.now w' = World.now w
  /\ World.history w' = World.history w
  /\ World.heap w' = World.heap w
  /\ (registryFromList w -> registryFromList w').
Proof.
  unfold AgentRegistry.initialize.
  destruct (RegistryState.initialized (World.registry w)); [done|].
  assert (registryFromList w ->
          forall k a,
            snd (AgentRegistry.registerAll agentList
                   (RegistryState.agents (World.registry w))) !! k = Some a ->
            a ∈ agentList /\ AgentConfig.id a = k) as Hkeep.
  { intros Hreg k a Hlook.
    destruct (registerAll_lookup _ _ _ _ Hlook) as [Hold|Hnew];
      [by apply Hreg|done]. }
  destruct (AgentRegistry.registerAll agentList _) as [[[]|e] agents];
    simpl in *; (split; [done|split; [done|split; [done|]]]);
    intros Hreg k a Hlook; by apply Hkeep.
Qed.

Lemma initialize_valid w :
  allValid \/ RegistryState.initialized (World.registry w) = true ->
  fst (AgentRegistry.initialize agentList w) = Ok tt.
Proof.
  intros Hcase. unfold AgentRegistry.initialize.
  destruct (RegistryState.initialized (World.registry w)); [done|].
  destruct Hcase as [Hvalid|?]; [|done].
  pose proof (registerAll_valid agentList
                (RegistryState.agents (World.registry w)) Hvalid) as Hok.
  by destruct (AgentRegistry.registerAll agentList _) as [[[]|e] agents].
Qed.

Lemma validateAgent_error a e :
  AgentRegistry.validateAgent a = Some e ->
  exists msg aid, e = AgentValidationError msg aid.
Proof.
  unfold AgentRegistry.validateAgent.
  repeat match goal with
         | |- context [if ?b then _ else _] => destruct b
         | |- context [match ?o with Some _ => _ | None => _ end] =>
             destruct o
         | |- Some _ = Some _ -> _ => intros [= <-]; eauto
         | |- None = Some _ -> _ => discriminate
         end.
Qed.

Lemma registerAll_error todo agents e :
  fst (AgentRegistry.registerAll todo agents) = Throw e ->
  exists msg aid, e = AgentValidationError msg aid.
Proof.
  revert agents. induction todo as [|b todo IH]; intros agents; simpl.
  - discriminate.
  - destruct (AgentRegistry.validateAgent b) as [e'|] eqn:E; simpl.
    + intros [= <-]. by eapply validateAgent_error.
    + apply IH.
Qed.

Lemma initialize_error w e :
  fst (AgentRegistry.initialize agentList w) = Throw e ->
  exists msg aid, e = AgentValidationError msg aid.
Proof.
  unfold AgentRegistry.initialize.
  destruct (RegistryState.initialized (World.registry w)); [discriminate|].
  pose proof (registerAll_error agentList
                (RegistryState.agents (World.registry w))) as Herr.
  destruct (AgentRegistry.registerAll agentList _) as [[[]|e'] agents];
    simpl in *; [discriminate|].
  intros [= <-]. by apply Herr.
Qed.

(** The lookup of an agent touches the registry only. *)
Lemma getAgentOrThrow_frame agentId w :
  let w' := snd (AgentRegistry.getAgentOrThrow agentList agentId w) in
  World.now w' = World.now w
  /\ World.history w' = World.history w
  /\ World.heap w' = World.heap w.
Proof.
  pose proof (initialize_frame w) as (Hnow & Hhist & Hheap & _).
  unfold AgentRegistry.getAgentOrThrow, AgentRegistry.getAgent, bind, get,
    ret, throw.
  destruct (AgentRegistry.initialize agentList w) as [[[]|e] w1];
    simpl in *; [|done].
  by destruct (RegistryState.agents (World.registry w1) !! agentId).
Qed.

(** The lookup of an id that no agent of the list has. *)
Lemma getAgentOrThrow_absent agentId w :
  absent agentId -> registryFromList w ->
  let r := fst (AgentRegistry.getAgentOrThrow agentList agentId w) in
  (exists msg aid, r = Throw (AgentValidationError msg aid))
  /\ (allValid ->
      r = Throw (AgentValidationError ("Agent not found: " +:+ agentId) None)).
Proof.
  intros Habsent Hreg.
  pose proof (initialize_frame w) as (_ & _ & _ & Hkeep).
  pose proof (initialize_error w) as Herr.
  pose proof (initialize_valid w) as Hvalid.
  unfold AgentRegistry.getAgentOrThrow, AgentRegistry.getAgent, bind, get,
    ret, throw.
  destruct (AgentRegistry.initialize agentList w) as [[[]|e] w1];
    simpl in *.
  - destruct (RegistryState.agents (World.registry w1) !! agentId)
      as [a|] eqn:E; simpl.
    + destruct (Hkeep Hreg _ _ E) as [Hin Hid]. by destruct (Habsent a Hin).
    + split; [eauto|done].
  - split.
    + destruct (Herr e eq_refl) as (msg & aid & ->). eauto.
    + intros Hall. by specialize (Hvalid (or_introl Hall)).
Qed.

Lemma executeAgent_lookup_fails client fuel agentId input w e w1 :
  AgentRegistry.getAgentOrThrow agentList agentId w = (Throw e, w1) ->
  executeAgent agentList client fuel agentId input w = (Throw e, w1).
Proof. intros E. unfold executeAgent. unfold bind at 1. by rewrite E. Qed.

(** C3, as amended: for an id that no agent of the list has,
    [executeAgent] throws the [AgentValidationError] of the registry (with
    the message "Agent not found: ..." when the agents of the list are
    valid), allocates no [Execution], draws no id and sends no request. *)
Theorem executeAgent_unknown_agent client fuel agentId input w :
  absent agentId -> registryFromList w ->
  let run := executeAgent agentList client fuel agentId input w in
  (exists msg aid, fst run = Throw (AgentValidationError msg aid))
  /\ (allValid ->
      fst run
      = Throw (AgentValidationError ("Agent not found: " +:+ agentId) None))
  /\ World.heap (snd run) = World.heap w
  /\ World.history (snd run) = World.history w.
Proof.
  intros Habsent Hreg run. subst run.
  pose proof (getAgentOrThrow_absent agentId w Habsent Hreg) as [Hsome Hexact].
  pose proof (getAgentOrThrow_frame agentId w) as (_ & Hhist & Hheap).
  destruct (AgentRegistry.getAgentOrThrow agentList agentId w)
    as [[agent|e] w1] eqn:E; simpl in *.
  - destruct Hsome as (? & ? & [=]).
  - rewrite (executeAgent_lookup_fails _ _ _ _ _ _ _ E). simpl.
    split; [|split; [|split; assumption]].
    + destruct Hsome as (msg & aid & [= ->]). eauto.
    + intros Hall. by injection (Hexact Hall) as ->.
Qed.

(** *** The heap of executions *)

Lemma lookup_last {A} (h : list A) (e : A) : (h ++ [e]) !! length h = Some e.
Proof. by apply list_lookup_middle. Qed.

Lemma alter_last {A} (f : A -> A) (h : list A) (e : A) :
  alter f (length h) (h ++ [e]) = h ++ [f e].
Proof. induction h as [|x h IH]; csimpl; [done|]. by rewrite IH. Qed.

(** A 2xx response whose body is JSON is what [triggerWorkflow] returns. *)
Lemma triggerWorkflow_ok client webhookPath payload w response body :
  network (World.history w) (WebhookClient.requestUrl client webhookPath)
    (JSON_stringify payload) = FetchResolved response ->
  Response.ok response = true ->
  Response.json response = Ok body ->
  WebhookClient.triggerWorkflow client webhookPath payload w
  = (Ok body,
     requested (WebhookClient.requestUrl client webhookPath)
       (JSON_stringify payload) w).
Proof.
  intros Hnet Hok Hjson.
  unfold WebhookClient.triggerWorkflow, tryCatch, bind, fetch, liftResult.
  by rewrite Hnet, Hok, Hjson.
Qed.

(** C2, as amended: when the agent has no polling time and the response
    has no data, [executeAgent] returns the execution as completed, with the
    fixed sample output, and [completedAt] set (to the time the response
    arrived). *)
Theorem executeAgent_assumes_success client fuel agentId input w agent w1
    response body :
  let sent := World.history w ++ [EffUuid (uuid_source (World.history w))] in
  let url := WebhookClient.requestUrl client (webhookPathOf agent) in
  let payload := JSON_stringify (formatPayload agent input) in
  AgentRegistry.getAgentOrThrow agentList agentId w = (Ok agent, w1) ->
  pollingTime agent = None ->
  network sent url payload = FetchResolved response ->
  Response.ok response = true ->
  Response.json response = Ok body ->
  truthy body && truthy (prop body "data") = false ->
  fst (executeAgent agentList client fuel agentId input w)
  = Ok (Some (Execution.mk (uuid_source (World.history w)) agentId Completed
                input (Some assumedOutput) (World.now w)
                (Some (World.now w + Z.max 0 (network_time sent url payload))%Z)
                None)).
Proof.
  intros sent url payload Hagent Hpoll Hnet Hok Hjson Hdata.
  subst sent url payload.
  pose proof (getAgentOrThrow_frame agentId w) as (Hnow & Hhist & Hheap).
  rewrite Hagent in Hnow, Hhist, Hheap. simpl in Hnow, Hhist, Hheap.
  destruct w1 as [now1 hist1 reg1 heap1]. simpl in Hnow, Hhist, Hheap.
  subst now1 hist1 heap1.
  unfold executeAgent. unfold bind at 1. rewrite Hagent.
  unfold createExecution, bind, uuidv4, Date_now, alloc, read, tryCatch.
  cbn [World.heap World.set_heap World.history record World.set_history
       World.now World.registry].
  rewrite lookup_last.
  erewrite triggerWorkflow_ok; [|exact Hnet|exact Hok|exact Hjson].
  unfold update, modify, ret, requested, record, elapsed.
  cbn [World.heap World.set_heap World.history World.set_history World.now
       World.set_now World.registry fst snd].
  rewrite Hdata, Hpoll.
  cbn [World.heap World.set_heap World.history World.set_history World.now
       World.set_now World.registry fst snd].
  rewrite !alter_last, lookup_last.
  reflexivity.
Qed.

(** A world that has just started has an empty registry. *)
Lemma registryFromList_initial now history heap :
  registryFromList (World.mk now history RegistryState.initial heap).
Proof. intros id a Hlook. simpl in Hlook. by rewrite lookup_empty in Hlook. Qed.

End Facts.

(** *** Concrete calls *)

Import Demo.

(** An agent like the one of the repository, without settings. *)
Definition agentWithoutPolling : AgentConfig :=
  AgentConfig.mk
    "veo3-no-polling"
    "VEO3 Video Generator"
    "Generate high-quality videos from text prompts"
    "Video"
    "/api/webhook/veo3-video-generate"
    (Some CatVideo)
    Active
    (InputSchema.mk InputText None None)
    (OutputSchema.mk OutVideo (Some "mp4"))
    None.

(** C2 fails as stated: the agent has no polling configured, the response
    ([{ status: "accepted" }]) has no data, and the execution returned is
    completed, with the sample video as its output. *)
Lemma executeAgent_fabricates_completed :
  pollingTime agentWithoutPolling = None
  /\ exists e,
       fst (executeAgent [agentWithoutPolling] demoClient 1 "veo3-no-polling"
              demoInput demoWorld) = Ok (Some e)
       /\ Execution.status e = Completed
       /\ Execution.status e ≠ Processing
       /\ Execution.output e = Some assumedOutput.
Proof.
  split; [reflexivity|].
  eexists. split; [vm_compute; reflexivity|].
  simpl. by repeat split.
Qed.

Lemma executeAgent_assumes_success_witness :
  fst (executeAgent [agentWithoutPolling] demoClient 1 "veo3-no-polling"
         demoInput demoWorld)
  = Ok (Some (Execution.mk "uuid-0" "veo3-no-polling" Completed demoInput
                (Some assumedOutput) 1700000000000 (Some 1700000000120%Z)
                None)).
Proof.
  refine (executeAgent_assumes_success [agentWithoutPolling] demoClient 1
            "veo3-no-polling" demoInput demoWorld agentWithoutPolling
            (snd (AgentRegistry.getAgentOrThrow [agentWithoutPolling]
                    "veo3-no-polling" demoWorld))
            (okResponse (JsObject [("status", JsString "accepted")]))
            (JsObject [("status", JsString "accepted")])
            _ _ _ _ _ _);
    vm_compute; reflexivity.
Defined.

(** C3 fails as stated: the lookup of ["missing-agent"] among the agents of
    the repository throws an error that is no [AgentNotFoundError] and has
    no code [AGENT_NOT_FOUND], before or after [parseError]. *)
Lemma executeAgent_missing_agent_error :
  absent AgentRegistry.AGENTS "missing-agent"
  /\ exists e,
       fst (executeAgent AgentRegistry.AGENTS demoClient 1 "missing-agent"
              demoInput demoWorld) = Throw e
       /\ e ≠ AgentNotFoundError "missing-agent"
       /\ errorCode e ≠ Some "AGENT_NOT_FOUND"
       /\ code (Errors.parseError e) = "UNKNOWN_ERROR".
Proof.
  split.
  - intros a Ha. apply list_elem_of_singleton in Ha as ->. discriminate.
  - eexists. split; [vm_compute; reflexivity|].
    split; [discriminate|]. split; [discriminate|reflexivity].
Qed.

Lemma executeAgent_unknown_agent_witness :
  let run :=
    executeAgent AgentRegistry.AGENTS demoClient 1 "missing-agent" demoInput
      demoWorld in
  fst run = Throw (AgentValidationError "Agent not found: missing-agent" None)
  /\ World.heap (snd run) = []
  /\ World.history (snd run) = [].
Proof.
  assert (absent AgentRegistry.AGENTS "missing-agent") as Habsent.
  { intros a Ha. apply list_elem_of_singleton in Ha as ->. discriminate. }
  assert (allValid AgentRegistry.AGENTS) as Hvalid.
  { intros a Ha. apply list_elem_of_singleton in Ha as ->. reflexivity. }
  pose proof (executeAgent_unknown_agent AgentRegistry.AGENTS demoClient 1
                "missing-agent" demoInput demoWorld Habsent
                (registryFromList_initial AgentRegistry.AGENTS _ _ _))
    as (_ & Hexact & Hheap & Hhist).
  exact (conj (Hexact Hvalid) (conj Hheap Hhist)).
Defined.

End ExecutionServiceFacts.

(** ** Executions as JSON texts *)

Module JsonFacts.

(** A text parsed and written again is the same text. *)
Lemma toJson_fromJson j : toJson (fromJson j) = Some j.
Proof.
  revert j. fix IH 1. intros [|b|n|s|elems|props]; simpl; try done.
  - do 2 f_equal. induction elems as [|x elems IHl]; simpl; [done|].
    by rewrite (IH x), IHl.
  - do 2 f_equal. induction props as [|[k x] props IHl]; simpl; [done|].
    by rewrite (IH x), IHl.
Qed.

Lemma toJsonProps_fromJson (props : list (string * Json)) :
  toJsonProps (List.map (fun kv => (fst kv, fromJson (snd kv))) props) = props.
Proof.
  pose proof (toJson_fromJson (JsonObject props)) as Hobj.
  unfold toJsonProps. simpl in *. by injection Hobj as ->.
Qed.

Lemma storeDetails_reviveDetails d : storeDetails (reviveDetails d) = Some d.
Proof. destruct d as [j|e|e]; simpl; [|done|done]. by rewrite toJson_fromJson. Qed.

(** An execution loaded and saved again is stored as it was. *)
Lemma toStored_revive x : toStored (revive x) = x.
Proof.
  destruct x as [id agentId status [prompt parameters] output createdAt
                   completedAt error].
  unfold toStored, revive. simpl. f_equal.
  - unfold storeInput, reviveInput. simpl. f_equal.
    destruct parameters as [ps|]; simpl; [|done].
    by rewrite toJsonProps_fromJson.
  - destruct output as [[type data metadata]|]; simpl; [|done].
    unfold storeOutput. simpl. do 2 f_equal.
    + destruct data as [j|]; simpl; [apply toJson_fromJson|done].
    + destruct metadata as [j|]; simpl; [apply toJson_fromJson|done].
  - destruct error as [[code message details]|]; simpl; [|done].
    unfold storeError. simpl. do 2 f_equal.
    destruct details as [d|]; simpl; [apply storeDetails_reviveDetails|done].
Qed.

Lemma toStored_revive_list (l : list Stored.Execution) :
  toStored <$> (revive <$> l) = l.
Proof.
  induction l as [|x l IH]; csimpl; [done|]. by rewrite toStored_revive, IH.
Qed.

(** Saving and loading an execution a second time changes nothing more. *)
Lemma throughJson_idem e : throughJson (throughJson e) = throughJson e.
Proof. unfold throughJson. by rewrite toStored_revive. Qed.

End JsonFacts.

(** ** The persistence layer *)

Module StorageServiceFacts.
Import StorageService JsonFacts.

(** *** Keys *)

Lemma startsWith_app p s : startsWith (p +:+ s) p = true.
Proof. induction p as [|c p IH]; simpl; [done|]. by rewrite Ascii.eqb_refl. Qed.

Lemma dropChars_app p s : dropChars (String.length p) (p +:+ s) = s.
Proof. induction p as [|c p IH]; simpl; [done|apply IH]. Qed.

Lemma startsWith_split s p :
  startsWith s p = true -> p +:+ dropChars (String.length p) s = s.
Proof.
  revert s. induction p as [|c p IH]; intros s; simpl; [done|].
  destruct s as [|d s]; [done|].
  destruct (Ascii.eqb_spec c d) as [->|]; [|done].
  intros Hs. rewrite <- (IH s Hs) at 2. reflexivity.
Qed.

Lemma getExecutionKey_prefix agentId :
  startsWith (getExecutionKey agentId) EXECUTION_PREFIX = true.
Proof. apply startsWith_app. Qed.

Lemma getExecutionKey_strip agentId :
  stripPrefix EXECUTION_PREFIX (getExecutionKey agentId) = agentId.
Proof.
  unfold stripPrefix. rewrite getExecutionKey_prefix. apply dropChars_app.
Qed.

Lemma getExecutionKey_of_prefixed key :
  startsWith key EXECUTION_PREFIX = true ->
  getExecutionKey (stripPrefix EXECUTION_PREFIX key) = key.
Proof.
  intros Hs. unfold stripPrefix, getExecutionKey. rewrite Hs.
  by apply startsWith_split.
Qed.

Lemma getExecutionKey_inj a b : getExecutionKey a = getExecutionKey b -> a = b.
Proof.
  intros Heq. rewrite <- (getExecutionKey_strip a), Heq.
  apply getExecutionKey_strip.
Qed.

Lemma getExecutionKey_not_testKey agentId : getExecutionKey agentId ≠ testKey.
Proof. discriminate. Qed.

Section Facts.
Variable jsonLength : Stored.Execution -> nat.

#[local] Arguments startsWith : simpl never.
#[local] Arguments stripPrefix : simpl never.
#[local] Arguments getExecutionKey : simpl never.

Abbreviation used := (used jsonLength).
Abbreviation setItem := (setItem jsonLength).
Abbreviation isAvailable := (isAvailable jsonLength).
Abbreviation loadExecutions := (loadExecutions jsonLength).
Abbreviation saveExecutions := (saveExecutions jsonLength).
Abbreviation handleQuotaExceeded := (handleQuotaExceeded jsonLength).
Abbreviation freeUpSpace := (freeUpSpace jsonLength).
Abbreviation freeUpLoop := (freeUpLoop jsonLength).
Abbreviation getAgentIdsWithExecutions := (getAgentIdsWithExecutions jsonLength).
Abbreviation valueLength := (valueLength jsonLength).
Abbreviation serializedLength := (serializedLength jsonLength).

(** *** The space in use *)

(** What one key and its value take. *)
Definition entryLength (k : string) (v : StoredValue) : nat :=
  String.length k + valueLength v.

Lemma used_insert_fresh m k v :
  m !! k = None -> used (<[k := v]> m) = entryLength k v + used m.
Proof.
  intros Hk. unfold StorageService.used.
  rewrite map_fold_insert_L; [done| |done].
  intros. lia.
Qed.

Lemma used_delete m k v :
  m !! k = Some v -> used m = entryLength k v + used (delete k m).
Proof.
  intros Hk. unfold StorageService.used.
  rewrite (map_fold_delete_L _ _ k v m); [done| |done].
  intros. lia.
Qed.

Lemma used_insert m k v :
  used (<[k := v]> m) = entryLength k v + used (delete k m).
Proof.
  rewrite <- insert_delete_eq.
  apply used_insert_fresh, lookup_delete_eq.
Qed.


(** Writing a value that is no longer than the one it replaces uses no
    more space. *)
Lemma used_insert_shrink m k v v0 :
  m !! k = Some v0 -> valueLength v <= valueLength v0 ->
  used (<[k := v]> m) <= used m.
Proof.
  intros Hk Hle. rewrite used_insert, (used_delete m k v0 Hk).
  unfold entryLength. lia.
Qed.

Lemma sum_list_take_le (l : list nat) n : sum_list (take n l) <= sum_list l.
Proof.
  revert n. induction l as [|x l IH]; intros [|n]; simpl; try lia.
  specialize (IH n). lia.
Qed.

Lemma serializedLength_take l n :
  serializedLength (take n l) <= serializedLength l.
Proof.
  unfold StorageService.serializedLength.
  rewrite fmap_take, length_take.
  pose proof (sum_list_take_le (jsonLength <$> l) n). lia.
Qed.

(** *** Writes *)

(** Whether the quota allows the write. *)
Definition fits (key : string) (value : StoredValue) (ls : LocalStorage)
  : bool :=
  (used (<[key := value]> (LocalStorage.items ls))
   <=? LocalStorage.quota ls)%nat.

(** The storage with the value written. *)
Definition written (key : string) (value : StoredValue) (ls : LocalStorage)
  : LocalStorage :=
  LocalStorage.set_items (<[key := value]> (LocalStorage.items ls)) ls.

Lemma setItem_fits key value ls :
  fits key value ls = true ->
  setItem key value ls = (Ok tt, written key value ls).
Proof. unfold fits, StorageService.setItem. by intros ->. Qed.

Lemma setItem_rejected key value ls :
  fits key value ls = false ->
  setItem key value ls = (Throw quotaExceeded, ls).
Proof. unfold fits, StorageService.setItem. by intros ->. Qed.

(** *** Availability *)

(** The storage as [isAvailable] leaves it when it answers [true]: there
    is room for the probe, and the probe is not stored. *)
Definition ready (ls : LocalStorage) : Prop :=
  LocalStorage.hasWindow ls = true
  /\ LocalStorage.items ls !! testKey = None
  /\ used (LocalStorage.items ls) + 20 <= LocalStorage.quota ls.

Lemma isAvailable_ready ls : ready ls -> isAvailable ls = (true, ls).
Proof.
  intros (Hwin & Htest & Hroom). unfold StorageService.isAvailable.
  rewrite Hwin. simpl.
  rewrite setItem_fits.
  - unfold removeItem, written. simpl.
    rewrite delete_insert_id by done. by destruct ls.
  - unfold fits. apply Nat.leb_le.
    rewrite used_insert_fresh by done. unfold entryLength. simpl. lia.
Qed.

Lemma isAvailable_true ls ls' :
  isAvailable ls = (true, ls') ->
  ready ls'
  /\ ls' = LocalStorage.set_items (delete testKey (LocalStorage.items ls)) ls.
Proof.
  unfold StorageService.isAvailable.
  destruct (LocalStorage.hasWindow ls) eqn:Hwin; simpl; [|discriminate].
  unfold StorageService.setItem.
  destruct (_ <=? _)%nat eqn:Hfit; [|discriminate].
  intros [= <-]. apply Nat.leb_le in Hfit.
  unfold removeItem. simpl. rewrite delete_insert_eq.
  split; [|done]. repeat split; simpl.
  - done.
  - apply lookup_delete_eq.
  - rewrite used_insert in Hfit. unfold entryLength in Hfit. simpl in Hfit.
    lia.
Qed.

Lemma isAvailable_false ls ls' : isAvailable ls = (false, ls') -> ls' = ls.
Proof.
  unfold StorageService.isAvailable.
  destruct (LocalStorage.hasWindow ls); simpl; [|by intros [= <-]].
  unfold StorageService.setItem.
  destruct (_ <=? _)%nat; [discriminate|by intros [= <-]].
Qed.

(** *** Reading *)

(** The history stored for an agent, as [loadExecutions] reads it. *)
Definition storedHistory (agentId : string) (ls : LocalStorage)
  : list Execution :=
  match LocalStorage.items ls !! getExecutionKey agentId with
  | Some (SVExecutions l) => revive <$> l
  | _ => []
  end.

Lemma loadExecutions_ready agentId ls :
  ready ls -> loadExecutions agentId ls = (storedHistory agentId ls, ls).
Proof.
  intros Hready. unfold StorageService.loadExecutions, storedHistory, getItem.
  rewrite (isAvailable_ready ls Hready). simpl.
  by destruct (LocalStorage.items ls !! getExecutionKey agentId) as [[l|t]|].
Qed.

(** *** Freeing space *)

(** A stored history cut to its ten most recent entries. *)
Definition truncate10 (v : StoredValue) : StoredValue :=
  match v with
  | SVExecutions l => SVExecutions (take 10 l)
  | SVText t => SVText t
  end.

Lemma truncate10_idem v : truncate10 (truncate10 v) = truncate10 v.
Proof. destruct v as [l|t]; simpl; [|done]. by rewrite take_take. Qed.

Lemma valueLength_truncate10 v : valueLength (truncate10 v) <= valueLength v.
Proof. destruct v as [l|t]; simpl; [apply serializedLength_take|done]. Qed.

(** The storage with the history of one agent cut. *)
Definition truncated (ls : LocalStorage) (agentId : string) : LocalStorage :=
  LocalStorage.set_items
    (alter truncate10 (getExecutionKey agentId) (LocalStorage.items ls)) ls.

Lemma alter_as_insert (f : StoredValue -> StoredValue)
    (m : gmap string StoredValue) k v :
  m !! k = Some v -> alter f k m = <[k := f v]> m.
Proof.
  intros Hk. apply map_eq. intros j.
  destruct (decide (k = j)) as [<-|Hne].
  - by rewrite lookup_alter_eq, lookup_insert_eq, Hk.
  - by rewrite lookup_alter_ne, lookup_insert_ne.
Qed.

Lemma alter_absent (f : StoredValue -> StoredValue)
    (m : gmap string StoredValue) k :
  m !! k = None -> alter f k m = m.
Proof.
  intros Hk. apply map_eq. intros j.
  destruct (decide (k = j)) as [<-|Hne].
  - by rewrite lookup_alter_eq, Hk.
  - by rewrite lookup_alter_ne.
Qed.

Lemma used_alter_truncate10 m k : used (alter truncate10 k m) <= used m.
Proof.
  destruct (m !! k) as [v|] eqn:E.
  - rewrite (alter_as_insert _ _ _ _ E).
    apply (used_insert_shrink m k _ v E), valueLength_truncate10.
  - by rewrite alter_absent.
Qed.

Lemma ready_truncated ls agentId : ready ls -> ready (truncated ls agentId).
Proof.
  intros (Hwin & Htest & Hroom). unfold truncated. repeat split; simpl.
  - done.
  - rewrite lookup_alter_ne; [done|apply getExecutionKey_not_testKey].
  - pose proof (used_alter_truncate10 (LocalStorage.items ls)
                  (getExecutionKey agentId)). lia.
Qed.

(** One turn of the loop of [freeUpSpace]: the write of the shorter list
    is within the quota. *)
Lemma freeUpLoop_cons agentId rest ls :
  ready ls ->
  freeUpLoop (agentId :: rest) ls = freeUpLoop rest (truncated ls agentId).
Proof.
  intros Hready. simpl. rewrite (loadExecutions_ready _ _ Hready).
  unfold storedHistory, truncated.
  destruct (LocalStorage.items ls !! getExecutionKey agentId)
    as [[l|t]|] eqn:E; simpl.
  - rewrite length_fmap, <- fmap_take, toStored_revive_list.
    destruct (10 <? length l)%nat eqn:Hlen.
    + rewrite setItem_fits.
      * unfold written. by rewrite (alter_as_insert _ _ _ _ E).
      * unfold fits. apply Nat.leb_le.
        pose proof (used_insert_shrink (LocalStorage.items ls)
                      (getExecutionKey agentId) (SVExecutions (take 10 l))
                      (SVExecutions l) E (serializedLength_take l 10)).
        destruct Hready as (_ & _ & Hroom). lia.
    + apply Nat.ltb_ge in Hlen.
      rewrite (alter_as_insert _ _ _ _ E). simpl.
      rewrite take_ge by done. rewrite insert_id by done. by destruct ls.
  - rewrite (alter_as_insert _ _ _ _ E). simpl.
    rewrite insert_id by done. by destruct ls.
  - rewrite alter_absent by done. by destruct ls.
Qed.

Lemma freeUpLoop_ready agentIds ls :
  ready ls ->
  freeUpLoop agentIds ls = (Ok tt, foldl truncated ls agentIds)
  /\ ready (foldl truncated ls agentIds).
Proof.
  revert ls. induction agentIds as [|a rest IH]; intros ls Hready.
  - done.
  - rewrite (freeUpLoop_cons _ _ _ Hready). simpl.
    apply IH. by apply ready_truncated.
Qed.

Lemma foldl_truncated_frame agentIds ls :
  LocalStorage.hasWindow (foldl truncated ls agentIds)
  = LocalStorage.hasWindow ls
  /\ LocalStorage.quota (foldl truncated ls agentIds)
     = LocalStorage.quota ls.
Proof.
  revert ls. induction agentIds as [|a rest IH]; intros ls; simpl; [done|].
  by destruct (IH (truncated ls a)) as [-> ->].
Qed.

Lemma foldl_truncated_lookup agentIds ls k :
  LocalStorage.items (foldl truncated ls agentIds) !! k
  = if bool_decide (k ∈ getExecutionKey <$> agentIds)
    then truncate10 <$> LocalStorage.items ls !! k
    else LocalStorage.items ls !! k.
Proof.
  revert ls. induction agentIds as [|a rest IH]; intros ls; csimpl.
  - done.
  - rewrite IH. unfold truncated at 1 2. simpl.
    destruct (decide (getExecutionKey a = k)) as [<-|Hne].
    + rewrite lookup_alter_eq.
      rewrite (bool_decide_eq_true_2 (_ ∈ _ :: _)) by left.
      case_bool_decide; [|done].
      destruct (LocalStorage.items ls !! getExecutionKey a) as [v|]; simpl;
        [|done].
      by rewrite truncate10_idem.
    + rewrite lookup_alter_ne by done.
      case_bool_decide as Hin.
      * by rewrite bool_decide_eq_true_2 by (by right).
      * rewrite bool_decide_eq_false_2; [done|].
        intros Hin'. apply elem_of_cons in Hin' as [?|?]; congruence.
Qed.

(** The histories of all agents cut: what [freeUpSpace] is to do. *)
Definition truncateStored (m : gmap string StoredValue)
  : gmap string StoredValue :=
  map_imap
    (fun k v =>
       Some (if startsWith k EXECUTION_PREFIX then truncate10 v else v)) m.

Definition freed (ls : LocalStorage) : LocalStorage :=
  LocalStorage.set_items (truncateStored (LocalStorage.items ls)) ls.

Lemma truncateStored_lookup m k :
  truncateStored m !! k
  = (if startsWith k EXECUTION_PREFIX then truncate10 else id) <$> m !! k.
Proof.
  unfold truncateStored. rewrite map_lookup_imap.
  destruct (m !! k) as [v|]; simpl; [|done].
  by destruct (startsWith k EXECUTION_PREFIX).
Qed.

Lemma getAgentIdsWithExecutions_ready ls :
  ready ls ->
  getAgentIdsWithExecutions ls
  = (stripPrefix EXECUTION_PREFIX
       <$> List.filter (fun key => startsWith key EXECUTION_PREFIX) (keys ls),
     ls).
Proof.
  intros Hready. unfold StorageService.getAgentIdsWithExecutions.
  by rewrite (isAvailable_ready ls Hready).
Qed.

Lemma elem_of_execution_keys ls k :
  k ∈ getExecutionKey
        <$> (stripPrefix EXECUTION_PREFIX
               <$> List.filter (fun key => startsWith key EXECUTION_PREFIX)
                     (keys ls))
  <-> startsWith k EXECUTION_PREFIX = true
      /\ is_Some (LocalStorage.items ls !! k).
Proof.
  rewrite <- list_fmap_compose, list_elem_of_fmap. split.
  - intros (key & -> & Hin). apply list_elem_of_In, filter_In in Hin
      as [Hin Hpre]. simpl.
    rewrite (getExecutionKey_of_prefixed _ Hpre). split; [done|].
    apply list_elem_of_In, list_elem_of_fmap in Hin as ([k' v] & -> & Hin).
    apply elem_of_map_to_list in Hin. by exists v.
  - intros [Hpre [v Hv]]. exists k. split.
    + simpl. by rewrite (getExecutionKey_of_prefixed _ Hpre).
    + apply list_elem_of_In, filter_In. split; [|done].
      apply list_elem_of_In, list_elem_of_fmap. exists (k, v).
      split; [done|]. by apply elem_of_map_to_list.
Qed.

(** When the storage is available [freeUpSpace] does cut every stored
    history to ten entries: no write of its loop is refused. *)
Lemma freeUpSpace_ready ls :
  ready ls -> freeUpSpace ls = freed ls /\ ready (freed ls).
Proof.
  intros Hready.
  assert (freeUpSpace ls = freed ls) as Heq.
  { unfold StorageService.freeUpSpace.
    rewrite (getAgentIdsWithExecutions_ready ls Hready).
    set (ids := stripPrefix EXECUTION_PREFIX <$> _).
    destruct (freeUpLoop_ready ids ls Hready) as [-> _]. simpl.
    destruct (foldl_truncated_frame ids ls) as [Hwin Hquota].
    pose proof (foldl_truncated_lookup ids ls) as Hlook.
    unfold freed.
    destruct (foldl truncated ls ids) as [win quota items].
    destruct ls as [win0 quota0 items0]. simpl in *. subst win quota.
    unfold LocalStorage.set_items. simpl. f_equal. apply map_eq. intros k.
    rewrite Hlook, truncateStored_lookup.
    case_bool_decide as Hin.
    - apply (elem_of_execution_keys
               (LocalStorage.mk win0 quota0 items0)) in Hin as [-> _]. done.
    - destruct (startsWith k EXECUTION_PREFIX) eqn:Hpre.
      + destruct (items0 !! k) as [v|] eqn:E; [|done].
        destruct Hin.
        apply (elem_of_execution_keys (LocalStorage.mk win0 quota0 items0)).
        split; [done|]. by exists v.
      + by destruct (items0 !! k). }
  split; [done|]. rewrite <- Heq. unfold StorageService.freeUpSpace.
  rewrite (getAgentIdsWithExecutions_ready ls Hready).
  by destruct (freeUpLoop_ready
                 (stripPrefix EXECUTION_PREFIX
                    <$> List.filter
                          (fun key => startsWith key EXECUTION_PREFIX)
                          (keys ls)) ls Hready) as [-> ?].
Qed.

(** After [freeUpSpace] the history stored for every agent is the first
    ten entries of what was stored for it. *)
Lemma storedHistory_freed agentId ls :
  storedHistory agentId (freed ls) = take 10 (storedHistory agentId ls).
Proof.
  unfold storedHistory, freed. simpl.
  rewrite truncateStored_lookup, getExecutionKey_prefix.
  destruct (LocalStorage.items ls !! getExecutionKey agentId) as [[l|t]|];
    simpl; [|done|done].
  by rewrite fmap_take.
Qed.

(** *** Saving *)

(** The degradation in the words of the specification: write the ten most
    recent entries; failing that, cut every stored history to ten and
    write the five most recent; failing that, raise the quota error. *)
Definition quotaCascade (agentId : string) (executions : list Execution)
    (ls : LocalStorage) : Result unit * LocalStorage :=
  let key := getExecutionKey agentId in
  let reduced := SVExecutions (toStored <$> take 10 executions) in
  let minimal := SVExecutions (toStored <$> take 5 executions) in
  if fits key reduced ls then (Ok tt, written key reduced ls)
  else if fits key minimal (freed ls) then
    (Ok tt, written key minimal (freed ls))
  else (Throw QuotaExceededError, freed ls).

Lemma handleQuotaExceeded_ready agentId executions ls :
  ready ls ->
  handleQuotaExceeded agentId executions ls
  = quotaCascade agentId executions ls.
Proof.
  intros Hready. unfold StorageService.handleQuotaExceeded, quotaCascade.
  cbv zeta.
  destruct (fits _ (SVExecutions (toStored <$> take 10 executions)) ls)
    eqn:F10.
  - by rewrite (setItem_fits _ _ _ F10).
  - rewrite (setItem_rejected _ _ _ F10).
    destruct (freeUpSpace_ready ls Hready) as [-> _].
    destruct (fits _ (SVExecutions (toStored <$> take 5 executions))
                (freed ls)) eqn:F5.
    + by rewrite (setItem_fits _ _ _ F5).
    + by rewrite (setItem_rejected _ _ _ F5).
Qed.

(** [saveExecutions], case by case. *)
Lemma saveExecutions_unavailable agentId executions ls ls' :
  isAvailable ls = (false, ls') ->
  saveExecutions agentId executions ls = (Ok tt, ls).
Proof.
  intros Hav. unfold StorageService.saveExecutions. rewrite Hav. simpl.
  by rewrite (isAvailable_false _ _ Hav).
Qed.

Lemma saveExecutions_available agentId executions ls ls1 :
  isAvailable ls = (true, ls1) ->
  saveExecutions agentId executions ls
  = if fits (getExecutionKey agentId)
         (SVExecutions (toStored <$> take 50 executions)) ls1
    then (Ok tt,
          written (getExecutionKey agentId)
            (SVExecutions (toStored <$> take 50 executions)) ls1)
    else quotaCascade agentId executions ls1.
Proof.
  intros Hav. destruct (isAvailable_true _ _ Hav) as [Hready _].
  unfold StorageService.saveExecutions. rewrite Hav. simpl.
  unfold MAX_EXECUTIONS_PER_AGENT.
  destruct (fits _ (SVExecutions (toStored <$> take 50 executions)) ls1)
    eqn:F50.
  - by rewrite (setItem_fits _ _ _ F50).
  - rewrite (setItem_rejected _ _ _ F50). simpl.
    by apply handleQuotaExceeded_ready.
Qed.

Lemma storedHistory_written agentId l ls :
  storedHistory agentId (written (getExecutionKey agentId) (SVExecutions l) ls)
  = revive <$> l.
Proof. unfold storedHistory, written. simpl. by rewrite lookup_insert_eq. Qed.

(** What is read of a list that was written: each execution as it comes
    out of its JSON text. *)
Lemma storedHistory_saved agentId executions ls :
  storedHistory agentId
    (written (getExecutionKey agentId)
       (SVExecutions (toStored <$> executions)) ls)
  = throughJson <$> executions.
Proof. rewrite storedHistory_written. by rewrite <- list_fmap_compose. Qed.

(** C7: a write of an agent's list that the quota refuses is tried again
    with the ten most recent entries; if that is refused too, the stored
    history of every agent is cut to its ten most recent entries and the
    write is tried with the five most recent; if that is refused, the
    caller gets the quota error. *)
Theorem saveExecutions_quota_cascade agentId executions ls ls1 :
  isAvailable ls = (true, ls1) ->
  fits (getExecutionKey agentId)
    (SVExecutions (toStored <$> take 50 executions)) ls1
  = false ->
  let key := getExecutionKey agentId in
  let reduced := SVExecutions (toStored <$> take 10 executions) in
  let minimal := SVExecutions (toStored <$> take 5 executions) in
  let afterFreeUp := freeUpSpace ls1 in
  saveExecutions agentId executions ls
  = (if fits key reduced ls1 then (Ok tt, written key reduced ls1)
     else if fits key minimal afterFreeUp
          then (Ok tt, written key minimal afterFreeUp)
          else (Throw QuotaExceededError, afterFreeUp))
  /\ (forall other,
        storedHistory other afterFreeUp
        = take 10 (storedHistory other ls1))
  /\ storedHistory agentId (written key reduced ls1)
     = throughJson <$> take 10 executions
  /\ storedHistory agentId (written key minimal afterFreeUp)
     = throughJson <$> take 5 executions.
Proof.
  intros Hav F50 key reduced minimal afterFreeUp.
  destruct (isAvailable_true _ _ Hav) as [Hready _].
  subst afterFreeUp. destruct (freeUpSpace_ready ls1 Hready) as [-> _].
  split; [|split; [|split]].
  - rewrite (saveExecutions_available _ _ _ _ Hav), F50. reflexivity.
  - intros other. apply storedHistory_freed.
  - apply storedHistory_saved.
  - apply storedHistory_saved.
Qed.

(** What [saveExecutions] leaves under a key is a prefix of the list
    saved, capped at fifty, or a prefix of what the key held. *)
Lemma saveExecutions_stored agentId executions ls k l' :
  LocalStorage.items (snd (saveExecutions agentId executions ls)) !! k
  = Some (SVExecutions l') ->
  (k = getExecutionKey agentId
   /\ exists n, l' = toStored <$> take n (take 50 executions))
  \/ (exists l0 n,
        LocalStorage.items ls !! k = Some (SVExecutions l0)
        /\ l' = take n l0).
Proof.
  destruct (isAvailable ls) as [[|] ls1] eqn:Hav.
  2: { rewrite (saveExecutions_unavailable _ _ _ _ Hav). simpl.
       intros Hk. right. exists l', (length l').
       split; [done|]. by rewrite take_ge. }
  destruct (isAvailable_true _ _ Hav) as [Hready Hls1].
  rewrite (saveExecutions_available _ _ _ _ Hav).
  assert (forall l0,
            LocalStorage.items ls1 !! k = Some (SVExecutions l0) ->
            LocalStorage.items ls !! k = Some (SVExecutions l0)) as Hold.
  { intros l0. rewrite Hls1. simpl. intros Hk.
    by apply lookup_delete_Some in Hk as [_ Hk]. }
  clear Hls1.
  assert (forall l0,
            LocalStorage.items (freed ls1) !! k = Some (SVExecutions l0) ->
            exists l1 n,
              LocalStorage.items ls !! k = Some (SVExecutions l1)
              /\ l0 = take n l1) as Hfreed.
  { intros l0. unfold freed. simpl. rewrite truncateStored_lookup.
    destruct (LocalStorage.items ls1 !! k) as [[l1|t]|] eqn:E; simpl;
      destruct (startsWith k EXECUTION_PREFIX); simpl; unfold id;
      try discriminate.
    - intros [= <-]. exists l1, 10. split; [by apply Hold|done].
    - intros [= <-]. exists l1, (length l1).
      split; [by apply Hold|by rewrite take_ge]. }
  assert (forall n base,
            LocalStorage.items
              (written (getExecutionKey agentId)
                 (SVExecutions (toStored <$> take n executions)) base) !! k
            = Some (SVExecutions l') ->
            n <= 50 ->
            (k = getExecutionKey agentId
             /\ exists n, l' = toStored <$> take n (take 50 executions))
            \/ LocalStorage.items base !! k = Some (SVExecutions l'))
    as Hwritten.
  { intros n base. unfold written. simpl. intros Hk Hn.
    destruct (decide (getExecutionKey agentId = k)) as [<-|Hne].
    - rewrite lookup_insert_eq in Hk. injection Hk as <-.
      left. split; [done|]. exists n. rewrite take_take. do 2 f_equal. lia.
    - rewrite lookup_insert_ne in Hk by done. by right. }
  unfold quotaCascade. cbv zeta.
  repeat match goal with
         | |- context [if ?b then _ else _] => destruct b
         end; simpl; intros Hk.
  - destruct (Hwritten 50 ls1 Hk) as [?|Hk']; [lia|by left|].
    right. exists l', (length l'). split; [by apply Hold|by rewrite take_ge].
  - destruct (Hwritten 10 ls1 Hk) as [?|Hk']; [lia|by left|].
    right. exists l', (length l'). split; [by apply Hold|by rewrite take_ge].
  - destruct (Hwritten 5 (freed ls1) Hk) as [?|Hk']; [lia|by left|].
    right. by apply Hfreed.
  - right. by apply Hfreed.
Qed.

End Facts.

(** *** A crowded storage *)

(** Every execution takes ten characters. *)
Definition tenEach : Stored.Execution -> nat := fun _ => 10.

(** [n] executions of an agent. *)
Definition someExecutions (n : nat) (agentId : string) : list Execution :=
  (fun i => ExecutionStoreFacts.demoExecution (pretty i) agentId Completed)
    <$> seq 0 n.

(** A storage of 250 characters that holds twelve executions of agent
    ["b"]. *)
Definition crowded : LocalStorage :=
  LocalStorage.mk true 250
    {[ getExecutionKey "b"
       := SVExecutions (toStored <$> someExecutions 12 "b") ]}.

(** Saving eleven executions of agent ["a"] in it: neither the eleven nor
    the ten most recent fit; once the history of ["b"] is cut to ten, the
    five most recent do. *)
Lemma saveExecutions_quota_cascade_witness :
  isAvailable tenEach crowded = (true, crowded)
  /\ fits tenEach (getExecutionKey "a")
       (SVExecutions (toStored <$> take 50 (someExecutions 11 "a"))) crowded
     = false
  /\ saveExecutions tenEach "a" (someExecutions 11 "a") crowded
     = (Ok tt,
        written (getExecutionKey "a")
          (SVExecutions (toStored <$> take 5 (someExecutions 11 "a")))
          (freeUpSpace tenEach crowded))
  /\ storedHistory "b" (freeUpSpace tenEach crowded)
     = take 10 (someExecutions 12 "b").
Proof.
  assert (isAvailable tenEach crowded = (true, crowded)) as Hav
    by (vm_compute; reflexivity).
  assert (fits tenEach (getExecutionKey "a")
            (SVExecutions (toStored <$> take 50 (someExecutions 11 "a")))
            crowded = false)
    as Hfull by (vm_compute; reflexivity).
  destruct (saveExecutions_quota_cascade tenEach "a" (someExecutions 11 "a")
              crowded crowded Hav Hfull) as (Hsave & Hfree & _ & _).
  split; [exact Hav|]. split; [exact Hfull|]. split.
  - rewrite Hsave.
    assert (fits tenEach (getExecutionKey "a")
              (SVExecutions (toStored <$> take 10 (someExecutions 11 "a")))
              crowded
            = false) as -> by (vm_compute; reflexivity).
    assert (fits tenEach (getExecutionKey "a")
              (SVExecutions (toStored <$> take 5 (someExecutions 11 "a")))
              (freeUpSpace tenEach crowded) = true) as ->
      by (vm_compute; reflexivity).
    reflexivity.
  - rewrite (Hfree "b"). vm_compute. reflexivity.
Defined.

End StorageServiceFacts.

(** ** The history of an agent, in the store and in the storage *)

Module HistoryFacts.
Import ExecutionStore StorageService ExecutionStoreFacts StorageServiceFacts.

Section Facts.
Variable jsonLength : Stored.Execution -> nat.

#[local] Arguments getExecutionKey : simpl never.


(** The calls that add the executions, in order. *)
Definition adding (added : list Execution) : list Call :=
  CallAddExecution <$> added.

(** The list the store has for an agent. *)
Definition listOf (agentId : string) (s : State) : list Execution :=
  default [] (props_get (State.executions s) agentId).






Lemma lookupAgent_plain s agentId :
  isInherited agentId = false ->
  lookupAgent (State.executions s) agentId
  = Listed <$> props_get (State.executions s) agentId.
Proof.
  intros Hplain. unfold lookupAgent. rewrite Hplain.
  by destruct (props_get _ _).
Qed.


(** For an agent whose id names no member of [Object.prototype],
    [getExecutionsByAgent] returns the list of the store. *)
Lemma getExecutionsByAgent_plain agentId s :
  isInherited agentId = false ->
  getExecutionsByAgent agentId s = Listed (listOf agentId s).
Proof.
  intros Hplain. unfold getExecutionsByAgent, listOf.
  rewrite (lookupAgent_plain _ _ Hplain). by destruct (props_get _ _).
Qed.













End Facts.




End HistoryFacts.

(* ================================================================== *)
(** * Part III: further properties of the code                          *)
(* ================================================================== *)

(** ** What the user is told about an error *)

Module FriendlyMessageFacts.
Import Errors.

Definition unexpectedErrorText : string :=
  "An unexpected error occurred. Please try again.".

(** X1: a thrown value that is no instance of [ExecutionBaseError] (a
    native error, a string, any other value) is parsed to the code
    [UNKNOWN_ERROR], and the text shown for it is the generic one: its own
    message never reaches the user through
    [getUserFriendlyErrorMessage]. *)
Theorem foreign_error_message_is_hidden e :
  isExecutionBaseError e = false ->
  code (parseError e) = "UNKNOWN_ERROR"
  /\ getUserFriendlyErrorMessage (parseError e)
     = FriendlyText unexpectedErrorText.
Proof.
  intros Hbase. unfold parseError. rewrite Hbase.
  destruct (isErrorInstance e); [by split|].
  destruct e as [| | | | | | | | | | | |v|r]; try (by split).
  destruct v; by split.
Qed.

Lemma foreign_error_message_is_hidden_witness :
  getUserFriendlyErrorMessage
    (parseError (NativeError ClsTypeError "TypeError" "Failed to fetch"))
  = FriendlyText unexpectedErrorText.
Proof.
  refine (proj2 (foreign_error_message_is_hidden
                   (NativeError ClsTypeError "TypeError" "Failed to fetch") _)).
  reflexivity.
Defined.

(** The texts of the table. *)
Definition tableTexts : list string := messages.*2.

(** X2: for an error whose code is no name of [Object.prototype],
    [getUserFriendlyErrorMessage] returns a text that is not empty: the
    text of the table when the code is one of its seven (whatever the
    message of the error), otherwise the message of the error, or the
    generic text when that message is empty. *)
Theorem friendly_message_is_a_text error :
  code error ∉ objectPrototypeNames ->
  exists text,
    getUserFriendlyErrorMessage error = FriendlyText text
    /\ text ≠ ""
    /\ (forall fixed, props_get messages (code error) = Some fixed ->
        text = fixed)
    /\ (props_get messages (code error) = None ->
        text = message error \/ (message error = "" /\ text = unexpectedErrorText)).
Proof.
  intros Hcode. unfold getUserFriendlyErrorMessage.
  assert (existsb (String.eqb (code error)) objectPrototypeNames = false)
    as ->.
  { apply not_true_is_false. intros Hex. apply Hcode.
    apply existsb_exists in Hex as (name & Hin & Heq).
    apply String.eqb_eq in Heq as ->. by apply list_elem_of_In. }
  destruct (props_get messages (code error)) as [fixed|] eqn:Hfixed.
  - assert (fixed ∈ tableTexts) as Hin.
    { clear Hcode. revert Hfixed. unfold tableTexts. generalize messages.
      induction l as [|[k v] l IH]; simpl; [done|].
      destruct (String.eqb k (code error)).
      - intros [= ->]. left.
      - intros Hget. right. by apply IH. }
    assert (fixed ≠ "") as Hne.
    { unfold tableTexts, messages in Hin. simpl in Hin.
      repeat (apply elem_of_cons in Hin as [->|Hin]; [discriminate|]).
      by apply elem_of_nil in Hin. }
    apply String.eqb_neq in Hne as Hneb. rewrite Hneb. simpl.
    exists fixed. split; [done|]. split; [done|]. split; [|done].
    by intros ? [= <-].
  - destruct (String.eqb_spec (message error) "") as [Hm|Hm]; simpl.
    + exists unexpectedErrorText. split; [done|]. split; [discriminate|].
      split; [done|]. intros _. by right.
    + exists (message error). split; [done|]. split; [done|].
      split; [done|]. intros _. by left.
Qed.

Lemma friendly_message_is_a_text_witness :
  exists text,
    getUserFriendlyErrorMessage
      (mkExecutionError "GENERATION_FAILED" "Video generation failed" None)
    = FriendlyText text
    /\ text ≠ "".
Proof.
  destruct (friendly_message_is_a_text
              (mkExecutionError "GENERATION_FAILED" "Video generation failed"
                 None)) as (text & Htext & Hne & _).
  - unfold objectPrototypeNames. simpl. intros Hin.
    repeat (apply elem_of_cons in Hin as [Hin|Hin]; [discriminate|]).
    by apply elem_of_nil in Hin.
  - exists text. split; [exact Htext|exact Hne].
Defined.

End FriendlyMessageFacts.

(** ** Validation of an input *)

Module ValidationFacts.
Import Errors.

Section Facts.
Variable RegExp_test : string -> string -> Result bool.

(** The rules hold of a text that is not empty. *)
Definition satisfies (s : string) (rules : ValidationRules) : Prop :=
  (forall n, ValidationRules.minLength rules = Some n ->
     (n <= Z.of_nat (String.length s))%Z)
  /\ (forall n, ValidationRules.maxLength rules = Some n ->
        (Z.of_nat (String.length s) <= n)%Z)
  /\ (forall p, ValidationRules.pattern rules = Some p -> p ≠ "" ->
        RegExp_test p s = Ok true)
  /\ (forall custom, ValidationRules.custom rules = Some custom ->
        exists result,
          custom (JsString s) = Ok result
          /\ result ≠ JsBool false
          /\ forall text, result ≠ JsString text).

Lemma customViolation_None value field rules :
  customViolation value field rules = None <->
  forall custom, ValidationRules.custom rules = Some custom ->
    exists result,
      custom value = Ok result
      /\ result ≠ JsBool false /\ forall text, result ≠ JsString text.
Proof.
  unfold customViolation.
  destruct (ValidationRules.custom rules) as [custom|]; [|done].
  split.
  - intros Hnone ? [= <-].
    destruct (custom value) as [result|e]; [|discriminate Hnone].
    exists result. split; [done|].
    destruct result as [| |[|]| | | | | |]; try discriminate Hnone;
      split; try discriminate; intros; discriminate.
  - intros Hok. destruct (Hok custom eq_refl) as (result & -> & Hfalse & Htext).
    destruct result as [| |[|]|n|t|l|o|sz m|f]; try done.
    by destruct (Htext t).
Qed.

Lemma stringViolation_None s field rules :
  stringViolation RegExp_test s field rules = None <->
  (forall n, ValidationRules.minLength rules = Some n ->
     (n <= Z.of_nat (String.length s))%Z)
  /\ (forall n, ValidationRules.maxLength rules = Some n ->
        (Z.of_nat (String.length s) <= n)%Z)
  /\ (forall p, ValidationRules.pattern rules = Some p -> p ≠ "" ->
        RegExp_test p s = Ok true).
Proof.
  unfold stringViolation.
  destruct (ValidationRules.minLength rules) as [lo|];
    destruct (ValidationRules.maxLength rules) as [hi|];
    destruct (ValidationRules.pattern rules) as [p|];
    repeat match goal with
           | |- context [(?a <? ?b)%Z] => destruct (Z.ltb_spec a b)
           | |- context [String.eqb ?a ?b] => destruct (String.eqb_spec a b)
           | |- context [RegExp_test ?a ?b] =>
               destruct (RegExp_test a b) as [[|]|?] eqn:?
           end; simpl;
    (split;
     [try discriminate; intros _;
      (split; [|split]); intros ? [= <-]; try lia; try done; congruence
     |intros (Hlo & Hhi & Hp); try done;
      try (specialize (Hlo _ eq_refl); lia);
      try (specialize (Hhi _ eq_refl); lia);
      try (specialize (Hp _ eq_refl ltac:(done)); congruence)]).
Qed.

(** X3: [validateInput] accepts a text exactly when it is empty and not
    required, or not empty and within the rules: at least [minLength] and
    at most [maxLength] characters, matched by the pattern, and not
    refused by the custom rule. In particular an empty text that is not
    required passes whatever the other rules say. *)
Theorem validateInput_accepts_text s field rules :
  validateInput RegExp_test (JsString s) field (Some rules) = Ok tt <->
  (s = "" /\ isRequired rules = false) \/ (s ≠ "" /\ satisfies s rules).
Proof.
  unfold validateInput, satisfies. simpl.
  destruct (String.eqb_spec s "") as [->|Hs]; simpl.
  - destruct (isRequired rules); simpl.
    + split; [discriminate|]. intros [[_ ?]|[? _]]; done.
    + split; [by left|done].
  - rewrite andb_false_r. simpl.
    destruct (stringViolation RegExp_test s field rules) as [e|] eqn:Hstr.
    + split; [discriminate|]. intros [[? _]|[_ (Hlo & Hhi & Hp & _)]]; [done|].
      assert (stringViolation RegExp_test s field rules = None) as Hnone
        by (by apply stringViolation_None).
      congruence.
    + destruct (customViolation (JsString s) field rules) as [e|] eqn:Hcus.
      * split; [discriminate|]. intros [[? _]|[_ (_ & _ & _ & Hc)]]; [done|].
        pose proof (proj2 (customViolation_None (JsString s) field rules) Hc).
        congruence.
      * pose proof (proj1 (customViolation_None _ _ _) Hcus) as Hc.
        pose proof (proj1 (stringViolation_None _ _ _) Hstr) as Hs3.
        split; [|done]. intros _. right. split; [done|]. tauto.
Qed.

Lemma customViolation_Some value field rules e :
  customViolation value field rules = Some e ->
  (exists constraint, e = ValidationError field constraint value)
  \/ (exists custom, ValidationRules.custom rules = Some custom
                    /\ custom value = Throw e).
Proof.
  unfold customViolation.
  destruct (ValidationRules.custom rules) as [custom|]; [|discriminate].
  destruct (custom value) as [result|e'] eqn:Hcall.
  - destruct result as [| |[|]|n|t|l|o|sz m|f]; try discriminate;
      intros [= <-]; eauto.
  - intros [= <-]. eauto.
Qed.

Lemma stringViolation_Some s field rules e :
  stringViolation RegExp_test s field rules = Some e ->
  (exists constraint, e = ValidationError field constraint (JsString s))
  \/ (exists p, ValidationRules.pattern rules = Some p
               /\ RegExp_test p s = Throw e).
Proof.
  unfold stringViolation.
  destruct (ValidationRules.minLength rules) as [lo|];
    destruct (ValidationRules.maxLength rules) as [hi|];
    destruct (ValidationRules.pattern rules) as [p|];
    repeat match goal with
           | |- context [(?a <? ?b)%Z] => destruct (a <? b)%Z
           | |- context [String.eqb ?a ?b] => destruct (String.eqb a b)
           | |- context [RegExp_test ?a ?b] =>
               destruct (RegExp_test a b) as [[|]|?] eqn:?
           end; simpl; try discriminate; intros [= <-]; eauto.
Qed.

(** What [validateInput] reports itself: a [ValidationError] for the
    field, carrying the value (or nothing, for a missing required value). *)
Definition reported (value : JsValue) (field : string) (e : JsError) : Prop :=
  exists constraint v,
    e = ValidationError field constraint v /\ (v = JsUndefined \/ v = value).

(** X4: whatever [validateInput] throws is a [ValidationError] for the
    field, carrying the value (or nothing, for a missing required value),
    or else it is what the [RegExp] constructor threw for the pattern of
    the rules, or what the custom rule threw, neither of which is caught.
    The code of a [ValidationError] is [VALIDATION_ERROR], and the text
    shown for it is the fixed one of that code, not the constraint that
    failed. *)
Theorem validateInput_rejects_with_ValidationError value field rules e :
  validateInput RegExp_test value field rules = Throw e ->
  (reported value field e
   /\ code (parseError e) = "VALIDATION_ERROR"
   /\ getUserFriendlyErrorMessage (parseError e)
      = FriendlyText "Please check your input and try again.")
  \/ (exists rs p s,
        rules = Some rs /\ value = JsString s
        /\ ValidationRules.pattern rs = Some p /\ RegExp_test p s = Throw e)
  \/ (exists rs custom,
        rules = Some rs /\ ValidationRules.custom rs = Some custom
        /\ custom value = Throw e).
Proof.
  intros Hthrow.
  assert (reported value field e
          \/ (exists rs p s,
                rules = Some rs /\ value = JsString s
                /\ ValidationRules.pattern rs = Some p
                /\ RegExp_test p s = Throw e)
          \/ (exists rs custom,
                rules = Some rs /\ ValidationRules.custom rs = Some custom
                /\ custom value = Throw e)) as Hcases.
  { unfold validateInput in Hthrow.
    destruct rules as [rs|]; [|discriminate].
    destruct (isRequired rs && isMissing value).
    { injection Hthrow as <-. left. unfold reported. eauto. }
    destruct (negb (truthy value) && negb (isRequired rs)); [discriminate|].
    assert (forall e', customViolation value field rs = Some e' ->
              reported value field e'
              \/ (exists rs' custom,
                    Some rs = Some rs'
                    /\ ValidationRules.custom rs' = Some custom
                    /\ custom value = Throw e')) as Hcustom.
    { intros e' Hc.
      destruct (customViolation_Some _ _ _ _ Hc) as [[c ->]|(custom & ? & ?)].
      - left. unfold reported. eauto.
      - right. eauto. }
    destruct value as [| |b|n|s|l|o|sz m|f];
      try (destruct (customViolation _ field rs) as [e'|] eqn:Hc;
           [injection Hthrow as <-; destruct (Hcustom _ eq_refl); auto
           |discriminate]).
    destruct (stringViolation RegExp_test s field rs) as [e'|] eqn:Hs.
    - injection Hthrow as <-.
      destruct (stringViolation_Some _ _ _ _ Hs) as [[c ->]|(p & Hp & Ht)].
      + left. unfold reported. eauto.
      + right; left. by exists rs, p, s.
    - destruct (customViolation _ field rs) as [e'|] eqn:Hc;
        [injection Hthrow as <-; destruct (Hcustom _ eq_refl); auto
        |discriminate]. }
  destruct Hcases as [Hshape|Hother]; [left|by right].
  split; [exact Hshape|].
  destruct Hshape as (constraint & v & -> & _). by split.
Qed.

End Facts.

(** The rules of the agent of the repository: required, 10 to 1000
    characters. *)
Definition promptRules : ValidationRules :=
  ValidationRules.mk (Some 10%Z) (Some 1000%Z) None (Some true) None.

(** No pattern of these rules is refused. *)
Definition everyPatternMatches : string -> string -> Result bool :=
  fun _ _ => Ok true.

(** Rules whose custom rule throws for every value. *)
Definition brokenRule : JsError :=
  NativeError ClsError "Error" "the rule is broken".

Definition throwingRules : ValidationRules :=
  ValidationRules.mk None None None None (Some (fun _ => Throw brokenRule)).

Lemma validateInput_rejects_with_ValidationError_witness :
  validateInput everyPatternMatches (JsString "too short") "prompt"
    (Some promptRules)
  = Throw (ValidationError "prompt" "Must be at least 10 characters"
             (JsString "too short"))
  /\ getUserFriendlyErrorMessage
       (parseError (ValidationError "prompt" "Must be at least 10 characters"
                      (JsString "too short")))
     = FriendlyText "Please check your input and try again."
  /\ validateInput everyPatternMatches (JsString "a prompt") "prompt"
       (Some throwingRules)
     = Throw brokenRule.
Proof.
  assert (validateInput everyPatternMatches (JsString "too short") "prompt"
            (Some promptRules)
          = Throw (ValidationError "prompt" "Must be at least 10 characters"
                     (JsString "too short"))) as Hthrow
    by (vm_compute; reflexivity).
  split; [exact Hthrow|]. split; [|vm_compute; reflexivity].
  destruct (validateInput_rejects_with_ValidationError
              everyPatternMatches (JsString "too short") "prompt"
              (Some promptRules) _ Hthrow)
    as [(_ & _ & Hfriendly)|[(rs & p & s & _ & _ & _ & Hre)
                            |(rs & custom & Hrs & Hcustom & _)]].
  - exact Hfriendly.
  - discriminate Hre.
  - injection Hrs as <-. discriminate Hcustom.
Defined.

End ValidationFacts.

(** ** The retry policy under any configuration *)

Module RetryScheduleFacts.
Import Errors ErrorsFacts.

Section Facts.
Context {W T : Type}.
Variable setTimeout : Z -> W -> W.

(** The values [retryWithBackoff] takes from its configuration, or from
    the default one. *)
Definition attemptsOf (config : PartialRetryConfig) : Q :=
  default (RetryConfig.maxAttempts DEFAULT_RETRY_CONFIG)
    (PartialRetryConfig.maxAttempts config).
Definition delayOf (config : PartialRetryConfig) : Z :=
  default (RetryConfig.delayMs DEFAULT_RETRY_CONFIG)
    (PartialRetryConfig.delayMs config).
Definition multiplierOf (config : PartialRetryConfig) : Z :=
  default defaultBackoffMultiplier
    (PartialRetryConfig.backoffMultiplier config).
Definition retryableOf (config : PartialRetryConfig) : list string :=
  default defaultRetryableErrors (PartialRetryConfig.retryableErrors config).

(** A failure the configuration retries. *)
Definition retried (errs : list string) (e : JsError) : bool :=
  isRetryableError (parseError e) errs.

Definition retriedFailure (errs : list string) (r : Result T) : bool :=
  match r with
  | Throw e => retried errs e
  | Ok _ => false
  end.

(** The log of a run that fails with [failures], waiting after each, and
    ends with the outcome [final]: the delays start at [delay] and are
    multiplied by [mult] from one to the next. *)
Fixpoint backoffLog (mult delay : Z) (failures : list JsError)
    (final : Result T) : list (RetryEvent (T := T)) :=
  match failures with
  | [] => [Attempted final]
  | e :: rest =>
      Attempted (Throw e) :: Waited delay
        :: backoffLog mult (delay * mult)%Z rest final
  end.

(** [attempt === maxAttempts] for a whole number of attempts. *)
Lemma counter_eq_whole attempt maxAttempts n :
  (maxAttempts == inject_Z n)%Q ->
  Qeq_bool (inject_Z attempt) maxAttempts = (attempt =? n)%Z.
Proof.
  intros Hwhole. destruct (Z.eqb_spec attempt n) as [->|Hne].
  - apply Qeq_bool_iff. by symmetry.
  - destruct (Qeq_bool (inject_Z attempt) maxAttempts) eqn:E; [|done].
    apply Qeq_bool_iff in E. rewrite Hwhole in E.
    by destruct (Hne (proj1 (inject_Z_injective _ _) E)).
Qed.

Lemma retryLoop_schedule (fn : Operation (W := W) (T := T)) maxAttempts n mult
    errs remaining attempt delay lastError w log :
  (maxAttempts == inject_Z n)%Q ->
  (attempt + Z.of_nat remaining = n)%Z ->
  let logged :=
    retryLoop (loggedTimeout setTimeout) (S remaining) (loggedOperation fn)
      maxAttempts mult errs attempt delay lastError (w, log) in
  exists failures,
    snd (snd logged) = log ++ backoffLog mult delay failures (fst logged)
    /\ Forall (fun e => retried errs e = true) failures
    /\ (length failures <= remaining)%nat
    /\ (length failures = remaining \/ retriedFailure errs (fst logged) = false).
Proof.
  intros Hwhole. revert attempt delay lastError w log.
  induction remaining as [|remaining IH];
    intros attempt delay lastError w log Hcount logged; subst logged;
    rewrite retryLoop_step, loggedOperation_eq,
      (counter_eq_whole _ _ _ Hwhole); cbn [fst snd].
  - exists []. destruct (fn w) as [[v|e] w1]; cbn [fst snd].
    + simpl. split; [done|]. split; [done|]. split; [done|]. by left.
    + destruct (negb _); [|replace (attempt =? n)%Z with true
                              by (symmetry; apply Z.eqb_eq; lia)];
        simpl; (split; [done|]); (split; [done|]); (split; [done|]); by left.
  - destruct (fn w) as [[v|e] w1]; cbn [fst snd].
    + exists []. simpl. split; [done|]. split; [done|]. split; [lia|].
      by right.
    + fold (retried errs e). destruct (retried errs e) eqn:R; cbn [negb].
      2: { exists []. simpl. rewrite R. split; [done|]. split; [done|].
           split; [lia|]. by right. }
      replace (attempt =? n)%Z with false
        by (symmetry; apply Z.eqb_neq; lia).
      assert (loggedTimeout setTimeout delay
                (w1, log ++ [Attempted (Throw e)])
              = (setTimeout delay w1,
                 (log ++ [Attempted (Throw e)]) ++ [Waited delay])) as ->
        by reflexivity.
      destruct (IH (attempt + 1)%Z (delay * mult)%Z (Some (parseError e))
                  (setTimeout delay w1)
                  ((log ++ [Attempted (Throw e)]) ++ [Waited delay]))
        as (failures & Hlog & Hall & Hlen & Hend); [lia|].
      exists (e :: failures). split; [|split; [|split]].
      * rewrite Hlog. rewrite <- !app_assoc. reflexivity.
      * by constructor.
      * simpl. lia.
      * destruct Hend as [Hend|Hend]; [left; simpl; lia|by right].
Qed.

(** X5: under any configuration whose [maxAttempts] is a whole number,
    one at least, [retryWithBackoff] runs the attempts one after the other:
    after each retryable failure it waits, first [delayMs] and then the
    previous delay times [backoffMultiplier], and tries again; it makes
    [maxAttempts] attempts at most, stops before that only on a success
    or on a failure that is not retryable, and ends with the outcome of
    its last attempt as the operation produced it. *)
Theorem retryWithBackoff_schedule (fn : Operation (W := W) (T := T)) config
    n w :
  (attemptsOf config == inject_Z n)%Q ->
  (1 <= n)%Z ->
  let logged :=
    retryWithBackoff (loggedTimeout setTimeout) (loggedOperation fn) config
      (w, []) in
  let outcome := fst logged in
  (outcome, fst (snd logged)) = retryWithBackoff setTimeout fn config w
  /\ exists failures,
       snd (snd logged)
       = backoffLog (multiplierOf config) (delayOf config) failures outcome
       /\ Forall (fun e => retried (retryableOf config) e = true) failures
       /\ (Z.of_nat (length failures) < n)%Z
       /\ ((Z.of_nat (length failures) = n - 1)%Z
           \/ retriedFailure (retryableOf config) outcome = false).
Proof.
  intros Hwhole Hattempts logged outcome. split.
  { apply (retryLoop_logged setTimeout). }
  subst outcome logged. unfold retryWithBackoff.
  fold (attemptsOf config) (delayOf config) (multiplierOf config)
    (retryableOf config).
  assert (Qfloor (attemptsOf config) = n) as ->
    by (rewrite Hwhole; apply Qfloor_Z).
  destruct (Z.to_nat n) as [|remaining] eqn:Hn; [lia|].
  destruct (retryLoop_schedule fn (attemptsOf config) n (multiplierOf config)
              (retryableOf config) remaining 1 (delayOf config) None w []
              Hwhole)
    as (failures & Hlog & Hall & Hlen & Hend); [lia|].
  exists failures. split; [exact Hlog|]. split; [exact Hall|].
  split; [lia|]. destruct Hend as [Hend|Hend]; [left; lia|by right].
Qed.

(** X6: with [maxAttempts] zero or negative the loop body never runs:
    the operation is not called, nothing is waited for, and the call
    throws [null] (the initial value of [lastError]). *)
Theorem retryWithBackoff_without_attempts (fn : Operation (W := W) (T := T))
    config w :
  (attemptsOf config <= 0)%Q ->
  retryWithBackoff (loggedTimeout setTimeout) (loggedOperation fn) config
    (w, [])
  = (Throw (ThrownValue JsNull), (w, []))
  /\ retryWithBackoff setTimeout fn config w = (Throw (ThrownValue JsNull), w).
Proof.
  intros Hattempts. unfold retryWithBackoff.
  fold (attemptsOf config).
  assert (Qfloor (attemptsOf config) <= 0)%Z as Hfloor.
  { rewrite Zle_Qle.
    exact (Qle_trans _ _ _ (Qfloor_le (attemptsOf config)) Hattempts). }
  replace (Z.to_nat (Qfloor (attemptsOf config))) with 0%nat by lia. done.
Qed.

End Facts.

(** An operation on a counter that fails with a 503 of the transport
    until the counter reaches 2. *)
Definition flaky : Operation (W := nat) (T := string) :=
  fun calls =>
    if (calls <? 2)%nat
    then (Throw (NetworkError WebhookClient.msgUnavailable None), S calls)
    else (Ok "done", S calls).

Definition noTimer : Z -> nat -> nat := fun _ calls => calls.

Definition patient : PartialRetryConfig :=
  PartialRetryConfig.mk (Some 5%Q) (Some 200%Z) (Some 3%Z) None.

Lemma retryWithBackoff_schedule_witness :
  (attemptsOf patient == inject_Z 5)%Q
  /\ (1 <= 5)%Z
  /\ exists failures,
       snd (snd (retryWithBackoff (loggedTimeout noTimer)
                   (loggedOperation flaky) patient (0%nat, [])))
       = backoffLog 3 200 failures (Ok "done")
       /\ (Z.of_nat (length failures) < 5)%Z.
Proof.
  assert (attemptsOf patient == inject_Z 5)%Q as Hwhole by reflexivity.
  assert (1 <= 5)%Z as Hattempts by lia.
  split; [exact Hwhole|]. split; [exact Hattempts|].
  destruct (proj2 (retryWithBackoff_schedule noTimer flaky patient 5 0%nat
                     Hwhole Hattempts))
    as (failures & Hlog & _ & Hlen & _).
  exists failures. split; [exact Hlog|exact Hlen].
Defined.

(** An operation that always fails with a 503 of the transport. *)
Definition failing : Operation (W := nat) (T := string) :=
  fun calls => (Throw (NetworkError WebhookClient.msgUnavailable None), S calls).

Definition halfway : PartialRetryConfig :=
  PartialRetryConfig.mk (Some (5 # 2)%Q) None None None.

(** With a [maxAttempts] that is no whole number the counter never equals
    it: after the last attempt within it the loop waits once more, ends,
    and throws [lastError], the record [parseError] made of the error, not
    the error of the operation. *)
Lemma retryWithBackoff_fractional_attempts :
  let e := NetworkError WebhookClient.msgUnavailable None in
  retryWithBackoff (loggedTimeout noTimer) (loggedOperation failing) halfway
    (0%nat, [])
  = (Throw (ThrownRecord (parseError e)),
     (2%nat, [Attempted (Throw e); Waited 1000;
              Attempted (Throw e); Waited 2000])).
Proof. vm_compute. reflexivity. Qed.

Definition never : PartialRetryConfig :=
  PartialRetryConfig.mk (Some 0%Q) None None None.

Lemma retryWithBackoff_without_attempts_witness :
  (attemptsOf never <= 0)%Q
  /\ retryWithBackoff (loggedTimeout noTimer) (loggedOperation flaky) never
       (0%nat, [])
     = (Throw (ThrownValue JsNull), (0%nat, [])).
Proof.
  assert (attemptsOf never <= 0)%Q as Hnone by (vm_compute; discriminate).
  split; [exact Hnone|].
  exact (proj1 (retryWithBackoff_without_attempts noTimer flaky never 0%nat
                  Hnone)).
Defined.

End RetryScheduleFacts.

(** ** More on the transport client *)

Module TransportFacts.
Import WebhookClient Errors ErrorsFacts WebhookClientFacts.

Section Facts.
Context `{Platform}.

(** What the promise that [triggerWorkflow] awaits rejects with, if it
    does: the promise of [fetch], or that of reading the body of the reply
    (as a text when the reply is not 2xx, as JSON when it is). *)
Definition rejection (client : WebhookClient) (webhookPath : string)
    (payload : JsValue) (w : World) : option JsError :=
  match answer client webhookPath payload w with
  | FetchRejected cause => Some cause
  | FetchResolved response =>
      if Response.ok response then
        match Response.json response with
        | Throw cause => Some cause
        | Ok _ => None
        end
      else
        match Response.text response with
        | Throw cause => Some cause
        | Ok _ => None
        end
  end.

(** The time the request of [triggerWorkflow] takes. *)
Definition requestTime (client : WebhookClient) (webhookPath : string)
    (payload : JsValue) (w : World) : Z :=
  elapsed (requestUrl client webhookPath) (JSON_stringify payload) w.

(** The branches of the [catch] block, one after the other. *)
Ltac handler_cases cause :=
  destruct (isWebhookError cause || isNetworkError cause) eqn:?;
  [|destruct (isTypeError cause) eqn:?;
    [|destruct (isNullishThrown cause) eqn:?;
      [|destruct (String.eqb (errorName cause) "FetchError") eqn:?]]].

(** Whatever the outcome, the world [triggerWorkflow] leaves is the one
    with the request made. *)
Lemma triggerWorkflow_world client webhookPath payload w :
  snd (triggerWorkflow client webhookPath payload w)
  = requested (requestUrl client webhookPath) (JSON_stringify payload) w.
Proof.
  unfold triggerWorkflow, tryCatch, bind, fetch, throw, liftResult.
  destruct (network _ _ _) as [cause|response]; cbn beta iota.
  - by handler_cases cause.
  - destruct (negb (Response.ok response)); cbn beta iota.
    + destruct (Response.text response) as [body|cause]; cbn beta iota.
      * destruct ((Response.status response =? 503)%Z
                  || (Response.status response =? 502)%Z); [done|].
        by destruct (Response.status response =? 404)%Z.
      * by handler_cases cause.
    + destruct (Response.json response) as [body|cause]; [done|].
      cbn beta iota. by handler_cases cause.
Qed.

(** An error of the two classes of the transport client. *)
Definition ours (e : JsError) : Prop :=
  (exists status body, e = WebhookError status body)
  \/ (exists text cause, e = NetworkError text cause).

(** What it throws is an error of its own two classes, unless the promise
    rejected with [null] or [undefined]: reading the name of that in the
    [catch] block throws a [TypeError]. *)
Lemma triggerWorkflow_throws client webhookPath payload w e :
  fst (triggerWorkflow client webhookPath payload w) = Throw e ->
  ours e
  \/ (exists v,
        rejection client webhookPath payload w = Some (ThrownValue v)
        /\ nullish v = true /\ e = cannotReadName v).
Proof.
  unfold rejection, answer, ours.
  unfold triggerWorkflow, tryCatch, bind, fetch, throw, liftResult.
  assert (forall cause e' : JsError,
            (if isWebhookError cause || isNetworkError cause
             then (Throw (A := JsValue) cause)
             else if isTypeError cause then
               Throw (NetworkError msgUnableToConnect
                        (if isErrorInstance cause then Some cause else None))
             else if isNullishThrown cause then
               Throw (cannotReadName (thrownValue cause))
             else if String.eqb (errorName cause) "FetchError" then
               Throw (NetworkError msgUnableToConnect
                        (if isErrorInstance cause then Some cause else None))
             else
               Throw (WebhookError 500
                        ("Unexpected error: " +:+ errorToString cause)))
            = Throw e' ->
            ((exists status body, e' = WebhookError status body)
             \/ (exists text c, e' = NetworkError text c))
            \/ (exists v,
                  Some cause = Some (ThrownValue v)
                  /\ nullish v = true /\ e' = cannotReadName v)) as Hcatch.
  { intros cause e'. handler_cases cause; intros [= <-]; eauto.
    - left. destruct cause; try discriminate; eauto.
    - right. destruct cause as [| | | | | | | | | | | |v|]; try discriminate.
      exists v. by split. }
  destruct (network _ _ _) as [cause|response]; cbn beta iota.
  - intros Hthrow. apply Hcatch.
    revert Hthrow. by handler_cases cause.
  - destruct (Response.ok response); cbn [negb]; cbn beta iota.
    + destruct (Response.json response) as [body|cause]; [discriminate|].
      cbn beta iota. intros Hthrow. apply Hcatch.
      revert Hthrow. by handler_cases cause.
    + destruct (Response.text response) as [body|cause]; cbn beta iota.
      * destruct ((Response.status response =? 503)%Z
                  || (Response.status response =? 502)%Z);
          [intros [= <-]; eauto|].
        destruct (Response.status response =? 404)%Z; intros [= <-]; eauto.
      * intros Hthrow. apply Hcatch.
        revert Hthrow. by handler_cases cause.
Qed.

(** X7: whatever its outcome, [triggerWorkflow] sends exactly one
    request (it never retries) and changes nothing else of the world, but
    that the time of the request has passed; with the proxy enabled the
    address requested always starts with ["/api/"]. *)
Theorem triggerWorkflow_sends_one_request client webhookPath payload w :
  let after := snd (triggerWorkflow client webhookPath payload w) in
  World.history after
  = World.history w
    ++ [EffFetch (requestUrl client webhookPath) (JSON_stringify payload)]
  /\ World.now after
     = (World.now w + requestTime client webhookPath payload w)%Z
  /\ World.heap after = World.heap w
  /\ World.registry after = World.registry w
  /\ (useProxy client = true ->
      startsWith (requestUrl client webhookPath) "/api/" = true).
Proof.
  intros after. subst after. rewrite triggerWorkflow_world.
  split; [done|]. split; [done|]. split; [done|]. split; [done|].
  intros Hproxy. unfold requestUrl. rewrite Hproxy.
  destruct (startsWith webhookPath "/api/") eqn:Hapi; [done|].
  apply (StorageServiceFacts.startsWith_app "/api/"
           ("webhook/" +:+ webhookPath)).
Qed.

(** X8: everything [triggerWorkflow] throws is a [WebhookError] or a
    [NetworkError], which is retryable under the default retry
    configuration and shown with one of the two texts of these codes; but
    for a promise that rejects with [null] or [undefined]: then the
    [catch] block itself fails with a [TypeError], which is not
    retryable. *)
Theorem triggerWorkflow_failure_is_retryable client webhookPath payload w e :
  fst (triggerWorkflow client webhookPath payload w) = Throw e ->
  (ours e
   /\ retryable e = true
   /\ (getUserFriendlyErrorMessage (parseError e)
       = FriendlyText
           "Failed to connect to the service. Please try again later."
       \/ getUserFriendlyErrorMessage (parseError e)
          = FriendlyText
              "Network connection failed. Please check your internet connection."))
  \/ (exists v,
        rejection client webhookPath payload w = Some (ThrownValue v)
        /\ nullish v = true
        /\ e = cannotReadName v
        /\ isTypeError e = true
        /\ retryable e = false).
Proof.
  intros Hthrow.
  destruct (triggerWorkflow_throws _ _ _ _ _ Hthrow)
    as [Hshape|(v & Hrej & Hnull & ->)].
  - left. split; [exact Hshape|].
    destruct Hshape as [(status & body & ->)|(text & cause & ->)].
    + split; [reflexivity|by left].
    + split; [reflexivity|by right].
  - right. exists v. by repeat (split; [done|]).
Qed.

(** X9: a reply with a 2xx status whose body is no JSON is reported as a
    [WebhookError] with status 500 (not the status of the reply), its body
    being "Unexpected error: " followed by the error of the parser. *)
Theorem triggerWorkflow_unreadable_reply client webhookPath payload w
    response cause :
  answer client webhookPath payload w = FetchResolved response ->
  Response.ok response = true ->
  Response.json response = Throw cause ->
  isWebhookError cause || isNetworkError cause = false ->
  isTypeError cause = false -> errorName cause ≠ "FetchError" ->
  isNullishThrown cause = false ->
  fst (triggerWorkflow client webhookPath payload w)
  = Throw (WebhookError 500 ("Unexpected error: " +:+ errorToString cause)).
Proof.
  intros Hanswer Hok Hjson Hours Htype Hname Hnull.
  unfold answer in Hanswer.
  unfold triggerWorkflow, tryCatch, bind, fetch, throw, liftResult.
  rewrite Hanswer. cbn beta iota. rewrite Hok, Hjson. cbn [negb].
  cbn beta iota. rewrite Hours, Htype, Hnull.
  apply String.eqb_neq in Hname. by rewrite Hname.
Qed.

End Facts.

(** A service that answers every request with a page that is no JSON. *)
Definition notJson : JsError :=
  NativeError ClsSyntaxError "SyntaxError" "Unexpected token < in JSON".

Definition garblingPlatform : Platform := {|
  URL_pathname := fun _ => None;
  JSON_stringify := fun _ => Some "{}";
  JSON_parse := fun _ => Throw notJson;
  URL_createObjectURL := fun _ => "blob:none";
  ToString := fun _ => "[object Object]";
  network := fun _ _ _ =>
    FetchResolved (Response.mk 200 (Ok "<html></html>") (Throw notJson));
  network_time := fun _ _ _ => 80%Z;
  uuid_source := fun _ => "uuid";
|}.

(** A network whose requests are rejected with [undefined]. *)
Definition rejectingPlatform : Platform := {|
  URL_pathname := fun _ => None;
  JSON_stringify := fun _ => Some "{}";
  JSON_parse := fun _ => Throw notJson;
  URL_createObjectURL := fun _ => "blob:none";
  ToString := fun _ => "undefined";
  network := fun _ _ _ => FetchRejected (ThrownValue JsUndefined);
  network_time := fun _ _ _ => 0%Z;
  uuid_source := fun _ => "uuid";
|}.

Lemma triggerWorkflow_sends_one_request_witness :
  World.history
    (snd (triggerWorkflow (H := Demo.demoPlatform) Demo.demoClient
            "veo3-video-generate" JsNull Demo.demoWorld))
  = [EffFetch "/api/webhook/veo3-video-generate" (Some "{}")].
Proof.
  exact (proj1 (triggerWorkflow_sends_one_request (H := Demo.demoPlatform)
                  Demo.demoClient "veo3-video-generate" JsNull
                  Demo.demoWorld)).
Defined.

Lemma triggerWorkflow_failure_is_retryable_witness :
  retryable (NetworkError msgUnavailable None) = true
  /\ isTypeError (cannotReadName JsUndefined) = true.
Proof.
  split.
  - destruct (triggerWorkflow_failure_is_retryable
                (H := Demo.demoPlatform) Demo.demoClient "down"
                JsNull Demo.demoWorld
                (NetworkError msgUnavailable None) eq_refl)
      as [(_ & Hretry & _)|(v & _ & _ & Hnot & _)];
      [exact Hretry|discriminate Hnot].
  - destruct (triggerWorkflow_failure_is_retryable
                (H := rejectingPlatform) Demo.demoClient "any"
                JsNull Demo.demoWorld
                (cannotReadName JsUndefined) eq_refl)
      as [([(? & ? & Hw)|(? & ? & Hn)] & _)|(v & _ & _ & _ & Htype & _)];
      [discriminate Hw|discriminate Hn|exact Htype].
Defined.

Lemma triggerWorkflow_unreadable_reply_witness :
  fst (triggerWorkflow (H := garblingPlatform) Demo.demoClient "any" JsNull
         Demo.demoWorld)
  = Throw (WebhookError 500
             "Unexpected error: SyntaxError: Unexpected token < in JSON").
Proof.
  refine (triggerWorkflow_unreadable_reply (H := garblingPlatform)
            Demo.demoClient "any" JsNull Demo.demoWorld
            (Response.mk 200 (Ok "<html></html>") (Throw notJson)) notJson
            _ _ _ _ _ _ _);
    [reflexivity|reflexivity|reflexivity|reflexivity|reflexivity|discriminate
    |reflexivity].
Defined.

End TransportFacts.

(** ** More on the registry *)

Module RegistryFacts.
Import AgentRegistry ExecutionService ExecutionServiceFacts.

Section Facts.
Context `{Platform}.
Variable agentList : list AgentConfig.

(** The agent configured under an id: the last of the list that has it. *)
Definition configured (agentId : string) : option AgentConfig :=
  last (filter (fun a => AgentConfig.id a = agentId) agentList).

(** The registry once [initialize] has run over the list. *)
Definition loaded (w : World) : Prop :=
  RegistryState.initialized (World.registry w) = true
  /\ forall agentId,
       RegistryState.agents (World.registry w) !! agentId
       = configured agentId.

Lemma registerAll_lookup_valid todo agents agentId :
  (forall a, a ∈ todo -> validateAgent a = None) ->
  snd (registerAll todo agents) !! agentId
  = match last (filter (fun a => AgentConfig.id a = agentId) todo) with
    | Some a => Some a
    | None => agents !! agentId
    end.
Proof.
  revert agents. induction todo as [|b todo IH]; intros agents Hvalid;
    simpl; [done|].
  rewrite (Hvalid b) by left.
  rewrite IH by (intros a Ha; apply Hvalid; by right).
  rewrite filter_cons.
  destruct (decide (AgentConfig.id b = agentId)) as [Hid|Hid].
  - rewrite last_cons.
    destruct (last (filter _ todo)) as [a|]; simpl; [done|].
    by rewrite Hid, lookup_insert_eq.
  - destruct (last (filter _ todo)) as [a|]; [done|].
    by rewrite lookup_insert_ne.
Qed.

Lemma initialize_loads w :
  allValid agentList ->
  World.registry w = RegistryState.initial \/ loaded w ->
  fst (initialize agentList w) = Ok tt /\ loaded (snd (initialize agentList w)).
Proof.
  intros Hvalid Hstart. unfold initialize.
  destruct Hstart as [Hinit|[Hdone Hagents]].
  - rewrite Hinit. simpl.
    pose proof (registerAll_valid agentList ∅ Hvalid) as Hok.
    pose proof (registerAll_lookup_valid agentList ∅) as Hlook.
    destruct (registerAll agentList ∅) as [[[]|e] agents]; simpl in *;
      [|discriminate].
    split; [done|]. split; [done|]. intros agentId. simpl.
    rewrite (Hlook agentId Hvalid), lookup_empty. unfold configured.
    by destruct (last _).
  - rewrite Hdone. by split.
Qed.

(** X10: when every configured agent is valid, the registry, from its
    initial state on, answers by the configuration: [getAgent] returns the
    agent configured under the id (the last one, if several share it),
    [hasAgent] says whether there is one, [getAgentOrThrow] returns it or
    throws "Agent not found"; and the registry stays loaded for the calls
    that follow. *)
Theorem registry_finds_the_configured_agent agentId w :
  allValid agentList ->
  World.registry w = RegistryState.initial \/ loaded w ->
  fst (getAgent agentList agentId w) = Ok (configured agentId)
  /\ fst (hasAgent agentList agentId w)
     = Ok (bool_decide (is_Some (configured agentId)))
  /\ fst (getAgentOrThrow agentList agentId w)
     = match configured agentId with
       | Some agent => Ok agent
       | None =>
           Throw (AgentValidationError ("Agent not found: " +:+ agentId) None)
       end
  /\ loaded (snd (getAgent agentList agentId w)).
Proof.
  intros Hvalid Hstart.
  destruct (initialize_loads w Hvalid Hstart) as [Hok Hloaded].
  unfold getAgentOrThrow, hasAgent, getAgent, bind, get, ret, throw.
  destruct (initialize agentList w) as [[[]|e] w1]; simpl in *;
    [|discriminate].
  destruct Hloaded as [Hdone Hagents]. rewrite Hagents.
  split; [done|]. split; [done|]. split; [|by split].
  by destruct (configured agentId).
Qed.

Lemma registerAll_invalid todo agents :
  (exists a, a ∈ todo /\ validateAgent a ≠ None) ->
  exists e, fst (registerAll todo agents) = Throw e.
Proof.
  revert agents. induction todo as [|b todo IH]; intros agents (a & Ha & Hbad).
  - by apply elem_of_nil in Ha.
  - simpl. destruct (validateAgent b) as [e|] eqn:Hb; [by exists e|].
    apply IH. exists a. split; [|done].
    apply elem_of_cons in Ha as [->|Ha]; [congruence|done].
Qed.

(** X11: one configured agent that fails [validateAgent] disables the
    whole registry: every lookup, of any id, throws the validation error,
    [executeAgent] fails with it for every agent, and the registry stays
    uninitialised, so that the next call fails in the same way. *)
Theorem invalid_agent_disables_the_registry client fuel agentId input w :
  (exists a, a ∈ agentList /\ validateAgent a ≠ None) ->
  RegistryState.initialized (World.registry w) = false ->
  exists msg aid,
    fst (getAgent agentList agentId w) = Throw (AgentValidationError msg aid)
    /\ fst (hasAgent agentList agentId w)
       = Throw (AgentValidationError msg aid)
    /\ fst (executeAgent agentList client fuel agentId input w)
       = Throw (AgentValidationError msg aid)
    /\ RegistryState.initialized
         (World.registry (snd (getAgent agentList agentId w))) = false.
Proof.
  intros Hbad Hfresh.
  destruct (registerAll_invalid agentList
              (RegistryState.agents (World.registry w)) Hbad) as [e He].
  destruct (registerAll_error _ _ _ He) as (msg & aid & ->).
  exists msg, aid.
  assert (initialize agentList w
          = (Throw (AgentValidationError msg aid),
             World.set_registry
               (RegistryState.mk
                  (snd (registerAll agentList
                          (RegistryState.agents (World.registry w)))) false)
               w)) as Hinit.
  { unfold initialize. rewrite Hfresh.
    destruct (registerAll agentList _) as [[[]|e] agents]; simpl in *;
      [discriminate|]. by injection He as ->. }
  assert (getAgentOrThrow agentList agentId w
          = (Throw (AgentValidationError msg aid),
             snd (initialize agentList w))) as Hget.
  { unfold getAgentOrThrow, getAgent, bind. by rewrite Hinit. }
  split; [|split; [|split]].
  - unfold getAgent, bind. by rewrite Hinit.
  - unfold hasAgent, bind. by rewrite Hinit.
  - by rewrite (executeAgent_lookup_fails _ _ _ _ _ _ _ _ Hget).
  - unfold getAgent, bind. by rewrite Hinit.
Qed.

Lemma registerAll_Ok_valid todo agents :
  fst (registerAll todo agents) = Ok tt ->
  forall a, a ∈ todo -> validateAgent a = None.
Proof.
  revert agents. induction todo as [|b todo IH]; intros agents Hok a Ha.
  - by apply elem_of_nil in Ha.
  - simpl in Hok. destruct (validateAgent b) as [e|] eqn:Hb; [discriminate|].
    apply elem_of_cons in Ha as [->|Ha]; [done|]. by eapply IH.
Qed.

(** What validation guarantees: the texts of the agent are there,
    [executeAgent] polls for the agent exactly when its [maxExecutionTime]
    is set and is a number, and the interval it polls at is positive. *)
Lemma validateAgent_fields a :
  validateAgent a = None ->
  AgentConfig.id a ≠ "" /\ AgentConfig.name a ≠ ""
  /\ AgentConfig.description a ≠ "" /\ AgentConfig.webhookUrl a ≠ ""
  /\ pollingTime a
     = (AgentConfig.settings a ≫= AgentSettings.maxExecutionTime) ≫= whole
  /\ (0 < pollingIntervalOr5000 a)%Z.
Proof.
  unfold validateAgent, pollingTime, pollingIntervalOr5000.
  destruct (String.eqb_spec (AgentConfig.id a) ""); [discriminate|].
  destruct (String.eqb_spec (AgentConfig.name a) ""); [discriminate|].
  destruct (String.eqb_spec (AgentConfig.description a) ""); [discriminate|].
  destruct (String.eqb_spec (AgentConfig.webhookUrl a) ""); [discriminate|].
  destruct (negb _ && negb _); [discriminate|].
  intros Hsettings. repeat (split; [done|]).
  destruct (AgentConfig.settings a) as [[t i r]|]; simpl in *; [|done].
  split.
  - destruct t as [[t|]|]; simpl in *; try done.
    destruct (Z.leb_spec t 0); [discriminate|].
    replace (t =? 0)%Z with false by (symmetry; apply Z.eqb_neq; lia).
    by replace (0 <? t)%Z with true by (symmetry; apply Z.ltb_lt; lia).
  - destruct (match t with Some (Whole t0) => (t0 <=? 0)%Z | _ => false end);
      [discriminate|].
    destruct i as [[i|]|]; try done.
    destruct (Z.leb_spec i 0); [discriminate|].
    by replace (i =? 0)%Z with false by (symmetry; apply Z.eqb_neq; lia).
Qed.

(** X12: an agent that the registry returns is an agent of the
    configuration with the id asked for and has passed [validateAgent]: its
    id, name, description and webhook URL are not empty; [executeAgent]
    polls for it exactly when its [maxExecutionTime] is set and is a
    number (a [maxExecutionTime] that is [NaN] passes the validation, and
    is not polled for), and the interval it polls at is positive. *)
Theorem registered_agent_is_valid agentId w agent :
  World.registry w = RegistryState.initial ->
  fst (getAgent agentList agentId w) = Ok (Some agent) ->
  agent ∈ agentList
  /\ AgentConfig.id agent = agentId
  /\ validateAgent agent = None
  /\ agentId ≠ "" /\ AgentConfig.name agent ≠ ""
  /\ AgentConfig.description agent ≠ "" /\ AgentConfig.webhookUrl agent ≠ ""
  /\ pollingTime agent
     = (AgentConfig.settings agent ≫= AgentSettings.maxExecutionTime)
       ≫= whole
  /\ (0 < pollingIntervalOr5000 agent)%Z.
Proof.
  intros Hinit Hget.
  assert (agent ∈ agentList /\ AgentConfig.id agent = agentId
          /\ validateAgent agent = None) as (Hin & Hid & Hvalid).
  { revert Hget. unfold getAgent, bind, get, ret, initialize.
    rewrite Hinit. simpl.
    pose proof (registerAll_Ok_valid agentList ∅) as Hvalid.
    pose proof (registerAll_lookup agentList ∅ agentId agent) as Hlook.
    destruct (registerAll agentList ∅) as [[[]|e] agents]; simpl in *;
      [|discriminate].
    intros [= Hagent]. destruct (Hlook Hagent) as [Hempty|[Hin Hid]].
    - by rewrite lookup_empty in Hempty.
    - split; [done|]. split; [done|]. by apply Hvalid. }
  split; [done|]. split; [done|]. split; [done|].
  rewrite <- Hid. by apply validateAgent_fields.
Qed.

End Facts.

Import Demo.

Lemma registry_finds_the_configured_agent_witness :
  fst (getAgent AGENTS "veo3-video-generator" demoWorld)
  = Ok (Some VEO3_AGENT).
Proof.
  refine (proj1 (registry_finds_the_configured_agent AGENTS
                   "veo3-video-generator" demoWorld _ _)).
  - intros a Ha. apply list_elem_of_singleton in Ha as ->. reflexivity.
  - by left.
Defined.

(** An agent without a name, after the agent of the repository. *)
Definition nameless : AgentConfig :=
  AgentConfig.mk "draft" "" "An agent still to be named" "Video"
    "/api/webhook/draft" None Inactive (InputSchema.mk InputText None None)
    (OutputSchema.mk OutVideo None) None.

Lemma invalid_agent_disables_the_registry_witness :
  exists msg aid,
    fst (getAgent [VEO3_AGENT; nameless] "veo3-video-generator" demoWorld)
    = Throw (AgentValidationError msg aid)
    /\ fst (executeAgent [VEO3_AGENT; nameless] demoClient 1
              "veo3-video-generator" demoInput demoWorld)
       = Throw (AgentValidationError msg aid).
Proof.
  destruct (invalid_agent_disables_the_registry [VEO3_AGENT; nameless]
              demoClient 1 "veo3-video-generator" demoInput demoWorld)
    as (msg & aid & Hget & _ & Hexec & _).
  - exists nameless. split; [right; left|discriminate].
  - reflexivity.
  - exists msg, aid. split; [exact Hget|exact Hexec].
Defined.

(** An agent whose [maxExecutionTime] is [NaN]. *)
Definition timeless : AgentConfig :=
  AgentConfig.mk "timeless" "Timeless" "An agent without a time" "Video"
    "/api/webhook/timeless" None Active (InputSchema.mk InputText None None)
    (OutputSchema.mk OutVideo None)
    (Some (AgentSettings.mk (Some NaN) None None)).

(** It passes the validation, and [executeAgent] does not poll for it. *)
Lemma validateAgent_NaN :
  validateAgent timeless = None /\ pollingTime timeless = None.
Proof. split; vm_compute; reflexivity. Qed.

Lemma registered_agent_is_valid_witness :
  validateAgent VEO3_AGENT = None
  /\ pollingTime VEO3_AGENT = Some 300000%Z
  /\ (0 < pollingIntervalOr5000 VEO3_AGENT)%Z.
Proof.
  destruct (registered_agent_is_valid AGENTS "veo3-video-generator" demoWorld
              VEO3_AGENT)
    as (_ & _ & Hvalid & _ & _ & _ & _ & Hpolling & Hinterval).
  - reflexivity.
  - vm_compute. reflexivity.
  - split; [exact Hvalid|]. split; [exact Hpolling|exact Hinterval].
Defined.

End RegistryFacts.

(** ** More on the orchestrator *)

Module OrchestratorFacts.
Import ExecutionService ExecutionServiceFacts.

Section Facts.
Context `{Platform}.
Variable agentList : list AgentConfig.

(** The history once [executeAgent] has drawn the id of the execution. *)
Definition historyWithId (w : World) : list Effect :=
  World.history w ++ [EffUuid (uuid_source (World.history w))].

(** The request [executeAgent] sends for an agent. *)
Definition requestOf (client : WebhookClient) (agent : AgentConfig)
    (input : ExecutionInput) : Effect :=
  EffFetch (WebhookClient.requestUrl client (webhookPathOf agent))
    (JSON_stringify (formatPayload agent input)).

(** What the network answers to it. *)
Definition answerTo (client : WebhookClient) (agent : AgentConfig)
    (input : ExecutionInput) (w : World) : FetchOutcome :=
  network (historyWithId w)
    (WebhookClient.requestUrl client (webhookPathOf agent))
    (JSON_stringify (formatPayload agent input)).

(** The outcome of [triggerWorkflow] depends on the history only. *)
Lemma triggerWorkflow_history client webhookPath payload w w' :
  World.history w = World.history w' ->
  fst (WebhookClient.triggerWorkflow client webhookPath payload w)
  = fst (WebhookClient.triggerWorkflow client webhookPath payload w').
Proof.
  intros Hh.
  unfold WebhookClient.triggerWorkflow, tryCatch, bind, fetch, throw,
    liftResult.
  rewrite Hh.
  destruct (network _ _ _) as [cause|response]; cbn beta iota.
  - repeat match goal with
           | |- context [if ?b then _ else _] => destruct b
           end; done.
  - destruct (negb (Response.ok response)); cbn beta iota.
    + destruct (Response.text response) as [body|cause]; cbn beta iota;
        repeat match goal with
               | |- context [if ?b then _ else _] => destruct b
               end; done.
    + destruct (Response.json response) as [body|cause]; [done|].
      cbn beta iota.
      repeat match goal with
             | |- context [if ?b then _ else _] => destruct b
             end; done.
Qed.

(** The instant at which the answer to the request has arrived. *)
Definition answeredAt (client : WebhookClient) (agent : AgentConfig)
    (input : ExecutionInput) (w : World) : Z :=
  (World.now w
   + Z.max 0
       (network_time (historyWithId w)
          (WebhookClient.requestUrl client (webhookPathOf agent))
          (JSON_stringify (formatPayload agent input))))%Z.

(** The execution as [createExecution] makes it. *)
Definition createdIn (w : World) (agentId : string) (input : ExecutionInput)
  : Execution :=
  Execution.mk (uuid_source (World.history w)) agentId Pending input None
    (World.now w) None None.

Lemma executeAgent_failure_run client fuel agentId input w agent w1 wc e :
  AgentRegistry.getAgentOrThrow agentList agentId w = (Ok agent, w1) ->
  World.history wc = historyWithId w ->
  fst (WebhookClient.triggerWorkflow client (webhookPathOf agent)
         (formatPayload agent input) wc) = Throw e ->
  executeAgent agentList client fuel agentId input w
  = (Throw e,
     World.mk (answeredAt client agent input w)
       (historyWithId w ++ [requestOf client agent input])
       (World.registry w1)
       (World.heap w
        ++ [Execution.mk (uuid_source (World.history w)) agentId Failed input
              None (World.now w) (Some (answeredAt client agent input w))
              (Some (mkExecutionError "EXECUTION_FAILED" (errorMessage e)
                       (Some (DetailsThrown e))))])).
Proof.
  intros Hagent Hwc Hthrow.
  pose proof (getAgentOrThrow_frame agentList agentId w) as (Hnow & Hhist & Hheap).
  rewrite Hagent in Hnow, Hhist, Hheap. simpl in Hnow, Hhist, Hheap.
  destruct w1 as [now1 hist1 reg1 heap1]. simpl in Hnow, Hhist, Hheap.
  subst now1 hist1 heap1.
  unfold executeAgent. unfold bind at 1. rewrite Hagent.
  unfold createExecution, bind, uuidv4, Date_now, alloc, read, tryCatch.
  cbn [World.heap World.set_heap World.history record World.set_history
       World.now World.registry].
  rewrite lookup_last.
  match goal with
  | |- context [WebhookClient.triggerWorkflow _ _ _ ?x] => set (wc' := x)
  end.
  assert (World.history wc' = World.history wc) as Hsame
    by (by rewrite Hwc).
  pose proof (triggerWorkflow_history client (webhookPathOf agent)
                (formatPayload agent input) wc' wc Hsame) as Hfst.
  rewrite Hthrow in Hfst.
  pose proof (TransportFacts.triggerWorkflow_world client
                (webhookPathOf agent) (formatPayload agent input) wc')
    as Hsnd.
  destruct (WebhookClient.triggerWorkflow client (webhookPathOf agent)
              (formatPayload agent input) wc') as [r w2].
  simpl in Hfst, Hsnd. subst r w2.
  pose proof (TransportFacts.triggerWorkflow_throws client
                (webhookPathOf agent) (formatPayload agent input) wc e Hthrow)
    as Hshape.
  assert (isErrorInstance e = true) as Hinst.
  { by destruct Hshape as [[(? & ? & ->)|(? & ? & ->)]|(? & _ & _ & ->)]. }
  rewrite Hinst.
  unfold update, modify, ret, throw, requested, record, elapsed. subst wc'.
  cbn [World.heap World.set_heap World.history World.set_history World.now
       World.set_now World.registry fst snd].
  rewrite !alter_last.
  reflexivity.
Qed.

(** X13: when the request fails, [executeAgent] rethrows the error of
    the transport client as it is; the execution it had created is marked
    [failed], with the error [EXECUTION_FAILED] carrying the message of
    that error and [completedAt] set (to the instant the request failed),
    but it stays in the heap: the caller gets the error only. One id was
    drawn and one request sent. *)
Theorem executeAgent_rethrows_transport_failure client fuel agentId input w
    agent w1 wc e :
  AgentRegistry.getAgentOrThrow agentList agentId w = (Ok agent, w1) ->
  World.history wc = historyWithId w ->
  fst (WebhookClient.triggerWorkflow client (webhookPathOf agent)
         (formatPayload agent input) wc) = Throw e ->
  let run := executeAgent agentList client fuel agentId input w in
  fst run = Throw e
  /\ World.heap (snd run)
     = World.heap w
       ++ [Execution.mk (uuid_source (World.history w)) agentId Failed input
             None (World.now w) (Some (answeredAt client agent input w))
             (Some (mkExecutionError "EXECUTION_FAILED" (errorMessage e)
                      (Some (DetailsThrown e))))]
  /\ World.history (snd run) = historyWithId w ++ [requestOf client agent input].
Proof.
  intros Hagent Hwc Hthrow run. subst run.
  by rewrite (executeAgent_failure_run _ _ _ _ _ _ _ _ _ Hagent Hwc Hthrow).
Qed.

(** X14: when the reply carries data, [executeAgent] returns the
    execution as [completed] with the output [parseOutput] makes of the
    data, created when the call began and completed when the answer had
    arrived, after one request and no wait. *)
Theorem executeAgent_returns_immediate_result client fuel agentId input w
    agent w1 response body output :
  AgentRegistry.getAgentOrThrow agentList agentId w = (Ok agent, w1) ->
  answerTo client agent input w = FetchResolved response ->
  Response.ok response = true ->
  Response.json response = Ok body ->
  truthy body && truthy (prop body "data") = true ->
  parseOutput (prop body "data")
    (OutputSchema.type (AgentConfig.outputSchema agent)) = Ok output ->
  let returned :=
    Execution.mk (uuid_source (World.history w)) agentId Completed input
      (Some output) (World.now w) (Some (answeredAt client agent input w))
      None in
  executeAgent agentList client fuel agentId input w
  = (Ok (Some returned),
     World.mk (answeredAt client agent input w)
       (historyWithId w ++ [requestOf client agent input])
       (World.registry w1) (World.heap w ++ [returned])).
Proof.
  intros Hagent Hnet Hok Hjson Hdata Hparse returned. subst returned.
  unfold answerTo in Hnet.
  pose proof (getAgentOrThrow_frame agentList agentId w) as (Hnow & Hhist & Hheap).
  rewrite Hagent in Hnow, Hhist, Hheap. simpl in Hnow, Hhist, Hheap.
  destruct w1 as [now1 hist1 reg1 heap1]. simpl in Hnow, Hhist, Hheap.
  subst now1 hist1 heap1.
  unfold executeAgent. unfold bind at 1. rewrite Hagent.
  unfold createExecution, bind, uuidv4, Date_now, alloc, read, tryCatch.
  cbn [World.heap World.set_heap World.history record World.set_history
       World.now World.registry].
  rewrite lookup_last.
  erewrite triggerWorkflow_ok; [|exact Hnet|exact Hok|exact Hjson].
  unfold update, modify, ret, requested, record, elapsed, liftResult.
  cbn [World.heap World.set_heap World.history World.set_history World.now
       World.set_now World.registry fst snd].
  rewrite Hdata, Hparse.
  cbn [World.heap World.set_heap World.history World.set_history World.now
       World.set_now World.registry fst snd].
  rewrite !alter_last, lookup_last.
  reflexivity.
Qed.

(** X15: when the reply carries no data and the agent has a polling
    time, [executeAgent] returns after a single wait of the polling
    interval, whatever the polling time: the execution is [processing],
    its output names the address to poll, and [completedAt] is set (to the
    instant that wait ended). One turn of the loop is enough for it. *)
Theorem executeAgent_polls_once client fuel agentId input w agent w1 response
    body maxExecutionTime :
  AgentRegistry.getAgentOrThrow agentList agentId w = (Ok agent, w1) ->
  answerTo client agent input w = FetchResolved response ->
  Response.ok response = true ->
  Response.json response = Ok body ->
  truthy body && truthy (prop body "data") = false ->
  pollingTime agent = Some maxExecutionTime ->
  let id := uuid_source (World.history w) in
  let interval := pollingIntervalOr5000 agent in
  let finished :=
    (answeredAt client agent input w + Z.max 0 interval)%Z in
  let returned :=
    Execution.mk id agentId Processing input (Some (inProgressOutput id))
      (World.now w) (Some finished) None in
  executeAgent agentList client (S fuel) agentId input w
  = (Ok (Some returned),
     World.mk finished
       (historyWithId w ++ [requestOf client agent input; EffTimer interval])
       (World.registry w1) (World.heap w ++ [returned])).
Proof.
  intros Hagent Hnet Hok Hjson Hdata Hpoll id interval finished returned.
  subst id interval finished returned. unfold answerTo in Hnet.
  assert (0 < maxExecutionTime)%Z as Hpositive.
  { revert Hpoll. unfold pollingTime.
    destruct (AgentConfig.settings agent) as [settings|]; [|discriminate].
    destruct (AgentSettings.maxExecutionTime settings) as [[t|]|];
      [|discriminate|discriminate].
    destruct (Z.ltb_spec 0 t); rewrite ?andb_false_r; [|discriminate].
    destruct (negb _); [|discriminate]. intros [= <-]. done. }
  assert (truthy (prop body "data") = false) as Hnodata.
  { destruct (truthy body) eqn:Hb; simpl in Hdata; [done|].
    by destruct body. }
  pose proof (getAgentOrThrow_frame agentList agentId w) as (Hnow & Hhist & Hheap).
  rewrite Hagent in Hnow, Hhist, Hheap. simpl in Hnow, Hhist, Hheap.
  destruct w1 as [now1 hist1 reg1 heap1]. simpl in Hnow, Hhist, Hheap.
  subst now1 hist1 heap1.
  unfold executeAgent. unfold bind at 1. rewrite Hagent.
  unfold createExecution, bind, uuidv4, Date_now, alloc, read, tryCatch.
  cbn [World.heap World.set_heap World.history record World.set_history
       World.now World.registry].
  rewrite lookup_last.
  erewrite triggerWorkflow_ok; [|exact Hnet|exact Hok|exact Hjson].
  unfold update, modify, ret, requested, record, elapsed.
  cbn [World.heap World.set_heap World.history World.set_history World.now
       World.set_now World.registry fst snd].
  rewrite Hdata, Hpoll.
  cbn [from_option default Execution.id].
  rewrite (pollForResult_no_data fuel _ _ _ _ _ Hnodata Hpositive).
  unfold setTimeout, record.
  cbn [World.heap World.set_heap World.history World.set_history World.now
       World.set_now World.registry fst snd PollResult.output
       PollResult.status PollResult.error].
  rewrite !alter_last, lookup_last. unfold historyWithId, requestOf, answeredAt.
  rewrite <- !app_assoc. reflexivity.
Qed.

End Facts.
Import Demo.

(** An agent whose webhook is out of service. *)
Definition unreachableAgent : AgentConfig :=
  AgentConfig.mk "veo3-down" "VEO3 Video Generator"
    "Generate high-quality videos from text prompts" "Video"
    "/api/webhook/down" (Some CatVideo) Active
    (InputSchema.mk InputText None None)
    (OutputSchema.mk OutVideo (Some "mp4")) None.

Lemma executeAgent_rethrows_transport_failure_witness :
  let run :=
    executeAgent [unreachableAgent] demoClient 1 "veo3-down" demoInput
      demoWorld in
  fst run = Throw (NetworkError WebhookClient.msgUnavailable None)
  /\ Execution.status <$> World.heap (snd run) = [Failed].
Proof.
  destruct (executeAgent_rethrows_transport_failure [unreachableAgent]
              demoClient 1 "veo3-down" demoInput demoWorld unreachableAgent
              (snd (AgentRegistry.getAgentOrThrow [unreachableAgent]
                      "veo3-down" demoWorld))
              (World.set_history (historyWithId demoWorld) demoWorld)
              (NetworkError WebhookClient.msgUnavailable None))
    as (Hthrown & Hheap & _);
    [vm_compute; reflexivity|reflexivity|vm_compute; reflexivity|].
  split; [exact Hthrown|]. cbv zeta. rewrite Hheap. reflexivity.
Defined.

(** A service that answers with the address of the video at once. *)
Definition videoReply : JsValue :=
  JsObject [("status", JsString "completed");
            ("data", JsString "https://cdn.example/clip.mp4")].

Definition answeringPlatform : Platform := {|
  URL_pathname := fun _ => None;
  JSON_stringify := fun _ => Some "{}";
  JSON_parse := fun _ =>
    Throw (NativeError ClsSyntaxError "SyntaxError" "Unexpected token");
  URL_createObjectURL := fun _ => "blob:none";
  ToString := fun _ => "[object Object]";
  network := fun _ _ _ => FetchResolved (okResponse videoReply);
  network_time := fun _ _ _ => 350%Z;
  uuid_source := fun history => "uuid-" +:+ pretty (length history);
|}.

Lemma executeAgent_returns_immediate_result_witness :
  fst (executeAgent (H := answeringPlatform) AgentRegistry.AGENTS demoClient 1
         "veo3-video-generator" demoInput demoWorld)
  = Ok (Some (Execution.mk "uuid-0" "veo3-video-generator" Completed demoInput
                (Some (ExecutionOutput.mk OutVideo
                         (JsString "https://cdn.example/clip.mp4")
                         JsUndefined))
                1700000000000 (Some 1700000000350%Z) None)).
Proof.
  refine (f_equal fst
            (executeAgent_returns_immediate_result (H := answeringPlatform)
               AgentRegistry.AGENTS demoClient 1 "veo3-video-generator"
               demoInput demoWorld AgentRegistry.VEO3_AGENT
               (snd (AgentRegistry.getAgentOrThrow (H := answeringPlatform)
                       AgentRegistry.AGENTS "veo3-video-generator" demoWorld))
               (okResponse videoReply) videoReply
               (ExecutionOutput.mk OutVideo
                  (JsString "https://cdn.example/clip.mp4") JsUndefined)
               _ _ _ _ _ _));
    vm_compute; reflexivity.
Defined.

Lemma executeAgent_polls_once_witness :
  fst (executeAgent AgentRegistry.AGENTS demoClient 1 "veo3-video-generator"
         demoInput demoWorld)
  = Ok (Some (Execution.mk "uuid-0" "veo3-video-generator" Processing
                demoInput (Some (inProgressOutput "uuid-0")) 1700000000000
                (Some 1700000005120%Z) None)).
Proof.
  refine (f_equal fst
            (executeAgent_polls_once AgentRegistry.AGENTS demoClient 0
               "veo3-video-generator" demoInput demoWorld
               AgentRegistry.VEO3_AGENT
               (snd (AgentRegistry.getAgentOrThrow AgentRegistry.AGENTS
                       "veo3-video-generator" demoWorld))
               (okResponse (JsObject [("status", JsString "accepted")]))
               (JsObject [("status", JsString "accepted")]) 300000
               _ _ _ _ _ _));
    vm_compute; reflexivity.
Defined.

End OrchestratorFacts.

(** ** The payload sent and the output parsed *)

Module PayloadFacts.
Import ExecutionService.

#[local] Instance OutputSchemaType_eq_dec : EqDecision OutputSchemaType.
Proof. solve_decision. Defined.

Lemma props_get_absent {A} (o : list (string * A)) k :
  k ∉ o.*1 -> props_get o k = None.
Proof.
  induction o as [|[k0 v0] o IH]; csimpl; [done|].
  intros Hk. apply not_elem_of_cons in Hk as [Hne Hk].
  destruct (String.eqb_spec k0 k); [congruence|by apply IH].
Qed.

Lemma isInherited_proto k : isInherited k = false -> k ≠ "__proto__".
Proof. intros Hk ->. vm_compute in Hk. discriminate Hk. Qed.

(** An assignment under another name than [__proto__]. *)
Lemma props_get_put (o : Built) k' v k :
  k ≠ "__proto__" ->
  props_get (built_props (put o k' v)) k
  = if String.eqb k' k then Some v else props_get (built_props o) k.
Proof.
  intros Hproto. unfold put.
  destruct (String.eqb_spec k' k) as [->|Hk].
  - rewrite (proj2 (String.eqb_neq _ _) Hproto). cbn [andb built_props].
    by rewrite props_get_set_eq.
  - destruct (String.eqb k' "__proto__" && built_setter o).
    + by destruct v.
    + cbn [built_props]. by rewrite props_get_set_ne.
Qed.

(** [Object.assign]: the source wins, the rest of the target stays. *)
Lemma props_get_assign (target : Built) (source : JsProps) k :
  NoDup source.*1 ->
  k ≠ "__proto__" ->
  props_get (built_props (assign target source)) k
  = match props_get source k with
    | Some v => Some v
    | None => props_get (built_props target) k
    end.
Proof.
  intros Hnd Hproto. unfold assign. revert target Hnd.
  induction source as [|[k0 v0] source IH]; intros target Hnd; csimpl; [done|].
  apply NoDup_cons in Hnd as [Hk0 Hnd]. rewrite (IH _ Hnd).
  rewrite (props_get_put _ _ _ _ Hproto).
  destruct (String.eqb_spec k0 k) as [->|Hne]; [|done].
  by rewrite (props_get_absent source k Hk0).
Qed.

Lemma props_get_assign_absent (target : Built) (source : JsProps) k :
  k ≠ "__proto__" ->
  k ∉ source.*1 ->
  props_get (built_props (assign target source)) k
  = props_get (built_props target) k.
Proof.
  intros Hproto. unfold assign. revert target.
  induction source as [|[k0 v0] source IH]; intros target Hk; csimpl; [done|].
  apply not_elem_of_cons in Hk as [Hne Hk].
  rewrite (IH _ Hk), (props_get_put _ _ _ _ Hproto).
  by destruct (String.eqb_spec k0 k).
Qed.

(** X16: every parameter of the input, but one named [__proto__], is in
    the payload under its name with its value, whatever the schema of the
    agent: the parameters are assigned last, so they replace the prompt
    and the fields of the form of the same name (a parameter [null]
    replaces the default of a field). *)
Theorem formatPayload_parameters_win agent input parameters k v :
  ExecutionInput.parameters input = Some parameters ->
  NoDup parameters.*1 ->
  k ≠ "__proto__" ->
  props_get parameters k = Some v ->
  prop (formatPayload agent input) k = v.
Proof.
  intros Hps Hnd Hproto Hk. unfold formatPayload. rewrite Hps.
  cbn [prop]. by rewrite (props_get_assign _ _ _ Hnd Hproto), Hk.
Qed.

(** The input gives a parameter of the name. *)
Definition given (input : ExecutionInput) (k : string) : Prop :=
  exists parameters,
    ExecutionInput.parameters input = Some parameters /\ k ∈ parameters.*1.

(** Where the input gives no parameter of the name, the parameters are
    read for the member they inherit. *)
Lemma parameter_not_given input k :
  ~ given input k ->
  parameter input k
  = match ExecutionInput.parameters input with
    | Some _ => inheritedMember k
    | None => JsUndefined
    end.
Proof.
  intros Hno. unfold parameter, member.
  destruct (ExecutionInput.parameters input) as [ps|] eqn:Hps; [|done].
  rewrite props_get_absent; [done|].
  intros Hin. apply Hno. by exists ps.
Qed.

Lemma inheritedMember_plain k :
  isInherited k = false -> inheritedMember k = JsUndefined.
Proof.
  intros Hk. unfold inheritedMember.
  destruct (String.eqb_spec k "__proto__") as [->|Hne].
  - vm_compute in Hk. discriminate Hk.
  - by rewrite Hk.
Qed.

Lemma fields_fold_get input (fields : list FormField) (payload : Built) k :
  k ≠ "__proto__" ->
  props_get
    (built_props
       (fold_left
          (fun payload field =>
             let given := parameter input (FormField.name field) in
             let value :=
               if nullish given then FormField.defaultValue field else given in
             put payload (FormField.name field) value)
          fields payload)) k
  = match last (filter (fun f => FormField.name f = k) fields) with
    | Some field =>
        Some (if nullish (parameter input (FormField.name field))
              then FormField.defaultValue field
              else parameter input (FormField.name field))
    | None => props_get (built_props payload) k
    end.
Proof.
  intros Hproto.
  revert payload. induction fields as [|f fields IH]; intros payload; simpl;
    [done|].
  rewrite IH, filter_cons, (props_get_put _ _ _ _ Hproto).
  destruct (decide (FormField.name f = k)) as [Hk|Hk].
  - rewrite last_cons.
    destruct (last (filter _ fields)) as [g|]; simpl; [done|].
    by rewrite Hk, String.eqb_refl.
  - destruct (last (filter _ fields)) as [g|]; [done|].
    by destruct (String.eqb_spec (FormField.name f) k).
Qed.

Lemma last_filter_name (fields : list FormField) field :
  NoDup (FormField.name <$> fields) -> field ∈ fields ->
  last (filter (fun f => FormField.name f = FormField.name field) fields)
  = Some field.
Proof.
  induction fields as [|f fields IH]; csimpl; intros Hnd Hin.
  - by apply elem_of_nil in Hin.
  - apply NoDup_cons in Hnd as [Hf Hnd]. rewrite filter_cons.
    apply elem_of_cons in Hin as [->|Hin].
    + rewrite decide_True by done. rewrite last_cons.
      destruct (last (filter _ fields)) as [g|] eqn:Hg; [|done].
      apply last_Some_elem_of, list_elem_of_filter in Hg as [Hname Hg].
      destruct Hf. rewrite <- Hname. apply list_elem_of_fmap. by exists g.
    + rewrite decide_False; [by apply IH|].
      intros Hname. apply Hf. rewrite Hname. apply list_elem_of_fmap.
      by exists field.
Qed.

(** X17: for an agent with a form, a field for which the input gives no
    parameter, and whose name is not that of a member of
    [Object.prototype], is sent with its default value (unless the field
    is named "prompt" and the input has a prompt). *)
Theorem formatPayload_form_default agent input fields field :
  InputSchema.type (AgentConfig.inputSchema agent) = InputForm ->
  InputSchema.fields (AgentConfig.inputSchema agent) = Some fields ->
  NoDup (FormField.name <$> fields) ->
  field ∈ fields ->
  ~ given input (FormField.name field) ->
  isInherited (FormField.name field) = false ->
  (FormField.name field = "prompt" -> truthy (promptValue input) = false) ->
  prop (formatPayload agent input) (FormField.name field)
  = FormField.defaultValue field.
Proof.
  intros Hform Hfields Hnd Hin Hnot Hplain Hprompt.
  pose proof (isInherited_proto _ Hplain) as Hproto.
  unfold formatPayload. rewrite Hform, Hfields.
  assert (forall payload : Built,
            props_get
              (built_props
                 match ExecutionInput.parameters input with
                 | Some ps => assign payload ps
                 | None => payload
                 end) (FormField.name field)
            = props_get (built_props payload) (FormField.name field))
    as Hassign.
  { intros payload.
    destruct (ExecutionInput.parameters input) as [ps|] eqn:Hps; [|done].
    apply props_get_assign_absent; [done|].
    intros Hk. apply Hnot. by exists ps. }
  unfold prop. rewrite Hassign.
  assert (forall payload : Built,
            props_get (built_props (withPrompt input payload))
              (FormField.name field)
            = props_get (built_props payload) (FormField.name field))
    as Hwith.
  { intros payload. unfold withPrompt.
    destruct (truthy (promptValue input)) eqn:Ht; [|done].
    rewrite (props_get_put _ _ _ _ Hproto).
    destruct (String.eqb_spec "prompt" (FormField.name field)) as [Hname|];
      [|done].
    symmetry in Hname. specialize (Hprompt Hname). congruence. }
  rewrite Hwith, fields_fold_get, (last_filter_name _ _ Hnd Hin) by done.
  rewrite (parameter_not_given _ _ Hnot), (inheritedMember_plain _ Hplain).
  by destruct (ExecutionInput.parameters input).
Qed.

Section Output.
Context `{Platform}.

(** X18: [parseOutput] throws for the output type [json] only, and then
    what [JSON.parse] throws on data that is no object; for the other
    types it returns an output whatever the data, and an output returned
    has the type asked for. *)
Theorem parseOutput_fails_only_on_json data outputType :
  (outputType ≠ OutJson -> exists output, parseOutput data outputType = Ok output)
  /\ (forall output,
        parseOutput data outputType = Ok output ->
        ExecutionOutput.type output = outputType)
  /\ (forall e,
        parseOutput data outputType = Throw e ->
        outputType = OutJson /\ isObjectType data = false
        /\ JSON_parse data = Throw e).
Proof.
  assert (forall t, t ≠ OutJson ->
            exists output,
              parseOutput data t = Ok output
              /\ ExecutionOutput.type output = t) as Hmedia.
  { intros t Ht. unfold parseOutput.
    destruct t; try done;
      repeat match goal with
             | |- context [if ?b then _ else _] => destruct b
             | |- context [match ?d with JsBlob _ _ => _ | _ => _ end] =>
                 destruct d
             end; eauto. }
  destruct (decide (outputType = OutJson)) as [->|Hother].
  - unfold parseOutput. split; [done|]. split.
    + intros output. destruct (isObjectType data); [by intros [= <-]|].
      destruct (JSON_parse data); [by intros [= <-]|discriminate].
    + intros e. destruct (isObjectType data) eqn:Hobj; [discriminate|].
      destruct (JSON_parse data); [discriminate|]. by intros [= <-].
  - destruct (Hmedia outputType Hother) as (output & Hparse & Htype).
    split; [by exists output|]. rewrite Hparse. split.
    + by intros ? [= <-].
    + discriminate.
Qed.

(** The fields of the metadata that [parseOutput] takes from the top level
    of a reply that has a [url]. *)
Definition topLevelFields : list string :=
  ["filename"; "fileSize"; "duration"; "resolution"; "description"].

(** X19: for a video or an image, a reply that has a [url] gives the url
    as data; in the metadata the five fields [filename], [fileSize],
    [duration], [resolution] and [description] come from the top level of
    the reply, also when they are undefined there and defined in the
    metadata of the reply; the other fields of that metadata are kept. *)
Theorem parseOutput_url_reply data outputType :
  outputType = OutVideo \/ outputType = OutImage ->
  isString data = false ->
  truthy (prop data "url") = true ->
  exists metadata,
    parseOutput data outputType
    = Ok (ExecutionOutput.mk outputType (prop data "url") (JsObject metadata))
    /\ props_get metadata "filename"
       = Some (or_else (prop data "filename") (prop data "name"))
    /\ props_get metadata "fileSize"
       = Some (or_else (prop data "fileSize") (prop data "size"))
    /\ props_get metadata "duration" = Some (prop data "duration")
    /\ props_get metadata "resolution" = Some (prop data "resolution")
    /\ props_get metadata "description" = Some (prop data "description")
    /\ forall k, k ∉ topLevelFields ->
         props_get metadata k = props_get (spread (prop data "metadata")) k.
Proof.
  intros Hmedia Hstring Hurl. eexists.
  split.
  { unfold parseOutput. rewrite Hstring, Hurl.
    by destruct Hmedia as [-> | ->]. }
  repeat (split;
          [repeat (first [rewrite props_get_set_eq; reflexivity
                         |rewrite props_get_set_ne by discriminate])|]).
  intros k Hk. unfold topLevelFields in Hk.
  repeat (apply not_elem_of_cons in Hk as [? Hk]).
  by rewrite !props_get_set_ne by done.
Qed.

(** *** The path of the webhook *)

Lemma startsWith_slash c s :
  startsWith (String c s) "/" = Ascii.eqb c "/".
Proof.
  cbn [startsWith]. rewrite (Ascii.eqb_sym "/" c).
  by destruct (Ascii.eqb c "/").
Qed.

Lemma stripLeadingSlashes_no_slash s :
  startsWith (stripLeadingSlashes s) "/" = false.
Proof.
  induction s as [|c s IH]; [done|].
  cbn [stripLeadingSlashes].
  destruct (Ascii.eqb c "/") eqn:Hc; [done|].
  by rewrite startsWith_slash.
Qed.

Lemma stripLeadingSlashes_id s :
  startsWith s "/" = false -> stripLeadingSlashes s = s.
Proof.
  destruct s as [|c s]; [done|].
  rewrite startsWith_slash. cbn [stripLeadingSlashes]. by intros ->.
Qed.

(** X20: the path [extractWebhookPath] returns never starts with a
    slash; it is what follows ["/webhook/"] in the path of the address (or
    in the address itself, when it is no URL); and a client with the proxy
    enabled requests it under ["/api/webhook/"]. *)
Theorem extractWebhookPath_gives_relative_path (client : WebhookClient)
    webhookUrl :
  let path := extractWebhookPath webhookUrl in
  startsWith path "/" = false
  /\ (forall rest,
        default webhookUrl (URL_pathname webhookUrl) = "/webhook/" +:+ rest ->
        startsWith rest "/" = false -> path = rest)
  /\ (WebhookClient.useProxy client = true ->
      WebhookClient.requestUrl client path = "/api/webhook/" +:+ path).
Proof.
  intros path. subst path.
  assert (extractWebhookPath webhookUrl
          = stripLeadingSlashes
              (stripPrefix "/webhook/"
                 (default webhookUrl (URL_pathname webhookUrl)))) as Hpath.
  { unfold extractWebhookPath. by destruct (URL_pathname webhookUrl). }
  assert (startsWith (extractWebhookPath webhookUrl) "/" = false) as Hrel.
  { rewrite Hpath. apply stripLeadingSlashes_no_slash. }
  split; [exact Hrel|]. split.
  - intros rest Hname Hrest. rewrite Hpath, Hname.
    unfold stripPrefix.
    rewrite (StorageServiceFacts.startsWith_app "/webhook/" rest).
    rewrite (StorageServiceFacts.dropChars_app "/webhook/" rest).
    by apply stripLeadingSlashes_id.
  - intros Hproxy. unfold WebhookClient.requestUrl. rewrite Hproxy.
    assert (startsWith (extractWebhookPath webhookUrl) "/api/" = false) as ->;
      [|done].
    revert Hrel. generalize (extractWebhookPath webhookUrl).
    intros [|c s]; [done|]. rewrite startsWith_slash. cbn [startsWith].
    rewrite (Ascii.eqb_sym "/" c). by intros ->.
Qed.

End Output.

Import Demo.

Definition landscape : ExecutionInput :=
  ExecutionInput.mk (Some "a red fox")
    (Some [("aspectRatio", JsString "16:9"); ("prompt", JsNull)]).

Lemma formatPayload_parameters_win_witness :
  prop (formatPayload AgentRegistry.VEO3_AGENT landscape) "prompt" = JsNull.
Proof.
  refine (formatPayload_parameters_win AgentRegistry.VEO3_AGENT landscape
            [("aspectRatio", JsString "16:9"); ("prompt", JsNull)] "prompt"
            JsNull _ _ _ _);
    [reflexivity| |discriminate|reflexivity].
  simpl. apply NoDup_cons. split.
  - intros Hin. apply list_elem_of_singleton in Hin. discriminate.
  - apply NoDup_singleton.
Defined.

(** A parameter named [__proto__] is assigned through the setter that the
    payload inherits: the payload has no property of that name. *)
Lemma formatPayload_proto_parameter :
  formatPayload AgentRegistry.VEO3_AGENT
    (ExecutionInput.mk (Some "a red fox")
       (Some [("__proto__", JsObject [("seed", JsNumber 7)])]))
  = JsObject [("prompt", JsString "a red fox")].
Proof. vm_compute. reflexivity. Qed.

(** A form with a field for the length of the clip. *)
Definition durationField : FormField :=
  FormField.mk "durationSeconds" "Duration" FieldNumber (JsNumber 5) None None.

Definition formAgent : AgentConfig :=
  AgentConfig.mk "clip-form" "Clip" "Clips from a form" "Video"
    "/api/webhook/clip" None Active
    (InputSchema.mk InputForm (Some [durationField]) None)
    (OutputSchema.mk OutVideo None) None.

Lemma formatPayload_form_default_witness :
  prop (formatPayload formAgent demoInput) "durationSeconds" = JsNumber 5.
Proof.
  refine (formatPayload_form_default formAgent demoInput [durationField]
            durationField _ _ _ _ _ _ _);
    [reflexivity|reflexivity| | | |reflexivity|discriminate].
  - simpl. apply NoDup_singleton.
  - left.
  - intros (parameters & Hps & _). discriminate Hps.
Defined.

Definition urlReply : JsValue :=
  JsObject [("url", JsString "https://cdn.example/clip.mp4");
            ("metadata", JsObject [("description", JsString "A fox");
                                   ("seed", JsNumber 7)])].

Lemma parseOutput_url_reply_witness :
  exists metadata,
    parseOutput urlReply OutVideo
    = Ok (ExecutionOutput.mk OutVideo (JsString "https://cdn.example/clip.mp4")
            (JsObject metadata))
    /\ props_get metadata "description" = Some JsUndefined
    /\ props_get metadata "seed" = Some (JsNumber 7).
Proof.
  destruct (parseOutput_url_reply urlReply OutVideo)
    as (metadata & Hparse & _ & _ & _ & _ & Hdescription & Hrest);
    [by left|reflexivity|reflexivity|].
  exists metadata. split; [exact Hparse|]. split; [exact Hdescription|].
  rewrite Hrest; [reflexivity|].
  unfold topLevelFields. intros Hin.
  repeat (apply elem_of_cons in Hin as [Hin|Hin]; [discriminate|]).
  by apply elem_of_nil in Hin.
Defined.

Lemma extractWebhookPath_gives_relative_path_witness :
  extractWebhookPath "http://localhost:5678/webhook/veo3-video-generate"
  = "veo3-video-generate"
  /\ WebhookClient.requestUrl demoClient
       (extractWebhookPath "http://localhost:5678/webhook/veo3-video-generate")
     = "/api/webhook/"
       +:+ extractWebhookPath
             "http://localhost:5678/webhook/veo3-video-generate".
Proof.
  destruct (extractWebhookPath_gives_relative_path demoClient
              "http://localhost:5678/webhook/veo3-video-generate")
    as (_ & Hpath & Hurl).
  split.
  - apply Hpath; reflexivity.
  - apply Hurl. reflexivity.
Defined.

End PayloadFacts.

(** ** More on the persistence layer *)

Module StorageFurtherFacts.
Import StorageService StorageServiceFacts JsonFacts.

Section Facts.
Variable jsonLength : Stored.Execution -> nat.

#[local] Arguments startsWith : simpl never.
#[local] Arguments stripPrefix : simpl never.
#[local] Arguments getExecutionKey : simpl never.

Abbreviation used := (used jsonLength).
Abbreviation isAvailable := (isAvailable jsonLength).
Abbreviation loadExecutions := (loadExecutions jsonLength).
Abbreviation saveExecutions := (saveExecutions jsonLength).
Abbreviation clearExecutions := (clearExecutions jsonLength).
Abbreviation clearAllExecutions := (clearAllExecutions jsonLength).
Abbreviation clearAll := (clearAll jsonLength).
Abbreviation getAgentIdsWithExecutions :=
  (getAgentIdsWithExecutions jsonLength).
Abbreviation ready := (ready jsonLength).
Abbreviation fits := (fits jsonLength).

(** After the write there is still room for the probe of [isAvailable]. *)
Definition leavesRoom (key : string) (value : StoredValue)
    (ls : LocalStorage) : Prop :=
  used (<[key := value]> (LocalStorage.items ls)) + 20
  <= LocalStorage.quota ls.

Lemma leavesRoom_fits key value ls :
  leavesRoom key value ls -> fits key value ls = true.
Proof. unfold leavesRoom, StorageServiceFacts.fits. intros. apply Nat.leb_le. lia. Qed.

Lemma ready_written agentId value ls :
  ready ls -> leavesRoom (getExecutionKey agentId) value ls ->
  ready (written (getExecutionKey agentId) value ls).
Proof.
  intros (Hwin & Htest & _) Hroom. unfold written. repeat split; simpl.
  - done.
  - rewrite lookup_insert_ne; [done|apply getExecutionKey_not_testKey].
  - exact Hroom.
Qed.

Lemma saveExecutions_with_room agentId executions ls :
  ready ls ->
  leavesRoom (getExecutionKey agentId)
    (SVExecutions (toStored <$> take 50 executions)) ls ->
  saveExecutions agentId executions ls
  = (Ok tt,
     written (getExecutionKey agentId)
       (SVExecutions (toStored <$> take 50 executions)) ls)
  /\ ready (written (getExecutionKey agentId)
              (SVExecutions (toStored <$> take 50 executions)) ls).
Proof.
  intros Hready Hroom.
  rewrite (saveExecutions_available _ _ _ _ _ (isAvailable_ready _ _ Hready)).
  rewrite (leavesRoom_fits _ _ _ Hroom).
  split; [done|]. by apply ready_written.
Qed.

(** What the JSON text keeps of an execution as it is. *)
Definition sameRecord (e e' : Execution) : Prop :=
  Execution.id e' = Execution.id e
  /\ Execution.agentId e' = Execution.agentId e
  /\ Execution.status e' = Execution.status e
  /\ Execution.createdAt e' = Execution.createdAt e
  /\ Execution.completedAt e' = Execution.completedAt e
  /\ ExecutionInput.prompt (Execution.input e')
     = ExecutionInput.prompt (Execution.input e).

Lemma written_twice key value ls :
  written key value (written key value ls) = written key value ls.
Proof.
  unfold written. destruct ls as [win quota items]. simpl.
  unfold LocalStorage.set_items. simpl. f_equal. apply insert_insert_eq.
Qed.

(** X21: when the storage is available and has room left after the
    write, [loadExecutions] returns for the agent the fifty first of the
    executions saved, each as it comes out of its JSON text: with the id,
    the agent, the status, the dates and the prompt it had, and with the
    values of its parameters, output and error details as JSON keeps
    them. Saving what was loaded leaves the storage as it is, and the
    histories of the other agents are not touched. *)
Theorem saveExecutions_loadExecutions_round_trip agentId executions ls :
  ready ls ->
  leavesRoom (getExecutionKey agentId)
    (SVExecutions (toStored <$> take 50 executions)) ls ->
  let saved := saveExecutions agentId executions ls in
  let loaded := fst (loadExecutions agentId (snd saved)) in
  fst saved = Ok tt
  /\ loaded = throughJson <$> take 50 executions
  /\ Forall2 sameRecord (take 50 executions) loaded
  /\ saveExecutions agentId loaded (snd saved) = (Ok tt, snd saved)
  /\ forall other,
       other ≠ agentId ->
       fst (loadExecutions other (snd saved)) = fst (loadExecutions other ls).
Proof.
  intros Hready Hroom saved loaded. subst loaded saved.
  destruct (saveExecutions_with_room _ _ _ Hready Hroom) as [-> Hafter].
  cbn [fst snd]. rewrite (loadExecutions_ready _ _ _ Hafter). cbn [fst].
  rewrite storedHistory_saved.
  split; [done|]. split; [done|]. split; [|split].
  - apply Forall2_fmap_r, Forall_Forall2_diag, Forall_forall.
    intros e _. by repeat split.
  - assert (toStored <$> take 50 (throughJson <$> take 50 executions)
            = toStored <$> take 50 executions) as Hsame.
    { rewrite <- fmap_take, take_take, Nat.min_id.
      rewrite <- list_fmap_compose. apply list_fmap_ext.
      intros i e _. apply toStored_revive. }
    destruct (saveExecutions_with_room agentId
                (throughJson <$> take 50 executions) _ Hafter) as [-> _].
    + rewrite Hsame. unfold leavesRoom, written. cbn [LocalStorage.items
        LocalStorage.quota LocalStorage.set_items].
      rewrite insert_insert_eq. exact Hroom.
    + by rewrite Hsame, written_twice.
  - intros other Hother.
    rewrite (loadExecutions_ready _ _ _ Hafter),
      (loadExecutions_ready _ _ _ Hready). simpl.
    unfold storedHistory, written. simpl.
    rewrite lookup_insert_ne; [done|].
    intros Heq. by apply getExecutionKey_inj in Heq.
Qed.

(** There is no room for the probe of [isAvailable]. *)
Definition withoutRoom (ls : LocalStorage) : Prop :=
  LocalStorage.hasWindow ls = false
  \/ LocalStorage.quota ls
     < used (delete testKey (LocalStorage.items ls)) + 20.

Lemma isAvailable_withoutRoom ls :
  withoutRoom ls -> isAvailable ls = (false, ls).
Proof.
  intros Hcase. unfold StorageService.isAvailable.
  destruct (LocalStorage.hasWindow ls) eqn:Hwin; simpl; [|done].
  destruct Hcase as [?|Hfull]; [congruence|].
  unfold setItem.
  destruct (_ <=? _)%nat eqn:Hfit; [|done].
  apply Nat.leb_le in Hfit. exfalso.
  rewrite used_insert in Hfit. unfold entryLength in Hfit. simpl in Hfit.
  lia.
Qed.

(** X22: when there is no [window], or fewer than twenty characters of
    the quota are free (the probe of [isAvailable] cannot be written), the
    persistence layer does nothing at all: loading returns the empty list
    though a history is stored, saving and clearing leave the storage as
    it is, and none of them throws. *)
Theorem storage_without_room_is_inert agentId executions ls :
  withoutRoom ls ->
  loadExecutions agentId ls = ([], ls)
  /\ saveExecutions agentId executions ls = (Ok tt, ls)
  /\ clearExecutions agentId ls = ls
  /\ clearAllExecutions ls = ls
  /\ clearAll ls = ls
  /\ getAgentIdsWithExecutions ls = ([], ls).
Proof.
  intros Hfull. pose proof (isAvailable_withoutRoom ls Hfull) as Hav.
  unfold StorageService.loadExecutions, StorageService.saveExecutions,
    StorageService.clearExecutions, StorageService.clearAllExecutions,
    StorageService.clearAll, StorageService.getAgentIdsWithExecutions.
  by rewrite Hav.
Qed.

(** *** Clearing *)



(** The keys found with a prefix are the stored keys that have it. *)
Lemma elem_of_prefixed_keys prefix ls k :
  k ∈ List.filter (fun key => startsWith key prefix) (keys ls)
  <-> startsWith k prefix = true /\ is_Some (LocalStorage.items ls !! k).
Proof.
  rewrite list_elem_of_In, filter_In, <- list_elem_of_In. unfold keys.
  rewrite list_elem_of_fmap. split.
  - intros [([k' v] & -> & Hin) Hpre]. split; [done|].
    apply elem_of_map_to_list in Hin. by exists v.
  - intros [Hpre [v Hv]]. split; [|done].
    exists (k, v). split; [done|]. by apply elem_of_map_to_list.
Qed.





Lemma NoDup_List_filter {A} (f : A -> bool) (l : list A) :
  NoDup l -> NoDup (List.filter f l).
Proof.
  induction l as [|x l IH]; simpl; [done|].
  intros Hnd. apply NoDup_cons in Hnd as [Hx Hnd].
  destruct (f x); [|by apply IH].
  apply NoDup_cons. split; [|by apply IH].
  intros Hin. apply Hx. apply list_elem_of_In, filter_In in Hin as [Hin _].
  by apply list_elem_of_In.
Qed.

(** X25: on an available storage [getAgentIdsWithExecutions] lists the
    agents that have a key in the storage, each of them once. *)
Theorem getAgentIdsWithExecutions_lists_stored_agents ls :
  ready ls ->
  let agentIds := fst (getAgentIdsWithExecutions ls) in
  (forall agentId,
     agentId ∈ agentIds
     <-> is_Some (LocalStorage.items ls !! getExecutionKey agentId))
  /\ NoDup agentIds.
Proof.
  intros Hready agentIds. subst agentIds.
  rewrite (getAgentIdsWithExecutions_ready _ _ Hready). simpl. split.
  - intros agentId. rewrite list_elem_of_fmap. split.
    + intros (key & -> & Hin).
      apply elem_of_prefixed_keys in Hin as [Hpre Hsome].
      by rewrite (getExecutionKey_of_prefixed _ Hpre).
    + intros Hsome. exists (getExecutionKey agentId). split.
      * by rewrite getExecutionKey_strip.
      * apply elem_of_prefixed_keys. split; [|done].
        apply getExecutionKey_prefix.
  - apply NoDup_fmap_2_strong.
    + intros k1 k2 H1 H2 Heq.
      apply elem_of_prefixed_keys in H1 as [H1 _].
      apply elem_of_prefixed_keys in H2 as [H2 _].
      rewrite <- (getExecutionKey_of_prefixed _ H1),
        <- (getExecutionKey_of_prefixed _ H2). by rewrite Heq.
    + apply NoDup_List_filter. unfold keys. apply NoDup_fst_map_to_list.
Qed.

End Facts.

(** A storage of 5000 characters that holds the histories of two agents
    and the preferences. *)
Definition furnished : LocalStorage :=
  LocalStorage.mk true 5000
    (<[getExecutionKey "a"
       := SVExecutions (toStored <$> someExecutions 3 "a")]>
       (<[getExecutionKey "b"
          := SVExecutions (toStored <$> someExecutions 2 "b")]>
          {[ PREFERENCES := SVText "{}" ]})).

Lemma furnished_ready : ready tenEach furnished.
Proof. repeat split; vm_compute; try reflexivity. lia. Qed.

(** An execution that failed: its output has no metadata, and the value
    caught is kept as the details of its error. *)
Definition failedExecution : Execution :=
  Execution.mk "f1" "c" Failed
    (ExecutionInput.mk (Some "a red fox")
       (Some [("seed", JsNumber 7); ("mask", JsUndefined)]))
    (Some (ExecutionOutput.mk OutVideo (JsString "blob:partial") JsUndefined))
    1700000000000 (Some 1700000000350%Z)
    (Some (mkExecutionError "EXECUTION_FAILED" "Failed to fetch"
             (Some (DetailsThrown Demo.connectionRefused)))).

(** Saved and loaded, it has lost the parameter that was [undefined], and
    the details of its error are a plain object. *)
Lemma saveExecutions_loadExecutions_round_trip_witness :
  fst (loadExecutions tenEach "c"
         (snd (saveExecutions tenEach "c" [failedExecution] furnished)))
  = [Execution.mk "f1" "c" Failed
       (ExecutionInput.mk (Some "a red fox") (Some [("seed", JsNumber 7)]))
       (Some (ExecutionOutput.mk OutVideo (JsString "blob:partial")
                JsUndefined))
       1700000000000 (Some 1700000000350%Z)
       (Some (mkExecutionError "EXECUTION_FAILED" "Failed to fetch"
                (Some (DetailsParsed Demo.connectionRefused))))].
Proof.
  refine (proj1 (proj2 (saveExecutions_loadExecutions_round_trip tenEach "c"
                          [failedExecution] furnished furnished_ready _))).
  unfold leavesRoom. vm_compute. lia.
Defined.

(** A storage that is full to the last character. *)
Definition full : LocalStorage :=
  LocalStorage.mk true 64
    {[ getExecutionKey "b"
       := SVExecutions (toStored <$> someExecutions 3 "b") ]}.

Lemma storage_without_room_is_inert_witness :
  withoutRoom tenEach full
  /\ loadExecutions tenEach "b" full = ([], full)
  /\ clearExecutions tenEach "b" full = full.
Proof.
  assert (withoutRoom tenEach full) as Hfull.
  { right. vm_compute. lia. }
  destruct (storage_without_room_is_inert tenEach "b" [] full Hfull)
    as (Hload & _ & Hclear & _).
  split; [exact Hfull|]. split; [exact Hload|exact Hclear].
Defined.



Lemma getAgentIdsWithExecutions_lists_stored_agents_witness :
  "a" ∈ fst (getAgentIdsWithExecutions tenEach furnished)
  /\ NoDup (fst (getAgentIdsWithExecutions tenEach furnished)).
Proof.
  destruct (getAgentIdsWithExecutions_lists_stored_agents tenEach furnished
              furnished_ready) as [Hin Hnd].
  split; [|exact Hnd]. apply Hin. by eexists.
Defined.

End StorageFurtherFacts.

(** ** More on the execution state container *)

Module StoreFurtherFacts.
Import ExecutionStore StorageService ExecutionStoreFacts StorageServiceFacts
  HistoryFacts StorageFurtherFacts JsonFacts.

Section Facts.
Variable jsonLength : Stored.Execution -> nat.

#[local] Arguments getExecutionKey : simpl never.

(** *** What is persisted is what is in the store *)

(** [addExecution] of an execution whose agent id names no member of
    [Object.prototype]. *)
Lemma addExecution_plain e s ls :
  isInherited (Execution.agentId e) = false ->
  let updated := take 50 (e :: listOf (Execution.agentId e) s) in
  addExecution jsonLength e s ls
  = (fst (saveExecutions jsonLength (Execution.agentId e) updated ls),
     State.mk (props_set (State.executions s) (Execution.agentId e) updated)
       (Some e) (inFlight (Execution.status e)),
     snd (saveExecutions jsonLength (Execution.agentId e) updated ls)).
Proof.
  intros Hplain updated. subst updated. unfold addExecution, listOf.
  rewrite (lookupAgent_plain _ _ Hplain).
  destruct (props_get _ _) as [l|]; simpl;
    by destruct (saveExecutions _ _ _ _).
Qed.

(** X26: when the storage is available and has room, [addExecution] of
    an execution whose agent id names no member of [Object.prototype]
    persists the list it has put in the store, whatever was stored under
    the key before: [loadExecutions] returns that list, each execution as
    it comes out of its JSON text, and so does the store after a restart,
    once [loadHistory] has run. *)
Theorem addExecution_persists_the_list_of_the_store e s ls :
  let agentId := Execution.agentId e in
  let listed := take 50 (e :: listOf agentId s) in
  isInherited agentId = false ->
  ready jsonLength ls ->
  leavesRoom jsonLength (getExecutionKey agentId)
    (SVExecutions (toStored <$> listed)) ls ->
  let added := addExecution jsonLength e s ls in
  fst (fst added) = Ok tt
  /\ getExecutionsByAgent agentId (stateAfter added) = Listed listed
  /\ fst (loadExecutions jsonLength agentId (storageAfter added))
     = throughJson <$> listed
  /\ getExecutionsByAgent agentId
       (stateAfter (loadHistory jsonLength agentId State.initial
                      (storageAfter added)))
     = Listed (throughJson <$> listed).
Proof.
  intros agentId listed Hplain Hready Hroom added.
  assert (take 50 listed = listed) as Hlisted.
  { subst listed. by rewrite take_take. }
  destruct (saveExecutions_with_room jsonLength agentId listed ls Hready)
    as [Hsave Hafter].
  { by rewrite Hlisted. }
  rewrite Hlisted in Hsave, Hafter.
  assert (fst (loadExecutions jsonLength agentId
                 (snd (saveExecutions jsonLength agentId listed ls)))
          = throughJson <$> listed) as Hload.
  { rewrite Hsave. simpl. rewrite (loadExecutions_ready _ _ _ Hafter).
    apply storedHistory_saved. }
  pose proof (addExecution_plain e s ls Hplain) as Hadded.
  cbv zeta in Hadded. fold agentId in Hadded. fold listed in Hadded.
  fold added in Hadded.
  assert (storageAfter added
          = snd (saveExecutions jsonLength agentId listed ls)) as Hstorage
    by (by rewrite Hadded).
  split; [by rewrite Hadded, Hsave|]. split; [|split].
  - rewrite Hadded, (getExecutionsByAgent_plain _ _ Hplain).
    unfold stateAfter, listOf. cbn [fst snd State.executions].
    by rewrite props_get_set_eq.
  - by rewrite Hstorage.
  - rewrite Hstorage, (getExecutionsByAgent_plain _ _ Hplain).
    unfold loadHistory, stateAfter, listOf.
    assert (lookupAgent (State.executions State.initial) agentId = None)
      as -> by (by rewrite (lookupAgent_plain _ _ Hplain)).
    destruct (loadExecutions jsonLength agentId _) as [history ls'] eqn:Hl.
    cbn [fst snd State.executions State.initial props_set props_get] in *.
    rewrite String.eqb_refl. cbn [default from_option]. unfold id.
    by rewrite Hload.
Qed.

(** *** The flag [isExecuting] *)

(** X27: after any sequence of calls without [clearHistory], from the
    initial store, [isExecuting] is true exactly when there is a current
    execution and it is pending or processing. *)
Theorem isExecuting_is_right_without_clearHistory calls ls :
  Forall (fun c => forall a, c ≠ CallClearHistory a) calls ->
  executingFlagCorrect (fst (run jsonLength calls State.initial ls)).
Proof.
  assert (forall s ls,
            Forall (fun c => forall a, c ≠ CallClearHistory a) calls ->
            executingFlagCorrect s ->
            executingFlagCorrect (fst (run jsonLength calls s ls))) as Hgen.
  { induction calls as [|c calls IH]; intros s ls' Hcalls Hs; simpl; [done|].
    apply Forall_cons in Hcalls as [Hc Hcalls].
    pose proof (executingFlagCorrect_preserved jsonLength c s ls' Hc Hs)
      as Hstep.
    destruct (perform jsonLength c s ls') as [[r s'] ls'']. by apply IH. }
  intros Hcalls. by apply Hgen.
Qed.

(** *** The bound on the histories *)

(** Every list of the store and every history of the storage has fifty
    entries at most. *)
Definition bounded (s : State) (ls : LocalStorage) : Prop :=
  (forall a l, (a, l) ∈ State.executions s -> length l <= 50)
  /\ (forall k l,
        LocalStorage.items ls !! k = Some (SVExecutions l) -> length l <= 50).

Lemma elem_of_props_set {A} (o : list (string * A)) k v k' v' :
  (k', v') ∈ props_set o k v -> (k' = k /\ v' = v) \/ (k', v') ∈ o.
Proof.
  induction o as [|[k0 v0] o IH]; csimpl; intros Hin.
  - apply list_elem_of_singleton in Hin as [= -> ->]. by left.
  - destruct (String.eqb k0 k).
    + apply elem_of_cons in Hin as [[= -> ->]|Hin]; [by left|].
      right. by right.
    + apply elem_of_cons in Hin as [[= -> ->]|Hin]; [right; left|].
      destruct (IH Hin) as [?|?]; [by left|]. right. by right.
Qed.

Lemma elem_of_props_delete {A} (o : list (string * A)) k k' v' :
  (k', v') ∈ props_delete o k -> (k', v') ∈ o.
Proof.
  induction o as [|[k0 v0] o IH]; csimpl; [done|].
  destruct (String.eqb k0 k); intros Hin.
  - right. by apply IH.
  - apply elem_of_cons in Hin as [[= -> ->]|Hin]; [left|]. right. by apply IH.
Qed.

Lemma props_get_elem_of {A} (o : list (string * A)) k v :
  props_get o k = Some v -> (k, v) ∈ o.
Proof.
  induction o as [|[k0 v0] o IH]; csimpl; [done|].
  destruct (String.eqb_spec k0 k) as [->|Hne].
  - intros [= ->]. left.
  - intros Hget. right. by apply IH.
Qed.

Lemma saveExecutions_bounded agentId executions ls :
  (forall k l,
     LocalStorage.items ls !! k = Some (SVExecutions l) -> length l <= 50) ->
  forall k l,
    LocalStorage.items (snd (saveExecutions jsonLength agentId executions ls))
      !! k = Some (SVExecutions l) ->
    length l <= 50.
Proof.
  intros Hls k l Hk.
  destruct (saveExecutions_stored _ _ _ _ _ _ Hk)
    as [[_ [n ->]]|(l0 & n & Hold & ->)].
  - rewrite length_fmap, !length_take. lia.
  - rewrite length_take. specialize (Hls _ _ Hold). lia.
Qed.

Lemma isAvailable_bounded ls :
  (forall k l,
     LocalStorage.items ls !! k = Some (SVExecutions l) -> length l <= 50) ->
  forall k l,
    LocalStorage.items (snd (isAvailable jsonLength ls)) !! k
    = Some (SVExecutions l) ->
    length l <= 50.
Proof.
  intros Hls k l.
  destruct (isAvailable jsonLength ls) as [[|] ls1] eqn:Hav; simpl.
  - destruct (isAvailable_true _ _ _ Hav) as [_ ->]. simpl.
    intros Hk. apply lookup_delete_Some in Hk as [_ Hk]. by eapply Hls.
  - rewrite (isAvailable_false _ _ _ Hav). apply Hls.
Qed.

Lemma perform_bounded c s ls :
  bounded s ls ->
  bounded (stateAfter (perform jsonLength c s ls))
    (storageAfter (perform jsonLength c s ls)).
Proof.
  intros [Hs Hls]. destruct c as [e|id u|e|a|a]; simpl.
  - unfold addExecution, stateAfter, storageAfter.
    destruct (default _ _) as [agentExecutions|name]; [|by split].
    pose proof (saveExecutions_bounded (Execution.agentId e)
                  (take ExecutionStore.MAX_EXECUTIONS_PER_AGENT
                     (e :: agentExecutions)) ls Hls) as Hsaved.
    unfold ExecutionStore.MAX_EXECUTIONS_PER_AGENT in *.
    destruct (saveExecutions _ _ _ _) as [r ls'].
    cbn [fst snd State.executions] in *.
    split; [|exact Hsaved].
    intros a l Hin. apply elem_of_props_set in Hin as [[-> ->]|Hin].
    + rewrite length_take. lia.
    + by eapply Hs.
  - unfold updateExecution, stateAfter, storageAfter.
    destruct (findExecution _ _) as [[agentId found]|]; [|by split].
    destruct (String.eqb agentId ""); [by split|].
    assert (length (default [] (props_get (State.executions s) agentId))
            <= 50) as Hlen.
    { destruct (props_get _ agentId) as [l|] eqn:Hget; simpl; [|lia].
      apply props_get_elem_of in Hget. by eapply Hs. }
    pose proof (saveExecutions_bounded agentId
                  ((fun e0 =>
                      if String.eqb (Execution.id e0) id
                      then mergeExecution found u else e0)
                     <$> default [] (props_get (State.executions s) agentId))
                  ls Hls) as Hsaved.
    destruct (saveExecutions _ _ _ _) as [r ls']. simpl in *.
    split; [|exact Hsaved].
    intros a l Hin. apply elem_of_props_set in Hin as [[-> ->]|Hin].
    + by rewrite length_fmap.
    + by eapply Hs.
  - by split.
  - unfold loadHistory, stateAfter, storageAfter.
    destruct (lookupAgent _ _); [by split|].
    unfold loadExecutions.
    pose proof (isAvailable_bounded ls Hls) as Hav.
    destruct (isAvailable jsonLength ls) as [available ls1]. simpl in Hav.
    destruct (negb available); simpl.
    { split; [|exact Hav]. intros a' l Hin.
      apply elem_of_props_set in Hin as [[-> ->]|Hin]; [simpl; lia|].
      by eapply Hs. }
    unfold getItem.
    destruct (LocalStorage.items ls1 !! getExecutionKey a) as [[l0|t]|]
      eqn:Hk; simpl; (split; [|exact Hav]); intros a' l Hin;
      apply elem_of_props_set in Hin as [[-> ->]|Hin];
      try (by eapply Hs); try (simpl; lia).
    rewrite length_fmap. by eapply Hav.
  - unfold clearHistory, stateAfter, storageAfter. simpl. split.
    + intros a' l Hin. apply elem_of_props_delete in Hin. by eapply Hs.
    + unfold clearExecutions.
      pose proof (isAvailable_bounded ls Hls) as Hav.
      destruct (isAvailable jsonLength ls) as [available ls1]. simpl in Hav.
      destruct (negb available); [exact Hav|].
      intros k l. unfold removeItem. simpl. intros Hk.
      apply lookup_delete_Some in Hk as [_ Hk]. by eapply Hav.
Qed.

(** X28: the bound of fifty is kept by every action of the store: if no
    stored history has more than fifty entries, then after any sequence of
    calls no list of the store and no history loaded from the storage has
    more. *)
Theorem histories_stay_within_fifty calls ls :
  (forall k l,
     LocalStorage.items ls !! k = Some (SVExecutions l) -> length l <= 50) ->
  let final := run jsonLength calls State.initial ls in
  (forall agentId l,
     getExecutionsByAgent agentId (fst final) = Listed l -> length l <= 50)
  /\ (forall agentId,
        length (fst (loadExecutions jsonLength agentId (snd final))) <= 50).
Proof.
  intros Hls final.
  assert (forall s ls,
            bounded s ls ->
            bounded (fst (run jsonLength calls s ls))
              (snd (run jsonLength calls s ls))) as Hgen.
  { induction calls as [|c calls IH]; intros s ls' Hb; simpl; [done|].
    pose proof (perform_bounded c s ls' Hb) as Hstep.
    destruct (perform jsonLength c s ls') as [[r s'] ls'']. by apply IH. }
  destruct (Hgen State.initial ls) as [Hs Hstored].
  { split; [|exact Hls]. intros a l Hin. by apply elem_of_nil in Hin. }
  fold final in Hs, Hstored. split.
  - intros agentId l. unfold getExecutionsByAgent, lookupAgent.
    destruct (props_get _ agentId) as [l0|] eqn:Hget; simpl.
    + intros [= <-]. apply props_get_elem_of in Hget. by eapply Hs.
    + destruct (isInherited agentId); simpl; [discriminate|].
      intros [= <-]. simpl. lia.
  - intros agentId. unfold loadExecutions.
    pose proof (isAvailable_bounded (snd final) Hstored) as Hav.
    destruct (isAvailable jsonLength (snd final)) as [available ls1].
    simpl in Hav. destruct (negb available); simpl; [lia|].
    unfold getItem.
    destruct (LocalStorage.items ls1 !! getExecutionKey agentId)
      as [[l0|t]|] eqn:Hk; simpl; try lia.
    rewrite length_fmap. by eapply Hav.
Qed.

(** *** Updating and looking up *)

Lemma findExecution_updated entries executionId agentId found updated :
  NoDup entries.*1 ->
  findExecution entries executionId = Some (agentId, found) ->
  Execution.id updated = executionId ->
  findExecution
    (props_set entries agentId
       (replaceById executionId updated
          <$> default [] (props_get entries agentId)))
    executionId = Some (agentId, updated).
Proof.
  intros Hnd Hfind Hid.
  induction entries as [|[a0 l0] entries IH]; [done|].
  csimpl in Hnd. apply NoDup_cons in Hnd as [Ha0 Hnd].
  cbn [findExecution] in Hfind. cbn [props_get].
  destruct (List.find _ l0) as [e|] eqn:E.
  - injection Hfind as -> ->. rewrite String.eqb_refl.
    cbn [default from_option props_set]. unfold id.
    rewrite String.eqb_refl. cbn [findExecution].
    by rewrite (find_replaceById _ _ _ _ E Hid).
  - destruct (String.eqb_spec a0 agentId) as [->|Hne].
    + destruct (findExecution_Some _ _ _ _ Hfind) as (_ & l' & Hin & _).
      destruct Ha0. apply list_elem_of_fmap. by exists (agentId, l').
    + cbn [props_set]. apply String.eqb_neq in Hne. rewrite Hne.
      cbn [findExecution]. rewrite E. by apply IH.
Qed.

(** X29: after [updateExecution] with an id that is in the store (under
    an agent id that is not empty) and fields that keep the id,
    [getExecution] returns the record merged with the fields; the list of
    its agent is the old one with that record replaced, of the same
    length, and the lists of the other agents are the same. *)
Theorem updateExecution_then_getExecution executionId updates s ls agentId
    found :
  NoDup (State.executions s).*1 ->
  findExecution (State.executions s) executionId = Some (agentId, found) ->
  agentId ≠ "" ->
  keepsId executionId updates ->
  let updated := updateExecution jsonLength executionId updates s ls in
  getExecution executionId (stateAfter updated)
  = Some (mergeExecution found updates)
  /\ (exists l,
        getExecutionsByAgent agentId s = Listed l
        /\ getExecutionsByAgent agentId (stateAfter updated)
           = Listed (replaceById executionId (mergeExecution found updates)
                       <$> l))
  /\ forall other,
       other ≠ agentId ->
       getExecutionsByAgent other (stateAfter updated)
       = getExecutionsByAgent other s.
Proof.
  intros Hnd Hfind Hagent Hkeep updated. subst updated.
  rewrite stateAfter_updateExecution. unfold updatedState.
  rewrite Hfind. apply String.eqb_neq in Hagent. rewrite Hagent.
  destruct (findExecution_Some _ _ _ _ Hfind) as (Hfound & l0 & Hl0 & _).
  pose proof (mergeExecution_keeps_id _ _ _ Hfound Hkeep) as Hid.
  unfold getExecution, getExecutionsByAgent, lookupAgent. simpl.
  rewrite (findExecution_updated _ _ _ _ _ Hnd Hfind Hid).
  split; [done|]. split.
  - destruct (props_get (State.executions s) agentId) as [l|] eqn:Hget.
    + exists l. split; [done|]. by rewrite props_get_set_eq.
    + exfalso. apply props_get_None_keys in Hget. apply Hget.
      apply list_elem_of_fmap. by exists (agentId, l0).
  - intros other Hother. by rewrite props_get_set_ne.
Qed.

(** *** Failures of persistence *)

Lemma saveExecutions_throws agentId executions ls e :
  fst (saveExecutions jsonLength agentId executions ls) = Throw e ->
  e = QuotaExceededError.
Proof.
  unfold saveExecutions.
  destruct (isAvailable jsonLength ls) as [available ls1].
  destruct (negb available); [discriminate|].
  destruct (setItem jsonLength _ _ ls1) as [[[]|error] ls2]; [discriminate|].
  destruct (isErrorInstance error && _); [|discriminate].
  unfold handleQuotaExceeded.
  destruct (setItem jsonLength _ _ ls2) as [[[]|error2] ls3]; [discriminate|].
  destruct (setItem jsonLength _ _ _) as [[[]|error3] ls4]; [discriminate|].
  by intros [= <-].
Qed.

(** The state an action sets without reading the storage. *)
Definition stateSet (c : Call) (s : State) : option State :=
  match c with
  | CallAddExecution e =>
      Some (State.mk
              (props_set (State.executions s) (Execution.agentId e)
                 (take 50 (e :: listOf (Execution.agentId e) s)))
              (Some e) (inFlight (Execution.status e)))
  | CallUpdateExecution executionId updates =>
      Some (updatedState executionId updates s)
  | _ => None
  end.

(** X30: an action of the store throws in two cases only. [addExecution]
    for an agent id that has no list in the store and names a member of
    [Object.prototype] throws a [TypeError] before anything is set: the
    store and the storage are as they were. Otherwise the error is the
    [QuotaExceededError] of the persistence layer (which [parseError]
    turns into [UNKNOWN_ERROR]); only [addExecution] and [updateExecution]
    throw it, and the state of the store has then been set as if the write
    had succeeded. *)
Theorem store_action_failures c s ls e :
  fst (fst (perform jsonLength c s ls)) = Throw e ->
  (e = QuotaExceededError
   /\ code (Errors.parseError e) = "UNKNOWN_ERROR"
   /\ stateSet c s = Some (stateAfter (perform jsonLength c s ls)))
  \/ (exists x,
        c = CallAddExecution x
        /\ lookupAgent (State.executions s) (Execution.agentId x)
           = Some (Inherited (Execution.agentId x))
        /\ e = notIterable
        /\ isTypeError e = true
        /\ perform jsonLength c s ls = (Throw e, s, ls)).
Proof.
  destruct c as [x|id u|x|a|a]; simpl.
  - unfold addExecution, stateAfter, listOf, lookupAgent.
    destruct (props_get (State.executions s) (Execution.agentId x))
      as [l|] eqn:Hget; simpl.
    + pose proof (saveExecutions_throws (Execution.agentId x)
                    (take ExecutionStore.MAX_EXECUTIONS_PER_AGENT (x :: l))
                    ls e) as Hthrows.
      destruct (saveExecutions _ _ _ _) as [r ls']. simpl in *.
      intros Hr. rewrite (Hthrows Hr). left. by repeat split.
    + destruct (isInherited (Execution.agentId x)) eqn:Hinh; simpl.
      * intros [= <-]. right. exists x.
        unfold lookupAgent, addExecution. rewrite Hget, Hinh.
        by repeat split.
      * pose proof (saveExecutions_throws (Execution.agentId x)
                      (take ExecutionStore.MAX_EXECUTIONS_PER_AGENT [x])
                      ls e) as Hthrows.
        destruct (saveExecutions _ _ _ _) as [r ls']. simpl in *.
        intros Hr. rewrite (Hthrows Hr). left. by repeat split.
  - intros Hthrow. left.
    assert (e = QuotaExceededError) as ->.
    { revert Hthrow. unfold updateExecution.
      destruct (findExecution _ _) as [[agentId found]|]; [|discriminate].
      destruct (String.eqb agentId ""); [discriminate|].
      pose proof (saveExecutions_throws agentId
                    ((fun e0 =>
                        if String.eqb (Execution.id e0) id
                        then mergeExecution found u else e0)
                       <$> default [] (props_get (State.executions s) agentId))
                    ls e) as Hthrows.
      destruct (saveExecutions _ _ _ _) as [r ls']. simpl in *.
      exact Hthrows. }
    split; [done|]. split; [done|].
    by rewrite stateAfter_updateExecution.
  - discriminate.
  - unfold loadHistory. destruct (lookupAgent _ _); [discriminate|].
    by destruct (loadExecutions _ _ _).
  - discriminate.
Qed.

End Facts.

(** *** Concrete stores *)

(** An execution with a value that JSON does not write. *)
Definition sketched : Execution :=
  Execution.mk "e1" "a" Pending
    (ExecutionInput.mk (Some "a red fox") (Some [("mask", JsUndefined)]))
    None 0 None None.

Lemma addExecution_persists_the_list_of_the_store_witness :
  let ls := LocalStorage.mk true 5000 ∅ in
  getExecutionsByAgent "a"
    (stateAfter (addExecution tenEach sketched State.initial ls))
  = Listed [sketched]
  /\ fst (loadExecutions tenEach "a"
            (storageAfter (addExecution tenEach sketched State.initial ls)))
     = [Execution.mk "e1" "a" Pending
          (ExecutionInput.mk (Some "a red fox") (Some [])) None 0 None None].
Proof.
  intros ls.
  destruct (addExecution_persists_the_list_of_the_store tenEach sketched
              State.initial ls) as (_ & Hstate & Hload & _).
  - reflexivity.
  - repeat split; vm_compute; try reflexivity. lia.
  - unfold leavesRoom. vm_compute. lia.
  - split; [exact Hstate|exact Hload].
Defined.

Lemma isExecuting_is_right_without_clearHistory_witness :
  executingFlagCorrect
    (fst (run demoJsonLength
            [CallAddExecution (demoExecution "e1" "a" Pending);
             CallUpdateExecution "e1" markCompleted;
             CallSetCurrentExecution None]
            State.initial demoStorage)).
Proof.
  apply isExecuting_is_right_without_clearHistory.
  repeat (apply Forall_cons; split; [intros a; discriminate|]).
  apply Forall_nil. exact I.
Defined.

Lemma histories_stay_within_fifty_witness :
  exists l,
    getExecutionsByAgent "a"
      (fst (run tenEach
              (adding (someExecutions 60 "a") ++ [CallLoadHistory "b"])
              State.initial furnished))
    = Listed l
    /\ length l <= 50.
Proof.
  assert (forall k l,
            LocalStorage.items furnished !! k = Some (SVExecutions l) ->
            length l <= 50) as Hstored.
  { intros k l Hk.
    destruct (decide (k = getExecutionKey "a")) as [->|Ha].
    { vm_compute in Hk. injection Hk as <-. simpl. lia. }
    destruct (decide (k = getExecutionKey "b")) as [->|Hb].
    { vm_compute in Hk. injection Hk as <-. simpl. lia. }
    unfold furnished in Hk. simpl in Hk.
    rewrite !lookup_insert_ne in Hk by done.
    apply lookup_singleton_Some in Hk as [_ [=]]. }
  eexists. split; [vm_compute; reflexivity|].
  apply (proj1 (histories_stay_within_fifty tenEach
                  (adding (someExecutions 60 "a") ++ [CallLoadHistory "b"])
                  furnished Hstored) "a").
  vm_compute. reflexivity.
Defined.

Lemma updateExecution_then_getExecution_witness :
  getExecution "x"
    (stateAfter (updateExecution demoJsonLength "x" markCompleted
                   sharedIdState demoStorage))
  = Some (mergeExecution (demoExecution "x" "agent-a" Pending) markCompleted).
Proof.
  refine (proj1 (updateExecution_then_getExecution demoJsonLength "x"
                   markCompleted sharedIdState demoStorage "agent-a"
                   (demoExecution "x" "agent-a" Pending) _ _ _ _)).
  - simpl. apply NoDup_cons. split; [|apply NoDup_singleton].
    intros Hin. apply list_elem_of_singleton in Hin. discriminate.
  - reflexivity.
  - discriminate.
  - by left.
Defined.

(** A storage with room for the probe and for nothing else. *)
Definition cramped : LocalStorage := LocalStorage.mk true 25 ∅.

Lemma store_action_failures_witness :
  let e := demoExecution "e1" "a" Pending in
  let failed := perform tenEach (CallAddExecution e) State.initial cramped in
  let inherited := demoExecution "e2" "constructor" Pending in
  fst (fst failed) = Throw QuotaExceededError
  /\ stateSet (CallAddExecution e) State.initial = Some (stateAfter failed)
  /\ perform tenEach (CallAddExecution inherited) State.initial cramped
     = (Throw notIterable, State.initial, cramped).
Proof.
  intros e failed inherited.
  assert (fst (fst failed) = Throw QuotaExceededError) as Hthrow
    by (vm_compute; reflexivity).
  split; [exact Hthrow|]. split.
  - destruct (store_action_failures tenEach (CallAddExecution e)
                State.initial cramped QuotaExceededError Hthrow)
      as [(_ & _ & Hset)|(x & _ & _ & Hnot & _)];
      [exact Hset|discriminate Hnot].
  - destruct (store_action_failures tenEach (CallAddExecution inherited)
                State.initial cramped notIterable eq_refl)
      as [(Hquota & _)|(x & _ & _ & _ & _ & Hrun)];
      [discriminate Hquota|exact Hrun].
Defined.

End StoreFurtherFacts.
